(** * gitrecon: the aggregation pipeline of the GitHub reconnaissance scan

    A shallow embedding of [src/core/smartScanner.js] (class SmartScanner),
    [src/services/github/githubApi.js] (getRepositories, getEmails) and of the
    orchestrator [runGithubRecon] with its helpers [mergeEmailMaps] and
    [updateResultEmails], followed by the properties of the specification
    that were checked against them.

    Conventions of the embedding.
    - A JavaScript string is a [string]; its characters are bytes, and case
      mapping is the ASCII one.
    - A JavaScript [Set] of strings is a duplicate-free [list string] in
      insertion order; a [Map] from strings to sets is an association list in
      insertion order (both orders are observable through [Array.from] and
      [entries()]).
    - Numbers that the code computes with [/], [Math.ceil], [Math.floor] and
      fractional weights are rationals ([Q]); counts and timestamps are [Z].
      The priority score, which the code accumulates in double precision,
      is here the exact sum of its terms: what is stated of scores is their
      order, and equality only between sums of the same terms added in the
      same order.
    - [while (true)] loops take a fuel argument and return [None] when it
      runs out. *)

From Stdlib Require Import List String Ascii ZArith QArith Qround Qminmax Bool Lia Lqa Arith.
From Stdlib Require Import Sorting.Permutation Sorting.Sorted.
Import ListNotations.

Local Open Scope string_scope.
Local Open Scope list_scope.

(** ** JavaScript strings and regular expressions *)

Module JsString.

(** [String.prototype.toLowerCase] on one ASCII character. *)
Definition toLowerChar (c : ascii) : ascii :=
  let n := nat_of_ascii c in
  if ((65 <=? n) && (n <=? 90))%nat then ascii_of_nat (n + 32) else c.

Fixpoint toLowerCase (s : string) : string :=
  match s with
  | EmptyString => EmptyString
  | String c s' => String (toLowerChar c) (toLowerCase s')
  end.

(** [s.split(sep)] for a one-character separator: the pieces between the
    occurrences of [sep], so a string with n separators has n+1 pieces. *)
Fixpoint split (sep : ascii) (s : string) : list string :=
  match s with
  | EmptyString => [EmptyString]
  | String c s' =>
      if Ascii.eqb c sep then EmptyString :: split sep s'
      else match split sep s' with
           | [] => [String c EmptyString]
           | p :: ps => String c p :: ps
           end
  end.

(** Number of occurrences of a character. *)
Fixpoint count (c : ascii) (s : string) : nat :=
  match s with
  | EmptyString => 0
  | String d s' => (if Ascii.eqb d c then 1 else 0) + count c s'
  end.

(** [s.includes(needle)]. *)
Fixpoint includes (needle s : string) : bool :=
  String.prefix needle s ||
  match s with
  | EmptyString => false
  | String _ s' => includes needle s'
  end.

(** A non-empty string is truthy. *)
Definition truthy (s : string) : bool := negb (String.eqb s "").

(** [if (x)] on a value that is a string or null. *)
Definition truthyOpt (o : option string) : bool :=
  match o with
  | Some s => truthy s
  | None => false
  end.

(** Line terminators, which the regular expression [.] does not match. *)
Definition isLineTerminator (c : ascii) : bool :=
  Ascii.eqb c "010"%char || Ascii.eqb c "013"%char.

Fixpoint noLineTerminator (s : string) : bool :=
  match s with
  | EmptyString => true
  | String c s' => negb (isLineTerminator c) && noLineTerminator s'
  end.

(** The two shapes of regular expression that the scanner uses on email
    addresses, both with the [i] flag. *)
Inductive RegExp : Type :=
| Contains_i (lit : string)       (* /lit/i *)
| AnchoredTail_i (lit : string).  (* /^.+lit$/i *)

(** [pattern.test(s)]. *)
Definition test (r : RegExp) (s : string) : bool :=
  match r with
  | Contains_i lit => includes (toLowerCase lit) (toLowerCase s)
  | AnchoredTail_i lit =>
      let n := String.length s in
      let m := String.length lit in
      (m <? n)%nat
      && String.eqb (toLowerCase (substring (n - m) m s)) (toLowerCase lit)
      && noLineTerminator (substring 0 (n - m) s)
  end.

End JsString.

(** ** Sets and maps with insertion order *)

Module JsSet.

Definition t : Type := list string.

Definition empty : t := [].

Definition has (x : string) (s : t) : bool := existsb (String.eqb x) s.

(** [s.add(x)]: appended unless already present. *)
Definition add (x : string) (s : t) : t :=
  if has x s then s else s ++ [x].

(** [xs.forEach(x => s.add(x))]. *)
Definition addAll (xs : list string) (s : t) : t :=
  fold_left (fun acc x => add x acc) xs s.

End JsSet.

Module JsMap.

(** [Map<string, V>] as the list of its entries in insertion order. *)
Definition t (V : Type) : Type := list (string * V).

Definition empty {V} : t V := [].

Fixpoint get {V} (k : string) (m : t V) : option V :=
  match m with
  | [] => None
  | (k', v) :: m' => if String.eqb k k' then Some v else get k m'
  end.

Definition has {V} (k : string) (m : t V) : bool :=
  match get k m with
  | Some _ => true
  | None => false
  end.

(** [m.set(k, v)]: replaces the value in place, or appends a new entry. *)
Fixpoint set {V} (k : string) (v : V) (m : t V) : t V :=
  match m with
  | [] => [(k, v)]
  | (k', v') :: m' =>
      if String.eqb k k' then (k', v) :: m' else (k', v') :: set k v m'
  end.

(** [f] applied in place to the value stored under [k], which is how
    [m.get(k).add(x)] acts on the stored set. *)
Fixpoint adjust {V} (f : V -> V) (k : string) (m : t V) : t V :=
  match m with
  | [] => []
  | (k', v) :: m' =>
      if String.eqb k k' then (k', f v) :: m' else (k', v) :: adjust f k m'
  end.

Definition keys {V} (m : t V) : list string := map fst m.

(** The entries whose key satisfies [p], in order. *)
Definition filterKeys {V} (p : string -> bool) (m : t V) : t V :=
  filter (fun kv => p (fst kv)) m.

(** [m.delete(k)]: no entry is left under [k]. *)
Definition delete {V} (k : string) (m : t V) : t V :=
  filter (fun kv => negb (String.eqb k (fst kv))) m.

End JsMap.

(** A map from email addresses to sets of strings: [emailsToName],
    [emailsToRepo], [emailSources]. *)
Definition EmailMap : Type := JsMap.t JsSet.t.

(** [if (!m.has(k)) m.set(k, new Set())]. *)
Definition ensureKey (k : string) (m : EmailMap) : EmailMap :=
  if JsMap.has k m then m else JsMap.set k JsSet.empty m.

(** [m.get(k).add(x)]. *)
Definition addAt (k x : string) (m : EmailMap) : EmailMap :=
  JsMap.adjust (JsSet.add x) k m.

(** [xs.forEach(x => m.get(k).add(x))]. *)
Definition addAllAt (k : string) (xs : list string) (m : EmailMap) : EmailMap :=
  fold_left (fun acc x => addAt k x acc) xs m.

(** ** src/core/smartScanner.js *)

Module SmartScanner.

Import JsString.

(** [this.emailPatterns.noreply]. *)
Definition noreplyPatterns : list RegExp :=
  [ Contains_i "noreply@";
    Contains_i "no-reply@";
    Contains_i "donotreply@";
    AnchoredTail_i "@users.noreply.github.com";
    AnchoredTail_i "@users.noreply.gitlab.com";
    Contains_i "notifications@github.com" ].

(** [this.emailPatterns.disposable]. *)
Definition disposableDomains : list string :=
  [ "tempmail.org"; "guerrillamail.com"; "mailinator.com"; "10minutemail.com";
    "throwaway.email"; "temp-mail.org"; "fakeinbox.com"; "getnada.com";
    "maildrop.cc"; "dispostable.com"; "yopmail.com"; "trashmail.com";
    "sharklasers.com"; "guerrillamail.info"; "grr.la" ].

(** [commonPersonalDomains] of classifyEmail. *)
Definition commonPersonalDomains : list string :=
  [ "gmail.com"; "yahoo.com"; "hotmail.com"; "outlook.com";
    "live.com"; "icloud.com"; "protonmail.com"; "mail.com" ].

Inductive Classification : Type := personal | work | noreply | disposable.

Record EmailClass : Type := mkEmailClass {
  email : string;
  isValid : bool;
  isNoreply : bool;
  isDisposable : bool;
  domain : option string;
  classification : Classification
}.

(** [array.includes(x)] on an array of strings. *)
Definition arrayIncludes (xs : list string) (x : string) : bool :=
  existsb (String.eqb x) xs.

(** classifyEmail(email). *)
Definition classifyEmail (e : string) : EmailClass :=
  match split "@"%char e with
  | [_; d] =>
      let dom := toLowerCase d in
      if existsb (fun pattern => test pattern e) noreplyPatterns then
        mkEmailClass e true true false (Some dom) noreply
      else if arrayIncludes disposableDomains dom then
        mkEmailClass e true false true (Some dom) disposable
      else if negb (arrayIncludes commonPersonalDomains dom) then
        mkEmailClass e true false false (Some dom) work
      else
        mkEmailClass e true false false (Some dom) personal
  | _ => mkEmailClass e false false false None personal
  end.

(** *** Repository priority *)

(** A repository as returned by getRepositoriesDetailed, with the fields
    that scoring and filtering read. [pushed_at] is the push time in
    milliseconds since the epoch, [None] standing for null. *)
Record Repo : Type := mkRepo {
  name : string;
  fork : bool;
  archived : bool;
  pushed_at : option Z;
  stargazers_count : Z;
  description : option string;
  has_issues : bool
}.

(** [this.priorityWeights]. *)
Module priorityWeights.
Definition recentActivity : Q := 30.
Definition hasDescription : Q := 5.
Definition notFork : Q := 20.
Definition starCount : Q := 10.
Definition commitCount : Q := 15.
Definition hasIssues : Q := 5.
Definition notArchived : Q := 15.
End priorityWeights.

(** [x < y] on numbers. *)
Definition Qltb (x y : Q) : bool := negb (Qle_bool y x).

(** [(now - pushedDate) / (1000 * 60 * 60 * 24 * 30)]. *)
Definition monthsAgo (now pushed : Z) : Q :=
  inject_Z (now - pushed) / inject_Z (1000 * 60 * 60 * 24 * 30).

Section Scoring.

(** [Math.log10] on the integers it is applied to, and the reading of
    the clock ([new Date()]) during the pass. *)
Variable log10 : Z -> Q.
Variable now : Z.

(** The recency term of the score. *)
Definition recencyScore (pushed : option Z) : Q :=
  match pushed with
  | Some t =>
      let m := monthsAgo now t in
      if Qltb m 1 then priorityWeights.recentActivity
      else if Qltb m 6 then priorityWeights.recentActivity * 0.7
      else if Qltb m 12 then priorityWeights.recentActivity * 0.3
      else 0
  | None => 0
  end.

(** calculateRepoPriority(repo). *)
Definition calculateRepoPriority (r : Repo) : Q :=
  let score := 0 in
  let score := score + recencyScore (pushed_at r) in
  let score :=
    if truthyOpt (description r)
    then score + priorityWeights.hasDescription else score in
  let score :=
    if negb (fork r) then score + priorityWeights.notFork else score in
  let score :=
    if (0 <? stargazers_count r)%Z
    then score + Qmin (log10 (stargazers_count r + 1) * 5)
                      priorityWeights.starCount
    else score in
  let score :=
    if negb (archived r) then score + priorityWeights.notArchived else score in
  let score :=
    if has_issues r then score + priorityWeights.hasIssues else score in
  score.

(** A repository with its attached [priority]. *)
Record ScoredRepo : Type := mkScored {
  repo : Repo;
  priority : Q
}.

(** [Array.prototype.sort] with the comparator
    [(a, b) => b.priority - a.priority]: the sort is stable, so its
    result is the one of a stable insertion sort in descending order. *)
Fixpoint insertDesc (x : ScoredRepo) (l : list ScoredRepo) : list ScoredRepo :=
  match l with
  | [] => [x]
  | y :: l' =>
      if Qle_bool (priority y) (priority x) then x :: y :: l'
      else y :: insertDesc x l'
  end.

Definition sortDesc (l : list ScoredRepo) : list ScoredRepo :=
  fold_right insertDesc [] l.

(** sortReposByPriority(repos). *)
Definition sortReposByPriority (repos : list Repo) : list ScoredRepo :=
  sortDesc (map (fun r => mkScored r (calculateRepoPriority r)) repos).

(** The options of filterRepos; [None] is null, and the defaults are
    those of the destructuring pattern. *)
Record FilterOptions : Type := mkFilterOptions {
  includeForks : bool;
  includeArchived : bool;
  minStars : Z;
  maxAge : option Z;
  maxRepos : option Z
}.

Definition defaultFilterOptions : FilterOptions :=
  mkFilterOptions false false 0 None None.

(** A number or null used as a condition: null and 0 are falsy. *)
Definition truthyNum (o : option Z) : bool :=
  match o with
  | Some k => negb (k =? 0)%Z
  | None => false
  end.

(** The callback of [repos.filter] in filterRepos. *)
Definition keepRepo (o : FilterOptions) (r : Repo) : bool :=
  if negb (includeForks o) && fork r then false
  else if negb (includeArchived o) && archived r then false
  else if (stargazers_count r <? minStars o)%Z then false
  else
    match maxAge o, pushed_at r with
    | Some m, Some t =>
        if truthyNum (maxAge o) && Qltb (inject_Z m) (monthsAgo now t)
        then false else true
    | _, _ => true
    end.

(** [a.slice(0, k)]. *)
Definition slice0 {A} (k : Z) (l : list A) : list A :=
  if (0 <=? k)%Z then firstn (Z.to_nat k) l
  else firstn (Z.to_nat (Z.of_nat (List.length l) + k)) l.

(** filterRepos(repos, options). *)
Definition filterRepos (repos : list Repo) (o : FilterOptions)
  : list ScoredRepo :=
  let filtered := filter (keepRepo o) repos in
  let filtered := sortReposByPriority filtered in
  match maxRepos o with
  | Some k =>
      if truthyNum (maxRepos o) && (k <? Z.of_nat (List.length filtered))%Z
      then slice0 k filtered else filtered
  | None => filtered
  end.

End Scoring.

(** *** Enriched email list *)

Record Enriched : Type := mkEnriched {
  e_email : string;
  e_names : list string;
  e_classification : Classification;
  e_domain : option string;
  e_isDisposable : bool
}.

(** deduplicateEmails(emailsMap). *)
Definition deduplicateEmails (emailsMap : EmailMap) : JsMap.t Enriched :=
  fold_left
    (fun enriched entry =>
       let '(e, names) := entry in
       let c := classifyEmail e in
       if negb (isValid c) || isNoreply c then enriched
       else JsMap.set e
              (mkEnriched e names (classification c) (domain c) (isDisposable c))
              enriched)
    emailsMap JsMap.empty.

(** *** API budget *)

(** The options of estimateApiCalls. *)
Record EstimateOptions : Type := mkEstimateOptions {
  fetchProfile : bool;
  fetchOrgs : bool;
  fetchKeys : bool;
  fetchGists : bool;
  avgCommitsPerRepo : Z
}.

Definition defaultEstimateOptions : EstimateOptions :=
  mkEstimateOptions true true true false 50.

(** [Math.ceil(a / b)] and [Math.floor(a / b)] on integers. *)
Definition ceilDiv (a b : Z) : Z := Qceiling (inject_Z a / inject_Z b).
Definition floorDiv (a b : Z) : Z := Qfloor (inject_Z a / inject_Z b).

(** estimateApiCalls(repoCount, options). *)
Definition estimateApiCalls (repoCount : Z) (o : EstimateOptions) : Z :=
  let calls := 0%Z in
  let calls := if fetchProfile o then (calls + 1)%Z else calls in
  let calls := if fetchOrgs o then (calls + 1)%Z else calls in
  let calls := if fetchKeys o then (calls + 1)%Z else calls in
  let calls := if fetchGists o then (calls + 1)%Z else calls in
  let calls := (calls + ceilDiv repoCount 100)%Z in
  let calls := (calls + repoCount * ceilDiv (avgCommitsPerRepo o) 100)%Z in
  calls.

(** An advisory action; [limit_repos] carries its [value], which is
    [None] when the division by a zero per-repository cost leaves no
    finite number. The message texts are not modelled. *)
Inductive Recommendation : Type :=
| limit_repos (value : option Z)
| use_token
| skip_forks.

Record Strategy : Type := mkStrategy {
  canComplete : bool;
  estimatedCalls : Z;
  rateLimitRemaining : Z;
  recommendations : list Recommendation
}.

(** generateScanStrategy(repoCount, rateLimitRemaining, options). *)
Definition generateScanStrategy (repoCount remaining : Z) (o : EstimateOptions)
  : Strategy :=
  let estimated := estimateApiCalls repoCount o in
  let can := (estimated <=? remaining)%Z in
  let recs :=
    if negb can then
      let callsPerRepo := estimateApiCalls 1 o in
      let safeRepoCount :=
        if (callsPerRepo =? 0)%Z then None
        else Some (floorDiv (remaining - 10) callsPerRepo) in
      [limit_repos safeRepoCount; use_token; skip_forks]
    else [] in
  mkStrategy can estimated remaining recs.

(** *** Response cache *)

Section Cache.

(** The type of the cached responses. *)
Variable D : Type.

(** A value of [this.cache]: the data and the time at which it expires. *)
Record CacheEntry : Type := mkCacheEntry {
  data : D;
  expiry : Z
}.

Definition Cache : Type := JsMap.t CacheEntry.

(** [this.cacheExpiry], five minutes in milliseconds. *)
Definition cacheExpiry : Z := 5 * 60 * 1000.

(** getCached(key) at the clock reading [now]: the value returned ([None]
    for null) and the cache afterwards. *)
Definition getCached (now : Z) (key : string) (cache : Cache)
  : option D * Cache :=
  match JsMap.get key cache with
  | None => (None, cache)
  | Some cached =>
      if (expiry cached <? now)%Z then (None, JsMap.delete key cache)
      else (Some (data cached), cache)
  end.

(** setCache(key, data) at the clock reading [now]. *)
Definition setCache (now : Z) (key : string) (d : D) (cache : Cache) : Cache :=
  JsMap.set key (mkCacheEntry d (now + cacheExpiry)) cache.

(** clearCache(). *)
Definition clearCache (cache : Cache) : Cache := JsMap.empty.

End Cache.

Arguments mkCacheEntry {D} data expiry.
Arguments data {D} c.
Arguments expiry {D} c.
Arguments getCached {D} now key cache.
Arguments setCache {D} now key d cache.
Arguments clearCache {D} cache.

(** *** Sensitive words in commit messages *)

(** The two shapes of [this.emailPatterns.sensitivePatterns], both with
    the [i] flag: a literal, and two literals with an optional underscore
    or hyphen between them. *)
Inductive SensitivePattern : Type :=
| Literal_i (lit : string)            (* /lit/i *)
| Joined_i (left right : string).     (* /left[_-]?right/i *)

(** [this.emailPatterns.sensitivePatterns]. *)
Definition sensitivePatterns : list SensitivePattern :=
  [ Joined_i "api" "key";
    Joined_i "secret" "key";
    Literal_i "password";
    Joined_i "private" "key";
    Joined_i "access" "token";
    Joined_i "auth" "token";
    Literal_i "bearer";
    Joined_i "aws" "secret";
    Literal_i "credentials";
    Literal_i ".env";
    Literal_i "config.json";
    Literal_i "id_rsa" ].

(** [pattern.toString()]. *)
Definition patternToString (p : SensitivePattern) : string :=
  match p with
  | Literal_i ".env" => "/\.env/i"
  | Literal_i "config.json" => "/config\.json/i"
  | Literal_i lit => "/" ++ lit ++ "/i"
  | Joined_i l r => "/" ++ l ++ "[_-]?" ++ r ++ "/i"
  end.

(** [s] starts with [lit], up to letter case. *)
Definition startsWith_i (lit s : string) : bool :=
  String.prefix (toLowerCase lit) (toLowerCase s).

(** The characters of the class [[_-]]. *)
Definition isJoiner (c : ascii) : bool :=
  Ascii.eqb c "_"%char || Ascii.eqb c "-"%char.

(** The length of the match of the pattern at the start of [s], if there
    is one: the optional character is taken when it is there and the
    right literal follows it, and left out otherwise. *)
Definition matchAtStart (p : SensitivePattern) (s : string) : option nat :=
  match p with
  | Literal_i lit =>
      if startsWith_i lit s then Some (String.length lit) else None
  | Joined_i l r =>
      if startsWith_i l s then
        let rest := substring (String.length l) (String.length s) s in
        let withJoiner :=
          match rest with
          | String c rest' => isJoiner c && startsWith_i r rest'
          | EmptyString => false
          end in
        if withJoiner
        then Some (String.length l + 1 + String.length r)%nat
        else if startsWith_i r rest
             then Some (String.length l + String.length r)%nat
             else None
      else None
  end.

(** [message.match(pattern)?.[0]]: the leftmost match, [None] when the
    pattern does not match. *)
Fixpoint firstMatch (p : SensitivePattern) (s : string) : option string :=
  match matchAtStart p s with
  | Some n => Some (substring 0 n s)
  | None =>
      match s with
      | EmptyString => None
      | String _ s' => firstMatch p s'
      end
  end.

(** One finding of analyzeCommitMessage. *)
Record Finding : Type := mkFinding {
  finding_pattern : string;
  finding_match : string
}.

(** analyzeCommitMessage(message). *)
Definition analyzeCommitMessage (message : string) : list Finding :=
  flat_map
    (fun pattern =>
       match firstMatch pattern message with
       | Some m => [mkFinding (patternToString pattern) m]
       | None => []
       end)
    sensitivePatterns.

End SmartScanner.

(** ** src/services/github/githubApi.js *)

Module GitHubApi.

Import JsString.

(** What [ApiUtils.call(url)] resolves to: a JSON array, or anything else
    (an object with a [message] or [error] field, a non-array), of which
    only the message is read. *)
Inductive ApiResult (A : Type) : Type :=
| Items (items : list A)
| ErrorResult (message : option string).
Arguments Items {A} items.
Arguments ErrorResult {A} message.

(** Modelled from the spec: the constructor [Repository] of
    config/settings, which is not among the sources; a RepositoryDescriptor
    made of the repository name and its fork flag. *)
Record Repository : Type := mkRepository {
  repo_name : string;
  repo_fork : bool
}.

(** One element of the repository listing, as far as getRepositories
    reads it. *)
Record RawRepository : Type := mkRawRepository {
  raw_name : string;
  raw_fork : bool
}.

(** The state that the loop updates while it walks one page. *)
Record RepoWalk : Type := mkRepoWalk {
  repositoriesSeen : JsSet.t;
  repositories : list Repository;
  continueLoop : bool
}.

(** [for (const repository of result)] of getRepositories, with its
    [break] at the first name already seen. *)
Fixpoint walkRepositories (result : list RawRepository)
    (seen : JsSet.t) (repos : list Repository) : RepoWalk :=
  match result with
  | [] => mkRepoWalk seen repos true
  | repository :: rest =>
      let repoName := raw_name repository in
      if JsSet.has repoName seen then mkRepoWalk seen repos false
      else walkRepositories rest
             (JsSet.add repoName seen)
             (repos ++ [mkRepository repoName (raw_fork repository)])
  end.

(** The outcome of a collection: what was collected, and the page numbers
    that were requested, in order. *)
Record Collected (A : Type) : Type := mkCollected {
  collected : A;
  fetched : list nat
}.
Arguments mkCollected {A} collected fetched.
Arguments collected {A} c.
Arguments fetched {A} c.

(** The [while (true)] loop of getRepositories. [call page] is the result
    of requesting page [page] of the listing. *)
Fixpoint getRepositoriesFrom (fuel : nat) (call : nat -> ApiResult RawRepository)
    (pageCounter : nat) (seen : JsSet.t) (repos : list Repository)
    (pages : list nat) : option (Collected (list Repository)) :=
  match fuel with
  | O => None
  | S fuel' =>
      let pages := pages ++ [pageCounter] in
      match call pageCounter with
      | ErrorResult _ => Some (mkCollected repos pages)
      | Items result =>
          let w := walkRepositories result seen repos in
          if continueLoop w && (List.length result =? 100)%nat then
            getRepositoriesFrom fuel' call (pageCounter + 1)
              (repositoriesSeen w) (repositories w) pages
          else Some (mkCollected (repositories w) pages)
      end
  end.

(** getRepositories(username), over the pages that the listing of
    [username] returns. *)
Definition getRepositories (fuel : nat) (call : nat -> ApiResult RawRepository)
  : option (Collected (list Repository)) :=
  getRepositoriesFrom fuel call 1 JsSet.empty [] [].

(** The git identity of a commit: [commit.commit.author] and
    [commit.commit.committer]. The email is null in [None]. *)
Record GitIdentity : Type := mkGitIdentity {
  git_name : string;
  git_email : option string
}.

(** One element of the commit listing: [sha], the login of the top-level
    [author] ([None] when the commit has no author account), and the git
    author and committer. *)
Record Commit : Type := mkCommit {
  sha : string;
  author_login : option string;
  git_author : GitIdentity;
  git_committer : GitIdentity
}.

(** [if (email) { if (!m.has(email)) m.set(email, new Set());
    m.get(email).add(name) }]. *)
Definition recordIdentity (i : GitIdentity) (m : EmailMap) : EmailMap :=
  match git_email i with
  | Some e =>
      if truthy e then addAt e (git_name i) (ensureKey e m) else m
  | None => m
  end.

Record CommitWalk : Type := mkCommitWalk {
  seenCommits : JsSet.t;
  emailsToName : EmailMap;
  continueCommits : bool
}.

(** The body of [for (const commit of result)] of getEmails after the
    duplicate check, when the sha is already recorded as seen. *)
Definition harvestCommit (username : string) (commit : Commit)
    (emails : EmailMap) : EmailMap :=
  match author_login commit with
  | None => emails
  | Some user =>
      if String.eqb (toLowerCase user) (toLowerCase username) then
        recordIdentity (git_committer commit)
          (recordIdentity (git_author commit) emails)
      else emails
  end.

(** [for (const commit of result)] of getEmails. *)
Fixpoint walkCommits (username : string) (result : list Commit)
    (seen : JsSet.t) (emails : EmailMap) : CommitWalk :=
  match result with
  | [] => mkCommitWalk seen emails true
  | commit :: rest =>
      if JsSet.has (sha commit) seen then mkCommitWalk seen emails false
      else walkCommits username rest
             (JsSet.add (sha commit) seen)
             (harvestCommit username commit emails)
  end.

(** The [while (true)] loop of getEmails. *)
Fixpoint getEmailsFrom (fuel : nat) (username : string)
    (call : nat -> ApiResult Commit) (pageCounter : nat)
    (seen : JsSet.t) (emails : EmailMap) (pages : list nat)
  : option (Collected EmailMap) :=
  match fuel with
  | O => None
  | S fuel' =>
      let pages := pages ++ [pageCounter] in
      match call pageCounter with
      | ErrorResult _ => Some (mkCollected emails pages)
      | Items result =>
          let w := walkCommits username result seen emails in
          if continueCommits w && (List.length result =? 100)%nat then
            getEmailsFrom fuel' username call (pageCounter + 1)
              (seenCommits w) (emailsToName w) pages
          else Some (mkCollected (emailsToName w) pages)
      end
  end.

(** getEmails(username, repoName), over the pages that the commit listing
    of the repository returns. *)
Definition getEmails (fuel : nat) (username : string)
    (call : nat -> ApiResult Commit) : option (Collected EmailMap) :=
  getEmailsFrom fuel username call 1 JsSet.empty JsMap.empty [].

(** *** Batches of requests *)

(** [a.slice(i, j)] for indices within [0 <= i <= j]. *)
Definition slice {A} (i j : nat) (l : list A) : list A :=
  firstn (j - i) (skipn i l).

(** The [for] loop of parallelRequests. [call] is [ApiUtils.call]; the
    results of a batch come in the order of the batch, as [Promise.all]
    gives them. [onProgress] tells whether a callback was passed, and the
    last component is the list of its calls (completed, total). *)
Fixpoint parallelRequestsFrom {U R} (fuel : nat) (call : U -> R)
    (urls : list U) (concurrency : nat) (onProgress : bool)
    (i : nat) (results : list R) (completed : nat)
    (progress : list (nat * nat)) : option (list R * list (nat * nat)) :=
  match fuel with
  | O => None
  | S fuel' =>
      if (i <? List.length urls)%nat then
        let batch := slice i (i + concurrency) urls in
        let batchResults := map call batch in
        let results := results ++ batchResults in
        let completed := (completed + List.length batch)%nat in
        let progress :=
          if onProgress then progress ++ [(completed, List.length urls)]
          else progress in
        parallelRequestsFrom fuel' call urls concurrency onProgress
          (i + concurrency) results completed progress
      else Some (results, progress)
  end.

(** parallelRequests(urls, { concurrency, onProgress }). *)
Definition parallelRequests {U R} (fuel : nat) (call : U -> R)
    (urls : list U) (concurrency : nat) (onProgress : bool)
  : option (list R * list (nat * nat)) :=
  parallelRequestsFrom fuel call urls concurrency onProgress 0 [] 0 [].

(** *** Listings without duplicate check *)

(** The [while (true)] loop that getUserGists, getRepoContributors and
    getRepositoriesDetailed share: a result that is not an array or is
    empty ends the walk, the items of a page are appended after
    [transform], and a page of fewer than 100 items ends the walk. *)
Fixpoint pagesUntilShort {A B} (fuel : nat) (transform : A -> B)
    (call : nat -> ApiResult A) (page : nat) (acc : list B)
    (pages : list nat) : option (Collected (list B)) :=
  match fuel with
  | O => None
  | S fuel' =>
      let pages := pages ++ [page] in
      match call page with
      | ErrorResult _ => Some (mkCollected acc pages)
      | Items result =>
          if (List.length result =? 0)%nat then Some (mkCollected acc pages)
          else
            let acc := acc ++ map transform result in
            if (List.length result <? 100)%nat
            then Some (mkCollected acc pages)
            else pagesUntilShort fuel' transform call (page + 1) acc pages
      end
  end.

(** getUserGists(username). *)
Definition getUserGists {G} (fuel : nat) (call : nat -> ApiResult G)
  : option (Collected (list G)) :=
  pagesUntilShort fuel (fun g => g) call 1 [] [].

(** One element of the contributor listing. *)
Record Contributor : Type := mkContributor {
  c_type : string;
  c_email : option string;
  c_name : option string
}.

(** getRepoContributors(owner, repo, options). *)
Definition getRepoContributors (fuel : nat)
    (call : nat -> ApiResult Contributor)
  : option (Collected (list Contributor)) :=
  pagesUntilShort fuel (fun c => c) call 1 [] [].

(** getRepositoriesDetailed(username): the listing with the fields that the
    scanner reads. *)
Definition getRepositoriesDetailed (fuel : nat)
    (call : nat -> ApiResult SmartScanner.Repo)
  : option (Collected (list SmartScanner.Repo)) :=
  pagesUntilShort fuel (fun r => r) call 1 [] [].

(** The [for (page = 1; page <= maxPages; page++)] loop of getUserEvents
    and getUserStarred; [remaining] counts the pages still allowed. *)
Fixpoint pagesUpTo {A} (remaining : nat) (call : nat -> ApiResult A)
    (page : nat) (acc : list A) (pages : list nat) : Collected (list A) :=
  match remaining with
  | O => mkCollected acc pages
  | S remaining' =>
      let pages := pages ++ [page] in
      match call page with
      | ErrorResult _ => mkCollected acc pages
      | Items result =>
          if (List.length result =? 0)%nat then mkCollected acc pages
          else
            let acc := acc ++ result in
            if (List.length result <? 100)%nat then mkCollected acc pages
            else pagesUpTo remaining' call (page + 1) acc pages
      end
  end.

(** getUserEvents(username, { maxPages }). *)
Definition getUserEvents {E} (maxPages : nat) (call : nat -> ApiResult E)
  : Collected (list E) :=
  pagesUpTo maxPages call 1 [] [].

(** getUserStarred(username, { maxPages }). *)
Definition getUserStarred {T} (maxPages : nat) (call : nat -> ApiResult T)
  : Collected (list T) :=
  pagesUpTo maxPages call 1 [] [].

(** *** Emails of contributors and of events *)

(** [x || fallback] on a value that is a string or null. *)
Definition orElse (x : option string) (fallback : string) : string :=
  match x with
  | Some s => if truthy s then s else fallback
  | None => fallback
  end.

(** The [for (const contributor of contributors)] loop of
    getContributorEmails. *)
Definition contributorEmails (contributors : list Contributor) : EmailMap :=
  fold_left
    (fun emails contributor =>
       match c_email contributor with
       | Some e =>
           if String.eqb (c_type contributor) "Anonymous" && truthy e
           then addAt e (orElse (c_name contributor) "Anonymous")
                  (ensureKey e emails)
           else emails
       | None => emails
       end)
    contributors JsMap.empty.

(** getContributorEmails(owner, repo). *)
Definition getContributorEmails (fuel : nat)
    (call : nat -> ApiResult Contributor) : option EmailMap :=
  match getRepoContributors fuel call with
  | Some r => Some (contributorEmails (collected r))
  | None => None
  end.

(** A public event: its type and, in a push event, the commits of its
    payload with their authors. *)
Record EventAuthor : Type := mkEventAuthor {
  ea_email : option string;
  ea_name : option string
}.

Record EventCommit : Type := mkEventCommit {
  ec_author : option EventAuthor
}.

Record EventPayload : Type := mkEventPayload {
  ep_commits : option (list EventCommit)
}.

Record Event : Type := mkEvent {
  ev_type : string;
  ev_payload : option EventPayload
}.

(** The body of [for (const commit of event.payload.commits)]. *)
Definition recordEventCommit (emails : EmailMap) (commit : EventCommit)
  : EmailMap :=
  match ec_author commit with
  | Some a =>
      match ea_email a with
      | Some e =>
          if truthy e
          then addAt e (orElse (ea_name a) "Unknown") (ensureKey e emails)
          else emails
      | None => emails
      end
  | None => emails
  end.

(** The body of [for (const event of events)]. *)
Definition recordEvent (emails : EmailMap) (event : Event) : EmailMap :=
  if String.eqb (ev_type event) "PushEvent" then
    match ev_payload event with
    | Some payload =>
        match ep_commits payload with
        | Some commits => fold_left recordEventCommit commits emails
        | None => emails
        end
    | None => emails
    end
  else emails.

(** extractEmailsFromEvents(events). *)
Definition extractEmailsFromEvents (events : list Event) : EmailMap :=
  fold_left recordEvent events JsMap.empty.

(** One element of the commit listing of a gist: its user, and whether it
    has a [change_status]. *)
Record GistUser : Type := mkGistUser {
  gu_email : option string;
  gu_login : option string;
  gu_name : option string
}.

Record GistCommit : Type := mkGistCommit {
  gc_user : option GistUser;
  gc_change_status : bool
}.

(** The body of [for (const commit of result)] of getGistEmails. *)
Definition recordGistCommit (emails : EmailMap) (commit : GistCommit)
  : EmailMap :=
  match gc_user commit with
  | Some user =>
      if gc_change_status commit then
        match gu_email user with
        | Some e =>
            if truthy e
            then addAt e
                   (orElse (gu_login user) (orElse (gu_name user) "Unknown"))
                   (ensureKey e emails)
            else emails
        | None => emails
        end
      else emails
  | None => emails
  end.

(** getGistEmails(gistId), on the result of the request. *)
Definition getGistEmails (result : ApiResult GistCommit) : EmailMap :=
  match result with
  | Items commits => fold_left recordGistCommit commits JsMap.empty
  | ErrorResult _ => JsMap.empty
  end.

End GitHubApi.

(** ** The orchestrator: runGithubRecon and its helpers *)

Module GitHubUser.

(** mergeEmailMaps(target, source). *)
Definition mergeEmailMaps (target source : EmailMap) : EmailMap :=
  fold_left
    (fun target entry =>
       let '(email, names) := entry in
       addAllAt email names (ensureKey email target))
    source target.

(** One element of [result.email_details]. *)
Record EmailDetail : Type := mkEmailDetail {
  email : string;
  names : list string;
  classification : SmartScanner.Classification;
  domain : option string;
  is_disposable : bool;
  sources : list string;
  repositories : list string
}.

(** The two fields of [result] that updateResultEmails assigns. *)
Record Result : Type := mkResult {
  leaked_emails : list string;
  email_details : list EmailDetail
}.

Definition emptyResult : Result := mkResult [] [].

(** The three maps of runGithubRecon. *)
Record Aggregate : Type := mkAggregate {
  emailsToName : EmailMap;
  emailsToRepo : EmailMap;
  emailSources : EmailMap
}.

Definition emptyAggregate : Aggregate :=
  mkAggregate JsMap.empty JsMap.empty JsMap.empty.

(** [Array.from(m.get(email) || [])]. *)
Definition getOrEmpty (k : string) (m : EmailMap) : list string :=
  match JsMap.get k m with
  | Some s => s
  | None => []
  end.

(** updateResultEmails(result, emailsToName, emailsToRepo, emailSources,
    smartScanner, filterNoreply): the new value of [result]. *)
Definition updateResultEmails (result : Result) (a : Aggregate)
    (filterNoreply : bool) : Result :=
  let kept :=
    filter
      (fun entry =>
         negb (filterNoreply
               && SmartScanner.isNoreply (SmartScanner.classifyEmail (fst entry))))
      (emailsToName a) in
  mkResult
    (map fst kept)
    (map
       (fun entry =>
          let '(e, namesSet) := entry in
          let c := SmartScanner.classifyEmail e in
          mkEmailDetail e namesSet
            (SmartScanner.classification c)
            (SmartScanner.domain c)
            (SmartScanner.isDisposable c)
            (getOrEmpty e (emailSources a))
            (getOrEmpty e (emailsToRepo a)))
       kept).

(** The body of [for (const [email, names] of newEmails.entries())] in
    the repository loop; [filterNoreply] is [skipNoreply || smart], and
    the counter is [newEmailsCount]. *)
Definition foldCommitEmail (filterNoreply : bool) (repo : string)
    (st : Aggregate * nat) (entry : string * JsSet.t) : Aggregate * nat :=
  let '(a, newEmailsCount) := st in
  let '(e, ns) := entry in
  if filterNoreply
     && SmartScanner.isNoreply (SmartScanner.classifyEmail e)
  then (a, newEmailsCount)
  else
    let toRepo := addAt e repo (ensureKey e (emailsToRepo a)) in
    let srcs := addAt e "commit" (ensureKey e (emailSources a)) in
    let isNew := negb (JsMap.has e (emailsToName a)) in
    let toName := addAllAt e ns (ensureKey e (emailsToName a)) in
    (mkAggregate toName toRepo srcs,
     if isNew then S newEmailsCount else newEmailsCount).

(** The accumulator of the scan: the maps and the report. *)
Record ScanState : Type := mkScanState {
  aggregate : Aggregate;
  result : Result
}.

Definition initialState : ScanState := mkScanState emptyAggregate emptyResult.

(** One turn of the repository loop, given what getEmails returned for
    [repo]. *)
Definition scanRepository (filterNoreply : bool) (st : ScanState)
    (found : string * EmailMap) : ScanState :=
  let '(repo, newEmails) := found in
  let '(a, newEmailsCount) :=
    fold_left (foldCommitEmail filterNoreply repo) newEmails
              (aggregate st, 0%nat) in
  if (0 <? newEmailsCount)%nat
  then mkScanState a (updateResultEmails (result st) a filterNoreply)
  else mkScanState a (result st).

(** The repository loop followed by the final updateResultEmails. *)
Definition scanRepositories (filterNoreply : bool)
    (found : list (string * EmailMap)) : ScanState :=
  let st := fold_left (scanRepository filterNoreply) found initialState in
  mkScanState (aggregate st)
              (updateResultEmails (result st) (aggregate st) filterNoreply).

(** The selection of the repositories to scan when smart mode is off:
    [repositories.filter(repo => !repo.fork || saveFork)
       .slice(0, maxRepos || repositories.length)]. *)
Definition selectRepositories (saveFork : bool) (maxRepos : option Z)
    (repositories : list GitHubApi.Repository) : list GitHubApi.Repository :=
  SmartScanner.slice0
    (match maxRepos with
     | Some k =>
         if (k =? 0)%Z then Z.of_nat (List.length repositories) else k
     | None => Z.of_nat (List.length repositories)
     end)
    (filter (fun repo => negb (GitHubApi.repo_fork repo) || saveFork)
            repositories).

(** [events.forEach(e => eventTypes[e.type] = (eventTypes[e.type] || 0) + 1)]:
    the summary of the event types, an object whose keys are kept in
    insertion order (the types are not names of Object.prototype). *)
Definition summarizeEvents (events : list GitHubApi.Event) : JsMap.t nat :=
  fold_left
    (fun eventTypes e =>
       JsMap.set (GitHubApi.ev_type e)
         (match JsMap.get (GitHubApi.ev_type e) eventTypes with
          | Some n => n
          | None => 0%nat
          end + 1)%nat
         eventTypes)
    events JsMap.empty.

End GitHubUser.

(** ** Vocabulary of the statements *)

Module Spec.

(** [n] is the ceiling of the quotient [x / c], for a positive [c]. *)
Definition isCeilingOfQuotient (n x c : Z) : Prop :=
  (c * (n - 1) < x <= c * n)%Z.

(** [n] is the floor of the quotient [x / c], for a divisor of either
    sign. *)
Definition isFloorOfQuotient (n x c : Z) : Prop :=
  ((0 < c -> c * n <= x < c * (n + 1))
   /\ (c < 0 -> c * (n + 1) < x <= c * n))%Z.

(** Thirty days in milliseconds, the month of the scorer. *)
Definition msPerMonth : Z := 2592000000.

(** The recency term by the age of the last push in milliseconds: the
    full weight of 30 under one month, 0.7 of it under six, 0.3 of it
    under twelve, nothing beyond. *)
Definition recencyTier (age : Z) : Q :=
  if (age <? msPerMonth)%Z then 30
  else if (age <? 6 * msPerMonth)%Z then 21
  else if (age <? 12 * msPerMonth)%Z then 9
  else 0.

(** Two repositories that differ at most in the time of their last push. *)
Definition sameButPush (r1 r2 : SmartScanner.Repo) : Prop :=
  SmartScanner.fork r1 = SmartScanner.fork r2
  /\ SmartScanner.archived r1 = SmartScanner.archived r2
  /\ SmartScanner.stargazers_count r1 = SmartScanner.stargazers_count r2
  /\ SmartScanner.description r1 = SmartScanner.description r2
  /\ SmartScanner.has_issues r1 = SmartScanner.has_issues r2.

(** The hard exclusion predicates of filterRepos: forks and archived
    repositories unless included, at least [minStars] stars, and, when a
    non-zero [maxAge] is given and the repository has a push date, a last
    push at most [maxAge] months old. *)
Definition passesHard (now : Z) (o : SmartScanner.FilterOptions)
    (r : SmartScanner.Repo) : Prop :=
  (SmartScanner.includeForks o = false -> SmartScanner.fork r = false)
  /\ (SmartScanner.includeArchived o = false -> SmartScanner.archived r = false)
  /\ (SmartScanner.minStars o <= SmartScanner.stargazers_count r)%Z
  /\ (forall m t : Z,
        SmartScanner.maxAge o = Some m -> m <> 0%Z ->
        SmartScanner.pushed_at r = Some t ->
        (now - t <= m * msPerMonth)%Z).

(** Descending order of priority. *)
Definition byPriority (a b : SmartScanner.ScoredRepo) : Prop :=
  SmartScanner.priority b <= SmartScanner.priority a.

(** The keys of a page of the repository listing, and the descriptors
    made of its items. *)
Definition repoKeys (page : list GitHubApi.RawRepository) : list string :=
  map GitHubApi.raw_name page.

Definition toRepositories (page : list GitHubApi.RawRepository)
  : list GitHubApi.Repository :=
  map (fun r => GitHubApi.mkRepository (GitHubApi.raw_name r)
                                       (GitHubApi.raw_fork r)) page.

(** No key of [ks] was seen before in the run: none is in [seen], and
    none occurs twice. *)
Definition freshKeys (seen ks : list string) : Prop :=
  NoDup ks /\ forall k, In k ks -> ~ In k seen.

(** A decidable test for lists of strings without repetition. *)
Fixpoint nodupb (l : list string) : bool :=
  match l with
  | [] => true
  | x :: l' => negb (JsSet.has x l') && nodupb l'
  end.

(** A listing page of [n] repositories named by [from], [from + 1], ...
    letters x. *)
Definition xName (n : nat) : string :=
  string_of_list_ascii (repeat "x"%char n).

Definition xPage (from n : nat) : list GitHubApi.RawRepository :=
  map (fun i => GitHubApi.mkRawRepository (xName i) false) (seq from n).

(** The map holds the email with at least the strings of [xs]. *)
Definition holds (e : string) (xs : list string) (m : EmailMap) : Prop :=
  exists s, JsMap.get e m = Some s /\ incl xs s.

(** The addresses that the noreply exclusion lets through. *)
Definition notNoreply (e : string) : bool :=
  negb (SmartScanner.isNoreply (SmartScanner.classifyEmail e)).

(** The three maps restricted to the emails that satisfy [p]. *)
Definition restrict (p : string -> bool) (a : GitHubUser.Aggregate)
  : GitHubUser.Aggregate :=
  GitHubUser.mkAggregate
    (JsMap.filterKeys p (GitHubUser.emailsToName a))
    (JsMap.filterKeys p (GitHubUser.emailsToRepo a))
    (JsMap.filterKeys p (GitHubUser.emailSources a)).

(** The maps after the fold of one observation, without the counter. *)
Definition stepMaps (f : bool) (repo : string) (a : GitHubUser.Aggregate)
    (entry : string * JsSet.t) : GitHubUser.Aggregate :=
  fst (GitHubUser.foldCommitEmail f repo (a, 0%nat) entry).

(** The maps built from the observations of a scan alone, with no
    projection in between. *)
Definition buildMaps (f : bool) (found : list (string * EmailMap))
  : GitHubUser.Aggregate :=
  fold_left
    (fun a repoEmails => fold_left (stepMaps f (fst repoEmails))
                           (snd repoEmails) a)
    found GitHubUser.emptyAggregate.

(** The commit is attributed to the scanned account: its top-level
    author login is the username up to case. *)
Definition attributedTo (username : string) (c : GitHubApi.Commit) : bool :=
  match GitHubApi.author_login c with
  | Some login =>
      String.eqb (JsString.toLowerCase login) (JsString.toLowerCase username)
  | None => false
  end.

(** The pair is the git author or the git committer of the commit. *)
Definition identityOf (c : GitHubApi.Commit) (e n : string) : Prop :=
  (GitHubApi.git_email (GitHubApi.git_author c) = Some e
   /\ GitHubApi.git_name (GitHubApi.git_author c) = n)
  \/ (GitHubApi.git_email (GitHubApi.git_committer c) = Some e
      /\ GitHubApi.git_name (GitHubApi.git_committer c) = n).

(** The map records the name under the email. *)
Definition recorded (e n : string) (m : EmailMap) : Prop := holds e [n] m.

(** A progress report of a batch run over [n] requests: the total is [n]
    and the count of completed requests does not exceed it. *)
Definition progressOk (n : nat) (p : nat * nat) : Prop :=
  snd p = n /\ (fst p <= n)%nat.

(** The items of a page, none when the result is not an array. *)
Definition itemsOf {A} (r : GitHubApi.ApiResult A) : list A :=
  match r with
  | GitHubApi.Items l => l
  | GitHubApi.ErrorResult _ => []
  end.

(** The page is an array of at least 100 items. *)
Definition isFull {A} (r : GitHubApi.ApiResult A) : bool :=
  match r with
  | GitHubApi.Items l => (100 <=? List.length l)%nat
  | GitHubApi.ErrorResult _ => false
  end.

(** The contributor is anonymous and carries the email, and [n] is its
    name, or Anonymous when it has none. *)
Definition anonymousObservation (c : GitHubApi.Contributor) (e n : string)
  : Prop :=
  GitHubApi.c_type c = "Anonymous"
  /\ GitHubApi.c_email c = Some e
  /\ e <> ""
  /\ n = GitHubApi.orElse (GitHubApi.c_name c) "Anonymous".

(** The event is a push event, one of the commits of its payload has an
    author with the email, and [n] is the name of this author, or Unknown
    when it has none. *)
Definition pushObservation (ev : GitHubApi.Event) (e n : string) : Prop :=
  GitHubApi.ev_type ev = "PushEvent"
  /\ exists payload commits commit a,
       GitHubApi.ev_payload ev = Some payload
       /\ GitHubApi.ep_commits payload = Some commits
       /\ In commit commits
       /\ GitHubApi.ec_author commit = Some a
       /\ GitHubApi.ea_email a = Some e
       /\ e <> ""
       /\ n = GitHubApi.orElse (GitHubApi.ea_name a) "Unknown".

(** Every key of the map is a non-empty string and has at least one
    name. *)
Definition wellKeyed (m : EmailMap) : Prop :=
  forall e ns, JsMap.get e m = Some ns -> e <> "" /\ ns <> [].

(** The scored repository has priority [q]. *)
Definition hasPriority (q : Q) (s : SmartScanner.ScoredRepo) : bool :=
  Qeq_bool (SmartScanner.priority s) q.

(** [Math.log10] is not negative from 1 on. *)
Definition log10NonNegative (log10 : Z -> Q) : Prop :=
  forall n : Z, (1 <= n)%Z -> 0 <= log10 n.

(** The test of deduplicateEmails on an entry, and the entry that it
    stores for it. *)
Definition keptByDeduplicate (entry : string * JsSet.t) : bool :=
  let c := SmartScanner.classifyEmail (fst entry) in
  SmartScanner.isValid c && negb (SmartScanner.isNoreply c).

Definition enriched (entry : string * JsSet.t) : string * SmartScanner.Enriched :=
  let c := SmartScanner.classifyEmail (fst entry) in
  (fst entry,
   SmartScanner.mkEnriched (fst entry) (snd entry)
     (SmartScanner.classification c) (SmartScanner.domain c)
     (SmartScanner.isDisposable c)).

(** The test of the selection without smart mode. *)
Definition keptWithoutSmart (saveFork : bool) (repo : GitHubApi.Repository)
  : bool :=
  negb (GitHubApi.repo_fork repo) || saveFork.

(** The number of events of a type. *)
Definition countType (t : string) (events : list GitHubApi.Event) : nat :=
  List.length (filter (fun e => String.eqb (GitHubApi.ev_type e) t) events).

(** What holds of the three maps during the scan of the commits of the
    repositories [repoNames]: every set of sources is the single tag
    commit, every set of repositories is inhabited and made of scanned
    repositories, and every email with names has sources and
    repositories. *)
Definition commitScanned (repoNames : list string) (a : GitHubUser.Aggregate)
  : Prop :=
  (forall e s, JsMap.get e (GitHubUser.emailSources a) = Some s ->
               s = ["commit"])
  /\ (forall e rs, JsMap.get e (GitHubUser.emailsToRepo a) = Some rs ->
                   rs <> [] /\ incl rs repoNames)
  /\ (forall e ns, JsMap.get e (GitHubUser.emailsToName a) = Some ns ->
                   JsMap.has e (GitHubUser.emailSources a) = true
                   /\ JsMap.has e (GitHubUser.emailsToRepo a) = true).

(** The commit is attributed to the scanned account and the pair is its
    git author or git committer, with an email that is not empty. *)
Definition harvested (username : string) (c : GitHubApi.Commit) (e n : string)
  : Prop :=
  attributedTo username c = true /\ identityOf c e n /\ e <> "".

(** The repository with another star count, fork flag or push date. *)
Definition withStars (r : SmartScanner.Repo) (stars : Z) : SmartScanner.Repo :=
  SmartScanner.mkRepo (SmartScanner.name r) (SmartScanner.fork r)
    (SmartScanner.archived r) (SmartScanner.pushed_at r) stars
    (SmartScanner.description r) (SmartScanner.has_issues r).

Definition withFork (r : SmartScanner.Repo) (fork : bool) : SmartScanner.Repo :=
  SmartScanner.mkRepo (SmartScanner.name r) fork
    (SmartScanner.archived r) (SmartScanner.pushed_at r)
    (SmartScanner.stargazers_count r)
    (SmartScanner.description r) (SmartScanner.has_issues r).

Definition withArchived (r : SmartScanner.Repo) (archived : bool)
  : SmartScanner.Repo :=
  SmartScanner.mkRepo (SmartScanner.name r) (SmartScanner.fork r)
    archived (SmartScanner.pushed_at r)
    (SmartScanner.stargazers_count r)
    (SmartScanner.description r) (SmartScanner.has_issues r).

(** [Math.log10] does not decrease. *)
Definition log10Monotone (log10 : Z -> Q) : Prop :=
  forall n m : Z, (1 <= n <= m)%Z -> log10 n <= log10 m.

(** The words that a pattern of analyzeCommitMessage stands for. *)
Definition keywordForms (p : SmartScanner.SensitivePattern) : list string :=
  match p with
  | SmartScanner.Literal_i lit => [lit]
  | SmartScanner.Joined_i l r =>
      [(l ++ String "_" r)%string; (l ++ String "-" r)%string; (l ++ r)%string]
  end.

(** The message contains one of the words of the pattern, in any letter
    case. *)
Definition mentions (message : string) (p : SmartScanner.SensitivePattern)
  : bool :=
  existsb
    (fun word =>
       JsString.includes (JsString.toLowerCase word)
         (JsString.toLowerCase message))
    (keywordForms p).

(** The gist commit has a user and a change status, the user carries the
    email, and [n] is the login of the user, or its name, or Unknown. *)
Definition gistObservation (c : GitHubApi.GistCommit) (e n : string) : Prop :=
  exists user,
    GitHubApi.gc_user c = Some user
    /\ GitHubApi.gc_change_status c = true
    /\ GitHubApi.gu_email user = Some e
    /\ e <> ""
    /\ n = GitHubApi.orElse (GitHubApi.gu_login user)
             (GitHubApi.orElse (GitHubApi.gu_name user) "Unknown").

(** The score as the specification describes it: a recency contribution
    followed by the flat bonuses and the capped star term, added in the
    order in which the code adds them. *)
Definition scoreWithRecency (log10 : Z -> Q) (recency : Q)
  (r : SmartScanner.Repo) : Q :=
  recency
  + (if JsString.truthyOpt (SmartScanner.description r)
     then SmartScanner.priorityWeights.hasDescription else 0)
  + (if SmartScanner.fork r then 0 else SmartScanner.priorityWeights.notFork)
  + (if (0 <? SmartScanner.stargazers_count r)%Z
     then Qmin (log10 (SmartScanner.stargazers_count r + 1)%Z * 5)
               SmartScanner.priorityWeights.starCount
     else 0)
  + (if SmartScanner.archived r
     then 0 else SmartScanner.priorityWeights.notArchived)
  + (if SmartScanner.has_issues r
     then SmartScanner.priorityWeights.hasIssues else 0).

(** One more page of the repository listing walked from the state [w],
    and the walk of the pages [pages] in order from the names seen and the
    repositories collected so far. An error result holds no item. *)
Definition repositoryPage (call : nat -> GitHubApi.ApiResult GitHubApi.RawRepository)
  (w : GitHubApi.RepoWalk) (p : nat) : GitHubApi.RepoWalk :=
  GitHubApi.walkRepositories (itemsOf (call p))
    (GitHubApi.repositoriesSeen w) (GitHubApi.repositories w).

Definition walkRepositoryPages
  (call : nat -> GitHubApi.ApiResult GitHubApi.RawRepository)
  (pages : list nat) (seen : JsSet.t) (repos : list GitHubApi.Repository)
  : GitHubApi.RepoWalk :=
  fold_left (repositoryPage call) pages (GitHubApi.mkRepoWalk seen repos true).

(** The same for the commit listing of a repository. *)
Definition commitPage (username : string)
  (call : nat -> GitHubApi.ApiResult GitHubApi.Commit)
  (w : GitHubApi.CommitWalk) (p : nat) : GitHubApi.CommitWalk :=
  GitHubApi.walkCommits username (itemsOf (call p))
    (GitHubApi.seenCommits w) (GitHubApi.emailsToName w).

Definition walkCommitPages (username : string)
  (call : nat -> GitHubApi.ApiResult GitHubApi.Commit)
  (pages : list nat) (seen : JsSet.t) (emails : EmailMap)
  : GitHubApi.CommitWalk :=
  fold_left (commitPage username call) pages
    (GitHubApi.mkCommitWalk seen emails true).

(** The result is not an array of exactly 100 items. *)
Definition endsWalk {A} (r : GitHubApi.ApiResult A) : bool :=
  match r with
  | GitHubApi.Items l => negb (List.length l =? 100)%nat
  | GitHubApi.ErrorResult _ => true
  end.

End Spec.

(** * Properties *)

(** ** Strings *)

Section SplitFacts.

Import JsString.

Variable sep : ascii.

Lemma split_not_nil (s : string) : split sep s <> [].
Proof.
  destruct s as [|c s]; simpl; [discriminate|].
  destruct (Ascii.eqb c sep); [discriminate|].
  destruct (split sep s); discriminate.
Qed.

(** A string with n separators splits into n+1 pieces. *)
Lemma split_length (s : string) :
  List.length (split sep s) = S (count sep s).
Proof.
  induction s as [|c s IH]; simpl; [reflexivity|].
  destruct (Ascii.eqb c sep); simpl.
  - now rewrite IH.
  - destruct (split sep s) as [|p ps] eqn:E; simpl in *; [discriminate|].
    exact IH.
Qed.

Lemma split_no_sep (s : string) :
  count sep s = 0%nat -> split sep s = [s].
Proof.
  induction s as [|c s IH]; simpl; [reflexivity|].
  destruct (Ascii.eqb c sep); simpl; [discriminate|].
  intros H. now rewrite (IH H).
Qed.

(** With exactly one separator the two pieces are what stands before and
    after it. *)
Lemma split_one_sep (s : string) :
  count sep s = 1%nat ->
  exists a b, split sep s = [a; b] /\ s = (a ++ String sep b)%string
              /\ count sep a = 0%nat /\ count sep b = 0%nat.
Proof.
  induction s as [|c s IH]; simpl; [discriminate|].
  destruct (Ascii.eqb_spec c sep) as [->|Hne]; simpl; intros H.
  - exists EmptyString, s. injection H as H.
    rewrite (split_no_sep s H). repeat split; auto.
  - destruct (IH H) as (a & b & E & -> & Ha & Hb). rewrite E.
    exists (String c a), b. simpl.
    destruct (Ascii.eqb_spec c sep); [contradiction|].
    repeat split; auto.
Qed.

End SplitFacts.

(** ** classifyEmail *)

Section Classification.

Import JsString SmartScanner.

(** The address is valid exactly when it has one at-sign. *)
Lemma classifyEmail_isValid (e : string) :
  isValid (classifyEmail e) = (count "@" e =? 1)%nat.
Proof.
  unfold classifyEmail.
  pose proof (split_length "@" e) as L.
  destruct (split "@"%char e) as [|a [|b [|c r]]]; simpl in L.
  - discriminate.
  - injection L as L. now rewrite <- L.
  - injection L as L. rewrite <- L.
    repeat match goal with |- context [if ?b then _ else _] => destruct b end;
      reflexivity.
  - injection L as L. now rewrite <- L.
Qed.

(** An address that is not valid is not a noreply address either: the
    patterns are not tried on it. *)
Lemma classifyEmail_invalid_not_noreply (e : string) :
  isValid (classifyEmail e) = false -> isNoreply (classifyEmail e) = false.
Proof.
  unfold classifyEmail.
  destruct (split "@"%char e) as [|a [|b [|c r]]]; simpl; auto.
  repeat match goal with |- context [if ?b then _ else _] => destruct b end;
    simpl; auto; discriminate.
Qed.

End Classification.

(** C7. classifyEmail applies its rules in a fixed order, the first match
    winning. An address is valid exactly when it has one at-sign, so every
    string with none or with two or more is invalid. An address with one
    at-sign has the lower-cased text after it as domain and is classified
    noreply when a noreply pattern matches it, else disposable when the
    domain is in the disposable list, else personal when the domain is in
    the list of personal webmail domains, else work. The four addresses of
    the specification classify as noreply, disposable, personal and work. *)
Theorem C7_classifyEmail_precedence :
  (forall e : string,
     (JsString.count "@" e <> 1%nat ->
      SmartScanner.isValid (SmartScanner.classifyEmail e) = false)
     /\
     (JsString.count "@" e = 1%nat ->
      exists l d : string,
        e = (l ++ String "@" d)%string
        /\ SmartScanner.isValid (SmartScanner.classifyEmail e) = true
        /\ SmartScanner.domain (SmartScanner.classifyEmail e)
           = Some (JsString.toLowerCase d)
        /\ SmartScanner.classification (SmartScanner.classifyEmail e)
           = if existsb (fun p => JsString.test p e) SmartScanner.noreplyPatterns
             then SmartScanner.noreply
             else if SmartScanner.arrayIncludes SmartScanner.disposableDomains
                       (JsString.toLowerCase d)
             then SmartScanner.disposable
             else if SmartScanner.arrayIncludes SmartScanner.commonPersonalDomains
                       (JsString.toLowerCase d)
             then SmartScanner.personal
             else SmartScanner.work))
  /\ SmartScanner.classification (SmartScanner.classifyEmail "noreply@domain.com")
     = SmartScanner.noreply
  /\ SmartScanner.classification (SmartScanner.classifyEmail "user@mailinator.com")
     = SmartScanner.disposable
  /\ SmartScanner.classification (SmartScanner.classifyEmail "user@gmail.com")
     = SmartScanner.personal
  /\ SmartScanner.classification (SmartScanner.classifyEmail "user@acme-corp.io")
     = SmartScanner.work.
Proof.
  split; [|repeat split; reflexivity].
  intros e. split.
  - intros H. rewrite classifyEmail_isValid.
    now apply Nat.eqb_neq.
  - intros H.
    destruct (split_one_sep "@" e H) as (l & d & E & -> & _ & _).
    exists l, d. split; [reflexivity|].
    unfold SmartScanner.classifyEmail. rewrite E.
    destruct (existsb _ SmartScanner.noreplyPatterns); [auto|].
    destruct (SmartScanner.arrayIncludes SmartScanner.disposableDomains _); [auto|].
    destruct (SmartScanner.arrayIncludes SmartScanner.commonPersonalDomains _);
      simpl; auto.
Qed.

(** The theorem at an address with two at-signs and at a webmail address. *)
Lemma C7_classifyEmail_precedence_witness :
  SmartScanner.isValid (SmartScanner.classifyEmail "a@b@c.org") = false
  /\ exists l d : string,
       "user@gmail.com" = (l ++ String "@" d)%string
       /\ SmartScanner.classification (SmartScanner.classifyEmail "user@gmail.com")
          = SmartScanner.personal.
Proof.
  destruct C7_classifyEmail_precedence as [H _].
  split.
  - apply (proj1 (H "a@b@c.org")). simpl. lia.
  - destruct (proj2 (H "user@gmail.com") eq_refl) as (l & d & E & _ & _ & C).
    exists l, d. split; [exact E|]. reflexivity.
Defined.

(** ** The budget planner *)

Section Budget.

Import SmartScanner.

Lemma floorDiv_pos (a : Z) (p : positive) :
  floorDiv a (Zpos p) = (a / Zpos p)%Z.
Proof.
  unfold floorDiv, Qfloor, Qdiv, Qmult, Qinv, inject_Z. simpl.
  now rewrite Z.mul_1_r.
Qed.

Lemma floorDiv_neg (a : Z) (p : positive) :
  floorDiv a (Zneg p) = (- a / Zpos p)%Z.
Proof.
  unfold floorDiv, Qfloor, Qdiv, Qmult, Qinv, inject_Z. simpl.
  f_equal. lia.
Qed.

Lemma ceilDiv_pos (a : Z) (p : positive) :
  ceilDiv a (Zpos p) = (- (- a / Zpos p))%Z.
Proof.
  unfold ceilDiv, Qceiling, Qfloor, Qdiv, Qmult, Qinv, Qopp, inject_Z. simpl.
  do 2 f_equal. lia.
Qed.

Lemma ceilDiv_spec (a : Z) (p : positive) :
  Spec.isCeilingOfQuotient (ceilDiv a (Zpos p)) a (Zpos p).
Proof.
  unfold Spec.isCeilingOfQuotient. rewrite ceilDiv_pos.
  pose proof (Z.mul_div_le (- a) (Zpos p) eq_refl).
  pose proof (Z.mul_succ_div_gt (- a) (Zpos p) eq_refl).
  lia.
Qed.

Lemma floorDiv_spec (a c : Z) :
  c <> 0%Z -> Spec.isFloorOfQuotient (floorDiv a c) a c.
Proof.
  intros Hc. unfold Spec.isFloorOfQuotient.
  destruct c as [|p|p]; [contradiction| |].
  - rewrite floorDiv_pos.
    pose proof (Z.mul_div_le a (Zpos p) eq_refl).
    pose proof (Z.mul_succ_div_gt a (Zpos p) eq_refl).
    split; intros; lia.
  - rewrite floorDiv_neg.
    pose proof (Z.mul_div_le (- a) (Zpos p) eq_refl).
    pose proof (Z.mul_succ_div_gt (- a) (Zpos p) eq_refl).
    split; intros; lia.
Qed.

(** The estimate as one sum. *)
Lemma estimateApiCalls_sum (repoCount : Z) (o : EstimateOptions) :
  estimateApiCalls repoCount o
  = (Z.b2z (fetchProfile o) + Z.b2z (fetchOrgs o) + Z.b2z (fetchKeys o)
     + Z.b2z (fetchGists o)
     + ceilDiv repoCount 100
     + repoCount * ceilDiv (avgCommitsPerRepo o) 100)%Z.
Proof.
  unfold estimateApiCalls.
  destruct (fetchProfile o), (fetchOrgs o), (fetchKeys o), (fetchGists o);
    simpl Z.b2z; lia.
Qed.

End Budget.

(** C5. estimateApiCalls is the sum of one call each for the profile, the
    organisations, the keys and the gists when requested, of the ceiling of
    repoCount/100 for the listing and of repoCount times the ceiling of
    avgCommitsPerRepo/100 for the commits; on 250 repositories with an
    average of 50 commits it is 256. generateScanStrategy sets canComplete
    exactly when the estimate is at most the remaining quota. When it is
    not, the recommendations are limit_repos, use_token and skip_forks in
    this order, and the value of limit_repos is the floor of
    (remaining - 10) divided by the estimate for one repository. *)
Theorem C5_budget_planner :
  (forall (repoCount : Z) (o : SmartScanner.EstimateOptions),
     exists listing commits : Z,
       Spec.isCeilingOfQuotient listing repoCount 100
       /\ Spec.isCeilingOfQuotient commits (SmartScanner.avgCommitsPerRepo o) 100
       /\ SmartScanner.estimateApiCalls repoCount o
          = (Z.b2z (SmartScanner.fetchProfile o)
             + Z.b2z (SmartScanner.fetchOrgs o)
             + Z.b2z (SmartScanner.fetchKeys o)
             + Z.b2z (SmartScanner.fetchGists o)
             + listing + repoCount * commits)%Z)
  /\ SmartScanner.estimateApiCalls 250
       (SmartScanner.mkEstimateOptions true true true false 50) = 256%Z
  /\ (forall (repoCount remaining : Z) (o : SmartScanner.EstimateOptions),
        SmartScanner.canComplete
          (SmartScanner.generateScanStrategy repoCount remaining o) = true
        <-> (SmartScanner.estimateApiCalls repoCount o <= remaining)%Z)
  /\ (forall (repoCount remaining : Z) (o : SmartScanner.EstimateOptions),
        (remaining < SmartScanner.estimateApiCalls repoCount o)%Z ->
        SmartScanner.estimateApiCalls 1 o <> 0%Z ->
        exists safe : Z,
          SmartScanner.recommendations
            (SmartScanner.generateScanStrategy repoCount remaining o)
          = [SmartScanner.limit_repos (Some safe);
             SmartScanner.use_token; SmartScanner.skip_forks]
          /\ Spec.isFloorOfQuotient safe (remaining - 10)
               (SmartScanner.estimateApiCalls 1 o))
  /\ (forall (o : SmartScanner.EstimateOptions),
        (0 <= SmartScanner.avgCommitsPerRepo o)%Z ->
        (0 < SmartScanner.estimateApiCalls 1 o)%Z)
  /\ SmartScanner.generateScanStrategy 250 100
       (SmartScanner.mkEstimateOptions true true true false 50)
     = SmartScanner.mkStrategy false 256 100
         [SmartScanner.limit_repos (Some 18%Z);
          SmartScanner.use_token; SmartScanner.skip_forks].
Proof.
  split; [|split; [reflexivity|split; [|split; [|split; [|reflexivity]]]]].
  - intros repoCount o.
    exists (SmartScanner.ceilDiv repoCount 100),
           (SmartScanner.ceilDiv (SmartScanner.avgCommitsPerRepo o) 100).
    split; [apply ceilDiv_spec|]. split; [apply ceilDiv_spec|].
    apply estimateApiCalls_sum.
  - intros repoCount remaining o. unfold SmartScanner.generateScanStrategy.
    simpl. apply Z.leb_le.
  - intros repoCount remaining o Hlt Hcost.
    exists (SmartScanner.floorDiv (remaining - 10)
              (SmartScanner.estimateApiCalls 1 o)).
    split; [|now apply floorDiv_spec].
    unfold SmartScanner.generateScanStrategy. simpl.
    apply Z.leb_gt in Hlt. rewrite Hlt. simpl.
    apply Z.eqb_neq in Hcost. now rewrite Hcost.
  - intros o Havg. rewrite estimateApiCalls_sum.
    pose proof (ceilDiv_spec 1 100) as H1.
    pose proof (ceilDiv_spec (SmartScanner.avgCommitsPerRepo o) 100) as H2.
    unfold Spec.isCeilingOfQuotient in *.
    destruct (SmartScanner.fetchProfile o), (SmartScanner.fetchOrgs o),
      (SmartScanner.fetchKeys o), (SmartScanner.fetchGists o);
      simpl Z.b2z; lia.
Qed.

(** The theorem on 250 repositories with 100 calls remaining. *)
Lemma C5_budget_planner_witness :
  exists safe : Z,
    SmartScanner.recommendations
      (SmartScanner.generateScanStrategy 250 100
         SmartScanner.defaultEstimateOptions)
    = [SmartScanner.limit_repos (Some safe);
       SmartScanner.use_token; SmartScanner.skip_forks]
    /\ Spec.isFloorOfQuotient safe (100 - 10)
         (SmartScanner.estimateApiCalls 1 SmartScanner.defaultEstimateOptions).
Proof.
  destruct C5_budget_planner as (_ & _ & _ & H & _).
  apply (H 250%Z 100%Z SmartScanner.defaultEstimateOptions).
  - reflexivity.
  - discriminate.
Defined.

(** ** The priority score *)

Section Score.

Import SmartScanner.

Variable log10 : Z -> Q.
Variable now : Z.

Lemma Qltb_lt (x y : Q) : Qltb x y = true <-> x < y.
Proof.
  unfold Qltb. rewrite negb_true_iff, <- not_true_iff_false, Qle_bool_iff.
  split; [apply Qnot_le_lt | apply Qlt_not_le].
Qed.

(** The age in months compared with a whole number of months, in
    milliseconds. *)
Lemma monthsAgo_ltb (t k : Z) :
  Qltb (monthsAgo now t) (inject_Z k) = (now - t <? k * Spec.msPerMonth)%Z.
Proof.
  apply eq_true_iff_eq. rewrite Qltb_lt, Z.ltb_lt.
  unfold monthsAgo, Qlt, Qdiv, Qmult, Qinv, inject_Z, Spec.msPerMonth.
  simpl. lia.
Qed.

Lemma recencyScore_tier (t : Z) :
  recencyScore now (Some t) == Spec.recencyTier (now - t).
Proof.
  unfold recencyScore, Spec.recencyTier.
  change 1 with (inject_Z 1) at 1. change 6 with (inject_Z 6) at 1.
  change 12 with (inject_Z 12) at 1.
  rewrite !monthsAgo_ltb. rewrite Z.mul_1_l.
  repeat match goal with |- context [if ?b then _ else _] => destruct b end;
    reflexivity.
Qed.

Lemma recencyTier_antitone (a b : Z) :
  (a <= b)%Z -> Spec.recencyTier b <= Spec.recencyTier a.
Proof.
  intros H. unfold Spec.recencyTier.
  repeat match goal with
         | |- context [(?x <? ?y)%Z] => destruct (Z.ltb_spec x y)
         end; try lia; try (apply Qle_refl); unfold Qle; simpl; lia.
Qed.

(** The score is the recency term plus a part that does not read the
    time of the last push. *)
Lemma calculateRepoPriority_split (r1 r2 : Repo) :
  Spec.sameButPush r1 r2 ->
  calculateRepoPriority log10 now r1 - recencyScore now (pushed_at r1)
  == calculateRepoPriority log10 now r2 - recencyScore now (pushed_at r2).
Proof.
  intros (Hf & Ha & Hs & Hd & Hi). unfold calculateRepoPriority.
  rewrite Hf, Ha, Hs, Hd, Hi.
  repeat match goal with |- context [if ?b then _ else _] => destruct b end;
    lra.
Qed.

(** The score is the recency term followed by the other terms. *)
Lemma calculateRepoPriority_recency (r : Repo) :
  calculateRepoPriority log10 now r
  == Spec.scoreWithRecency log10 (recencyScore now (pushed_at r)) r.
Proof.
  unfold calculateRepoPriority, Spec.scoreWithRecency.
  destruct (JsString.truthyOpt (description r)), (fork r),
    (0 <? stargazers_count r)%Z, (archived r), (has_issues r);
    cbn [negb]; lra.
Qed.

(** The other terms do not read the time of the last push, and the
    recency contribution is added as it is. *)
Lemma scoreWithRecency_shift (q1 q2 : Q) (r1 r2 : Repo) :
  Spec.sameButPush r1 r2 ->
  Spec.scoreWithRecency log10 q1 r1 - q1
  == Spec.scoreWithRecency log10 q2 r2 - q2.
Proof.
  intros (Hf & Ha & Hs & Hd & Hi). unfold Spec.scoreWithRecency.
  rewrite Hf, Ha, Hs, Hd, Hi.
  repeat match goal with |- context [if ?b then _ else _] => destruct b end;
    lra.
Qed.

End Score.

(** C8. The priority score is monotone in the recency of the last push:
    of two repositories that agree on fork, archived, stars, description
    and issues and that were pushed at t1 and t2 with t1 no earlier than
    t2, the first scores at least as much as the second. The score of a
    repository is its recency contribution followed by the other terms,
    and the recency contribution is 30 when the push is less than a month
    of thirty days old, 0.7 of it (21) under six months, 0.3 of it (9)
    under twelve, and 0 beyond or without a push date. So the first
    repository scores strictly more when its push falls in a more recent
    tier, and the two score the same when their pushes fall in the same
    tier. *)
Theorem C8_score_monotone_in_recency :
  forall (log10 : Z -> Q) (now : Z) (r1 r2 : SmartScanner.Repo) (t1 t2 : Z),
    SmartScanner.pushed_at r1 = Some t1 ->
    SmartScanner.pushed_at r2 = Some t2 ->
    (t2 <= t1)%Z ->
    Spec.sameButPush r1 r2 ->
    SmartScanner.calculateRepoPriority log10 now r2
      <= SmartScanner.calculateRepoPriority log10 now r1
    /\ SmartScanner.calculateRepoPriority log10 now r1
       == Spec.scoreWithRecency log10 (Spec.recencyTier (now - t1)) r1
    /\ SmartScanner.calculateRepoPriority log10 now r2
       == Spec.scoreWithRecency log10 (Spec.recencyTier (now - t2)) r2
    /\ (Spec.recencyTier (now - t2) < Spec.recencyTier (now - t1) ->
        SmartScanner.calculateRepoPriority log10 now r2
          < SmartScanner.calculateRepoPriority log10 now r1)
    /\ (Spec.recencyTier (now - t2) == Spec.recencyTier (now - t1) ->
        SmartScanner.calculateRepoPriority log10 now r2
          == SmartScanner.calculateRepoPriority log10 now r1)
    /\ (forall r : SmartScanner.Repo,
          SmartScanner.pushed_at r = None ->
          SmartScanner.calculateRepoPriority log10 now r
          == Spec.scoreWithRecency log10 0 r)
    /\ SmartScanner.recencyScore now (Some t1) == Spec.recencyTier (now - t1)
    /\ SmartScanner.recencyScore now (Some t2) == Spec.recencyTier (now - t2)
    /\ SmartScanner.recencyScore now None == 0.
Proof.
  intros log10 now r1 r2 t1 t2 H1 H2 Ht Hsame.
  pose proof (calculateRepoPriority_recency log10 now r1) as E1.
  pose proof (calculateRepoPriority_recency log10 now r2) as E2.
  rewrite H1 in E1. rewrite H2 in E2.
  pose proof (recencyScore_tier now t1) as T1.
  pose proof (recencyScore_tier now t2) as T2.
  pose proof (scoreWithRecency_shift log10
                (SmartScanner.recencyScore now (Some t1))
                (Spec.recencyTier (now - t1)) r1 r1) as S1.
  pose proof (scoreWithRecency_shift log10
                (SmartScanner.recencyScore now (Some t2))
                (Spec.recencyTier (now - t2)) r2 r2) as S2.
  pose proof (scoreWithRecency_shift log10
                (Spec.recencyTier (now - t1))
                (Spec.recencyTier (now - t2)) r1 r2 Hsame) as S12.
  assert (Spec.sameButPush r1 r1) as R1 by (repeat split).
  assert (Spec.sameButPush r2 r2) as R2 by (repeat split).
  specialize (S1 R1). specialize (S2 R2).
  assert (Spec.recencyTier (now - t2) <= Spec.recencyTier (now - t1)) as L
    by (apply recencyTier_antitone; lia).
  split; [lra|]. split; [lra|]. split; [lra|].
  split; [intros Hlt; lra|]. split; [intros Heq; lra|].
  split.
  { intros r Hr.
    pose proof (calculateRepoPriority_recency log10 now r) as E.
    rewrite Hr in E. exact E. }
  split; [exact T1|]. split; [exact T2|reflexivity].
Qed.

(** The theorem on a repository pushed ten days ago and on its copy pushed
    two hundred days ago: the first scores 30 + 5 + 20 + 5 + 15 + 5 = 80,
    the second 9 + 5 + 20 + 5 + 15 + 5 = 59. *)
Lemma C8_score_monotone_in_recency_witness :
  let day := 86400000%Z in
  let r1 := SmartScanner.mkRepo "tool" false false (Some (990 * day)%Z) 3
              (Some "a tool") true in
  let r2 := SmartScanner.mkRepo "tool" false false (Some (800 * day)%Z) 3
              (Some "a tool") true in
  SmartScanner.calculateRepoPriority (fun _ => 1) (1000 * day) r2
    < SmartScanner.calculateRepoPriority (fun _ => 1) (1000 * day) r1
  /\ SmartScanner.calculateRepoPriority (fun _ => 1) (1000 * day) r1 == 80
  /\ SmartScanner.calculateRepoPriority (fun _ => 1) (1000 * day) r2 == 59.
Proof.
  intros day r1 r2.
  destruct (C8_score_monotone_in_recency (fun _ => 1) (1000 * day)%Z r1 r2
              (990 * day)%Z (800 * day)%Z eq_refl eq_refl)
    as (_ & E1 & E2 & Hlt & _).
  - vm_compute. discriminate.
  - repeat split.
  - split; [apply Hlt; vm_compute; reflexivity|].
    split; [rewrite E1|rewrite E2]; vm_compute; reflexivity.
Defined.

(** ** Sorting and filtering of repositories *)

Section Filter.

Import SmartScanner.

Variable log10 : Z -> Q.
Variable now : Z.

Lemma insertDesc_perm (x : ScoredRepo) (l : list ScoredRepo) :
  Permutation (insertDesc x l) (x :: l).
Proof.
  induction l as [|y l IH]; simpl; [reflexivity|].
  destruct (Qle_bool (priority y) (priority x)); [reflexivity|].
  rewrite IH. apply perm_swap.
Qed.

Lemma sortDesc_perm (l : list ScoredRepo) : Permutation (sortDesc l) l.
Proof.
  induction l as [|x l IH]; simpl; [reflexivity|].
  rewrite insertDesc_perm. now constructor.
Qed.

Lemma byPriority_trans (a b c : ScoredRepo) :
  Spec.byPriority a b -> Spec.byPriority b c -> Spec.byPriority a c.
Proof. unfold Spec.byPriority. intros H1 H2. eapply Qle_trans; eauto. Qed.

Lemma insertDesc_sorted (x : ScoredRepo) (l : list ScoredRepo) :
  StronglySorted Spec.byPriority l ->
  StronglySorted Spec.byPriority (insertDesc x l).
Proof.
  induction 1 as [|y l Hs IH Hall]; simpl.
  - repeat constructor.
  - destruct (Qle_bool (priority y) (priority x)) eqn:E.
    + apply Qle_bool_iff in E.
      constructor; [now constructor|].
      constructor; [exact E|].
      eapply Forall_impl; [|exact Hall].
      intros z Hz. eapply byPriority_trans; [exact E|exact Hz].
    + assert (Spec.byPriority y x) as Hyx.
      { unfold Spec.byPriority. apply Qlt_le_weak, Qnot_le_lt.
        intros H. apply Qle_bool_iff in H. congruence. }
      constructor; [exact IH|].
      eapply Permutation_Forall; [symmetry; apply insertDesc_perm|].
      now constructor.
Qed.

Lemma sortDesc_sorted (l : list ScoredRepo) :
  StronglySorted Spec.byPriority (sortDesc l).
Proof.
  induction l as [|x l IH]; simpl; [constructor|].
  now apply insertDesc_sorted.
Qed.

(** In a sorted list every element of a front part precedes every element
    of the rest. *)
Lemma sorted_app_front (l1 l2 : list ScoredRepo) :
  StronglySorted Spec.byPriority (l1 ++ l2) ->
  forall a b, In a l1 -> In b l2 -> Spec.byPriority a b.
Proof.
  induction l1 as [|x l1 IH]; simpl; intros Hs a b Ha Hb; [contradiction|].
  inversion Hs as [|? ? Hs' Hall]; subst.
  destruct Ha as [->|Ha].
  - rewrite Forall_forall in Hall. apply Hall, in_or_app. now right.
  - now apply IH.
Qed.

Lemma monthsAgo_gtb (t k : Z) :
  Qltb (inject_Z k) (monthsAgo now t) = (k * Spec.msPerMonth <? now - t)%Z.
Proof.
  apply eq_true_iff_eq. rewrite Qltb_lt, Z.ltb_lt.
  unfold monthsAgo, Qlt, Qdiv, Qmult, Qinv, inject_Z, Spec.msPerMonth.
  simpl. lia.
Qed.

(** The callback of the filter says what the hard predicates say. *)
Lemma keepRepo_passesHard (o : FilterOptions) (r : Repo) :
  keepRepo now o r = true <-> Spec.passesHard now o r.
Proof.
  unfold keepRepo, Spec.passesHard. split.
  - destruct (negb (includeForks o) && fork r) eqn:E1; [discriminate|].
    destruct (negb (includeArchived o) && archived r) eqn:E2; [discriminate|].
    destruct (Z.ltb_spec (stargazers_count r) (minStars o)) as [|Hstars];
      [discriminate|].
    intros H. repeat split.
    + intros Hi. rewrite Hi in E1. exact E1.
    + intros Hi. rewrite Hi in E2. exact E2.
    + assumption.
    + intros m t Hm Hm0 Ht. rewrite Hm, Ht in H. simpl in H.
      rewrite monthsAgo_gtb in H.
      destruct (Z.eqb_spec m 0); [contradiction|]. simpl in H.
      destruct (Z.ltb_spec (m * Spec.msPerMonth) (now - t));
        [discriminate|assumption].
  - intros (A & B & C & D).
    replace (negb (includeForks o) && fork r) with false
      by (destruct (includeForks o); [reflexivity|]; now rewrite A).
    replace (negb (includeArchived o) && archived r) with false
      by (destruct (includeArchived o); [reflexivity|]; now rewrite B).
    destruct (Z.ltb_spec (stargazers_count r) (minStars o)); [lia|].
    destruct (maxAge o) as [m|] eqn:Hm; [|reflexivity].
    destruct (pushed_at r) as [t|] eqn:Ht; [|reflexivity].
    simpl. rewrite monthsAgo_gtb.
    destruct (Z.eqb_spec m 0) as [|Hm0]; [reflexivity|]. simpl.
    specialize (D m t eq_refl Hm0 eq_refl).
    destruct (Z.ltb_spec (m * Spec.msPerMonth) (now - t)); [lia|reflexivity].
Qed.

Lemma In_firstn {A} (n : nat) (l : list A) (x : A) :
  In x (firstn n l) -> In x l.
Proof.
  intros H. rewrite <- (firstn_skipn n l). apply in_or_app. now left.
Qed.

Lemma slice0_firstn {A} (k : Z) (l : list A) :
  exists n, slice0 k l = firstn n l.
Proof. unfold slice0. destruct (0 <=? k)%Z; eauto. Qed.

(** The result of filterRepos is a front part of the sorted survivors. *)
Lemma filterRepos_front (repos : list Repo) (o : FilterOptions) :
  exists n,
    filterRepos log10 now repos o
    = firstn n (sortReposByPriority log10 now (filter (keepRepo now o) repos)).
Proof.
  unfold filterRepos.
  set (sorted := sortReposByPriority log10 now _).
  destruct (maxRepos o) as [k|].
  - destruct (_ && _); [apply slice0_firstn|].
    exists (List.length sorted). now rewrite firstn_all.
  - exists (List.length sorted). now rewrite firstn_all.
Qed.

Lemma filterRepos_length (repos : list Repo) (o : FilterOptions) (k : Z) :
  maxRepos o = Some k -> (0 < k)%Z ->
  (Z.of_nat (List.length (filterRepos log10 now repos o)) <= k)%Z.
Proof.
  intros Hk Hpos. unfold filterRepos. rewrite Hk.
  set (sorted := sortReposByPriority log10 now _).
  destruct (Z.ltb_spec k (Z.of_nat (List.length sorted))) as [Hlt|Hge].
  - replace (truthyNum (Some k)) with true
      by (simpl; destruct (Z.eqb_spec k 0); [lia|reflexivity]).
    simpl. unfold slice0.
    destruct (Z.leb_spec 0 k); [|lia].
    rewrite length_firstn. lia.
  - rewrite andb_false_r. exact Hge.
Qed.

Lemma sortReposByPriority_perm (l : list Repo) :
  Permutation (sortReposByPriority log10 now l)
    (map (fun r => mkScored r (calculateRepoPriority log10 now r)) l).
Proof. apply sortDesc_perm. Qed.

Lemma sortReposByPriority_In (l : list Repo) (s : ScoredRepo) :
  In s (sortReposByPriority log10 now l) ->
  In (repo s) l /\ priority s = calculateRepoPriority log10 now (repo s).
Proof.
  intros H.
  apply (Permutation_in _ (sortReposByPriority_perm l)) in H.
  apply in_map_iff in H. destruct H as (r & <- & Hr). now split.
Qed.

(** What filterRepos returns, by the value of maxRepos. The guard
    [maxRepos && filtered.length > maxRepos] lets null and 0 through, a
    positive limit cuts the sorted list to its first maxRepos elements
    (which is the whole list when it is no longer than that), and a
    negative one reaches [slice(0, maxRepos)], which drops that many
    elements from the end. *)
Lemma filterRepos_by_limit (repos : list Repo) (o : FilterOptions) :
  let sorted :=
    sortReposByPriority log10 now (filter (keepRepo now o) repos) in
  let out := filterRepos log10 now repos o in
  (maxRepos o = None \/ maxRepos o = Some 0%Z -> out = sorted)
  /\ (forall k : Z, maxRepos o = Some k -> (0 < k)%Z ->
        out = firstn (Z.to_nat k) sorted)
  /\ (forall k : Z, maxRepos o = Some k -> (k < 0)%Z ->
        out = firstn (List.length sorted - Z.to_nat (- k)) sorted).
Proof.
  intros sorted out. unfold out, filterRepos. fold sorted.
  split; [|split].
  - intros [H|H]; rewrite H; reflexivity.
  - intros k Hk Hpos. rewrite Hk.
    replace (truthyNum (Some k)) with true
      by (simpl; destruct (Z.eqb_spec k 0); [lia|reflexivity]).
    cbn [andb].
    destruct (Z.ltb_spec k (Z.of_nat (List.length sorted))) as [Hlt|Hge].
    + unfold slice0. destruct (Z.leb_spec 0 k); [reflexivity|lia].
    + symmetry. apply firstn_all2. lia.
  - intros k Hk Hneg. rewrite Hk.
    replace (truthyNum (Some k)) with true
      by (simpl; destruct (Z.eqb_spec k 0); [lia|reflexivity]).
    cbn [andb].
    destruct (Z.ltb_spec k (Z.of_nat (List.length sorted))) as [Hlt|Hge];
      [|lia].
    unfold slice0. destruct (Z.leb_spec 0 k); [lia|].
    f_equal. lia.
Qed.

Lemma sortReposByPriority_length (l : list Repo) :
  List.length (sortReposByPriority log10 now l) = List.length l.
Proof.
  rewrite (Permutation_length (sortReposByPriority_perm l)).
  apply length_map.
Qed.

End Filter.

(** C6, as the code has it. filterRepos keeps the repositories that pass
    the hard predicates (forks and archived repositories unless included,
    at least minStars stars, and, for a non-zero maxAge and a repository
    with a push date, a last push at most maxAge months old), sorts the
    survivors by descending priority, and then truncates: with a positive
    maxRepos the output is exactly the first maxRepos elements of the
    sorted survivors, so it has min(maxRepos, number of survivors)
    elements and never more than maxRepos; with maxRepos null or 0 there
    is no limit and the output is the whole sorted list; a negative
    maxRepos drops that many elements from the end. In every case the
    output is a front part of the sorted list, so every element of it is a
    repository of the input that passes the hard predicates, with its
    score attached, and scores at least as much as every survivor that was
    cut off. *)
Theorem C6_filterRepos_capped_selection :
  forall (log10 : Z -> Q) (now : Z) (repos : list SmartScanner.Repo)
         (o : SmartScanner.FilterOptions),
    let survivors := filter (SmartScanner.keepRepo now o) repos in
    let sorted := SmartScanner.sortReposByPriority log10 now survivors in
    let out := SmartScanner.filterRepos log10 now repos o in
    (forall r, In r survivors <-> In r repos /\ Spec.passesHard now o r)
    /\ Permutation sorted
         (map (fun r => SmartScanner.mkScored r
                          (SmartScanner.calculateRepoPriority log10 now r))
              survivors)
    /\ StronglySorted Spec.byPriority sorted
    /\ (forall k : Z,
          SmartScanner.maxRepos o = Some k -> (0 < k)%Z ->
          out = firstn (Z.to_nat k) sorted
          /\ List.length out = Nat.min (Z.to_nat k) (List.length survivors)
          /\ (Z.of_nat (List.length out) <= k)%Z)
    /\ (SmartScanner.maxRepos o = None \/ SmartScanner.maxRepos o = Some 0%Z ->
        out = sorted /\ List.length out = List.length survivors)
    /\ (forall k : Z,
          SmartScanner.maxRepos o = Some k -> (k < 0)%Z ->
          out = firstn (List.length sorted - Z.to_nat (- k)) sorted)
    /\ (exists dropped,
          sorted = out ++ dropped
          /\ forall a b, In a out -> In b dropped ->
               SmartScanner.priority b <= SmartScanner.priority a)
    /\ (forall s, In s out ->
          In (SmartScanner.repo s) repos
          /\ Spec.passesHard now o (SmartScanner.repo s)
          /\ SmartScanner.priority s
             = SmartScanner.calculateRepoPriority log10 now (SmartScanner.repo s)).
Proof.
  intros log10 now repos o survivors sorted out.
  assert (forall r, In r survivors <-> In r repos /\ Spec.passesHard now o r)
    as Hsurv.
  { intros r. unfold survivors. rewrite filter_In, keepRepo_passesHard.
    reflexivity. }
  destruct (filterRepos_front log10 now repos o) as [n Hn].
  fold survivors in Hn. fold sorted in Hn. fold out in Hn.
  destruct (filterRepos_by_limit log10 now repos o) as (Hnone & Hpos & Hneg).
  fold survivors in Hnone, Hpos, Hneg. fold sorted in Hnone, Hpos, Hneg.
  fold out in Hnone, Hpos, Hneg.
  assert (List.length sorted = List.length survivors) as Hlen
    by apply sortReposByPriority_length.
  pose proof (sortDesc_sorted
                (map (fun r => SmartScanner.mkScored r
                                 (SmartScanner.calculateRepoPriority log10 now r))
                     survivors)) as Hsorted.
  change (StronglySorted Spec.byPriority sorted) in Hsorted.
  split; [exact Hsurv|].
  split; [apply sortReposByPriority_perm|].
  split; [exact Hsorted|].
  split.
  { intros k Hk Hk0. specialize (Hpos k Hk Hk0).
    split; [exact Hpos|].
    assert (List.length out = Nat.min (Z.to_nat k) (List.length survivors))
      as Hmin by (rewrite Hpos, length_firstn, Hlen; reflexivity).
    split; [exact Hmin|]. rewrite Hmin. lia. }
  split.
  { intros H. specialize (Hnone H). split; [exact Hnone|].
    rewrite Hnone. exact Hlen. }
  split; [exact Hneg|].
  split.
  { exists (skipn n sorted). split.
    - rewrite Hn. symmetry. apply firstn_skipn.
    - intros a b Ha Hb. rewrite Hn in Ha.
      rewrite <- (firstn_skipn n sorted) in Hsorted.
      exact (sorted_app_front _ _ Hsorted a b Ha Hb). }
  intros s Hs. rewrite Hn in Hs. apply In_firstn in Hs.
  apply sortReposByPriority_In in Hs. destruct Hs as [Hin Hp].
  apply Hsurv in Hin. destruct Hin as [Hin Hhard].
  split; [exact Hin|]. split; [exact Hhard|exact Hp].
Qed.

(** The theorem on three repositories with maxRepos 2: the output is the
    two best-scored ones, in the order of their scores. *)
Lemma C6_filterRepos_capped_selection_witness :
  let a := SmartScanner.mkRepo "a" false false None 0 None false in
  let b := SmartScanner.mkRepo "b" false false None 0 (Some "tool") true in
  let c := SmartScanner.mkRepo "c" false false None 0 (Some "lib") false in
  let o := SmartScanner.mkFilterOptions false false 0 None (Some 2%Z) in
  let out := SmartScanner.filterRepos (fun _ => 0%Q) 0%Z [a; b; c] o in
  out = firstn 2 (SmartScanner.sortReposByPriority (fun _ => 0%Q) 0%Z [a; b; c])
  /\ List.length out = 2%nat
  /\ map (fun s => SmartScanner.name (SmartScanner.repo s)) out = ["b"; "c"].
Proof.
  intros a b c o out.
  destruct (C6_filterRepos_capped_selection (fun _ => 0%Q) 0%Z [a; b; c] o)
    as (_ & _ & _ & H & _).
  destruct (H 2%Z eq_refl eq_refl) as (Hout & Hlen & _).
  split; [exact Hout|]. split; [exact Hlen|].
  reflexivity.
Defined.

(** C6 as stated fails for maxRepos 0: the guard [maxRepos && ...] reads 0
    as no limit, and the only survivor is returned although the limit is
    0. *)
Lemma C6_maxRepos_zero_counterexample :
  let a := SmartScanner.mkRepo "a" false false None 0 None false in
  let o := SmartScanner.mkFilterOptions false false 0 None (Some 0%Z) in
  SmartScanner.maxRepos o = Some 0%Z
  /\ List.length (SmartScanner.filterRepos (fun _ => 0%Q) 0%Z [a] o) = 1%nat
  /\ ~ (Z.of_nat (List.length (SmartScanner.filterRepos (fun _ => 0%Q) 0%Z [a] o))
        <= 0)%Z.
Proof.
  intros a o. split; [reflexivity|]. split; [reflexivity|].
  vm_compute. intros H. apply H. reflexivity.
Qed.

(** ** Sets of strings *)

Section SetFacts.

Lemma JsSet_has_In (x : string) (s : JsSet.t) :
  JsSet.has x s = true <-> In x s.
Proof.
  unfold JsSet.has. rewrite existsb_exists. split.
  - intros (y & Hy & E). apply String.eqb_eq in E. now subst.
  - intros H. exists x. split; [exact H|apply String.eqb_refl].
Qed.

Lemma JsSet_has_false (x : string) (s : JsSet.t) :
  JsSet.has x s = false <-> ~ In x s.
Proof. rewrite <- JsSet_has_In. now destruct (JsSet.has x s). Qed.

Lemma JsSet_add_new (x : string) (s : JsSet.t) :
  ~ In x s -> JsSet.add x s = s ++ [x].
Proof.
  intros H. unfold JsSet.add. apply JsSet_has_false in H. now rewrite H.
Qed.

Lemma JsSet_add_old (x : string) (s : JsSet.t) :
  In x s -> JsSet.add x s = s.
Proof.
  intros H. unfold JsSet.add. apply JsSet_has_In in H. now rewrite H.
Qed.

Lemma nodupb_NoDup (l : list string) : Spec.nodupb l = true -> NoDup l.
Proof.
  induction l as [|x l IH]; simpl; [constructor|].
  intros H. apply andb_prop in H. destruct H as [Hx Hl].
  constructor; [|now apply IH].
  apply JsSet_has_false. now apply negb_true_iff.
Qed.

(** Freshness of a page whose first key is consumed. *)
Lemma freshKeys_cons (seen : list string) (k : string) (ks : list string) :
  Spec.freshKeys seen (k :: ks) ->
  ~ In k seen /\ Spec.freshKeys (seen ++ [k]) ks.
Proof.
  intros [Hnd Hout]. inversion Hnd as [|? ? Hk Hnd']; subst.
  split; [apply Hout; now left|].
  split; [exact Hnd'|].
  intros k' Hk' Hin. apply in_app_or in Hin. destruct Hin as [Hin|[->|[]]].
  - apply (Hout k'); [now right|exact Hin].
  - contradiction.
Qed.

End SetFacts.

(** ** The repository collector *)

Section RepositoryCollector.

Import GitHubApi.

(** A front part of fresh keys is consumed whole. *)
Lemma walkRepositories_fresh_front (pre rest : list RawRepository) :
  forall (seen : JsSet.t) (repos : list Repository),
    Spec.freshKeys seen (Spec.repoKeys pre) ->
    walkRepositories (pre ++ rest) seen repos
    = walkRepositories rest (seen ++ Spec.repoKeys pre)
        (repos ++ Spec.toRepositories pre).
Proof.
  induction pre as [|r pre IH]; intros seen repos Hf; simpl.
  - now rewrite !app_nil_r.
  - apply freshKeys_cons in Hf. destruct Hf as [Hr Hf].
    rewrite (proj2 (JsSet_has_false _ _) Hr), (JsSet_add_new _ _ Hr).
    rewrite (IH _ _ Hf). now rewrite <- !app_assoc.
Qed.

Lemma walkRepositories_fresh (page : list RawRepository)
    (seen : JsSet.t) (repos : list Repository) :
  Spec.freshKeys seen (Spec.repoKeys page) ->
  walkRepositories page seen repos
  = mkRepoWalk (seen ++ Spec.repoKeys page)
      (repos ++ Spec.toRepositories page) true.
Proof.
  intros Hf. rewrite <- (app_nil_r page) at 1.
  now rewrite walkRepositories_fresh_front.
Qed.

Lemma walkRepositories_repeat (pre post : list RawRepository)
    (x : RawRepository) (seen : JsSet.t) (repos : list Repository) :
  Spec.freshKeys seen (Spec.repoKeys pre) ->
  In (raw_name x) (seen ++ Spec.repoKeys pre) ->
  walkRepositories (pre ++ x :: post) seen repos
  = mkRepoWalk (seen ++ Spec.repoKeys pre)
      (repos ++ Spec.toRepositories pre) false.
Proof.
  intros Hf Hx. rewrite walkRepositories_fresh_front by exact Hf.
  simpl. apply JsSet_has_In in Hx. now rewrite Hx.
Qed.

(** Every page requested is recorded after those requested before. *)
Lemma getRepositoriesFrom_fetched (fuel : nat) (call : nat -> ApiResult RawRepository) :
  forall page seen repos pages r,
    getRepositoriesFrom fuel call page seen repos pages = Some r ->
    exists later, fetched r = pages ++ page :: later.
Proof.
  induction fuel as [|fuel IH]; intros page seen repos pages r; simpl;
    [discriminate|].
  destruct (call page) as [result|msg].
  - destruct (_ && _).
    + intros H. apply IH in H. destruct H as [later ->].
      exists ((page + 1)%nat :: later). now rewrite <- app_assoc.
    + intros [= <-]. now exists [].
  - intros [= <-]. now exists [].
Qed.

End RepositoryCollector.

Section RepositoryPages.

Import GitHubApi.

Lemma NoDup_app_disjoint {A} (l1 l2 : list A) :
  NoDup (l1 ++ l2) -> forall a, In a l2 -> ~ In a l1.
Proof.
  induction l1 as [|x l1 IH]; simpl; intros Hnd a H2 H1; [contradiction|].
  inversion Hnd as [|? ? Hx Hnd']; subst.
  destruct H1 as [->|H1].
  - apply Hx, in_or_app. now right.
  - exact (IH Hnd' a H2 H1).
Qed.

Lemma freshKeys_nil (ks : list string) : NoDup ks -> Spec.freshKeys [] ks.
Proof. intros H. split; [exact H|]. intros k _ []. Qed.

Variable call : nat -> ApiResult RawRepository.

(** A page of fresh keys that is not full ends the walk. *)
Lemma getRepositoriesFrom_short (fuel page : nat) (seen : JsSet.t)
    (repos : list Repository) (pages : list nat) (result : list RawRepository) :
  call page = Items result ->
  List.length result <> 100%nat ->
  Spec.freshKeys seen (Spec.repoKeys result) ->
  getRepositoriesFrom (S fuel) call page seen repos pages
  = Some (mkCollected (repos ++ Spec.toRepositories result) (pages ++ [page])).
Proof.
  intros Hc Hl Hf. simpl. rewrite Hc, (walkRepositories_fresh _ _ _ Hf). simpl.
  apply Nat.eqb_neq in Hl. now rewrite Hl.
Qed.

(** A full page of fresh keys moves the walk to the next page. *)
Lemma getRepositoriesFrom_full (fuel page : nat) (seen : JsSet.t)
    (repos : list Repository) (pages : list nat) (result : list RawRepository) :
  call page = Items result ->
  List.length result = 100%nat ->
  Spec.freshKeys seen (Spec.repoKeys result) ->
  getRepositoriesFrom (S fuel) call page seen repos pages
  = getRepositoriesFrom fuel call (page + 1)
      (seen ++ Spec.repoKeys result)
      (repos ++ Spec.toRepositories result) (pages ++ [page]).
Proof.
  intros Hc Hl Hf. simpl. rewrite Hc, (walkRepositories_fresh _ _ _ Hf). simpl.
  now rewrite Hl.
Qed.

(** A page with a key already seen ends the walk at the repeat. *)
Lemma getRepositoriesFrom_repeat (fuel page : nat) (seen : JsSet.t)
    (repos : list Repository) (pages : list nat)
    (pre post : list RawRepository) (x : RawRepository) :
  call page = Items (pre ++ x :: post) ->
  Spec.freshKeys seen (Spec.repoKeys pre) ->
  In (raw_name x) (seen ++ Spec.repoKeys pre) ->
  getRepositoriesFrom (S fuel) call page seen repos pages
  = Some (mkCollected (repos ++ Spec.toRepositories pre) (pages ++ [page])).
Proof.
  intros Hc Hf Hx. simpl.
  rewrite Hc, (walkRepositories_repeat _ _ _ _ _ Hf Hx). reflexivity.
Qed.

End RepositoryPages.

(** C3, as the code has it. The walk of getRepositories starts at page 1.
    A page of fewer than 100 items none of whose keys was seen before in
    the run is consumed whole and ends the walk. A page of exactly 100
    items none of whose keys was seen before is consumed whole and the walk
    goes on with the next page. A page with a key seen before, whatever its
    length, is consumed up to the item before the first repeat and ends the
    walk with no further request. Pages of 100 and then 47 items with 147
    distinct keys give two requests and the 147 items; a second page whose
    first key is on the first page of 100 distinct keys gives the 100 items
    of the first page. *)
Theorem C3_getRepositories_state_machine :
  forall call : nat -> GitHubApi.ApiResult GitHubApi.RawRepository,
    (forall fuel r,
        GitHubApi.getRepositories fuel call = Some r ->
        exists later, GitHubApi.fetched r = 1%nat :: later)
    /\ (forall fuel page seen repos pages result,
          call page = GitHubApi.Items result ->
          (List.length result < 100)%nat ->
          Spec.freshKeys seen (Spec.repoKeys result) ->
          GitHubApi.getRepositoriesFrom (S fuel) call page seen repos pages
          = Some (GitHubApi.mkCollected
                    (repos ++ Spec.toRepositories result) (pages ++ [page])))
    /\ (forall fuel page seen repos pages result,
          call page = GitHubApi.Items result ->
          List.length result = 100%nat ->
          Spec.freshKeys seen (Spec.repoKeys result) ->
          GitHubApi.getRepositoriesFrom (S fuel) call page seen repos pages
          = GitHubApi.getRepositoriesFrom fuel call (page + 1)
              (seen ++ Spec.repoKeys result)
              (repos ++ Spec.toRepositories result) (pages ++ [page]))
    /\ (forall fuel page seen repos pages pre x post,
          call page = GitHubApi.Items (pre ++ x :: post) ->
          Spec.freshKeys seen (Spec.repoKeys pre) ->
          In (GitHubApi.raw_name x) (seen ++ Spec.repoKeys pre) ->
          GitHubApi.getRepositoriesFrom (S fuel) call page seen repos pages
          = Some (GitHubApi.mkCollected
                    (repos ++ Spec.toRepositories pre) (pages ++ [page])))
    /\ (forall fuel p1 p2,
          call 1%nat = GitHubApi.Items p1 ->
          call 2%nat = GitHubApi.Items p2 ->
          List.length p1 = 100%nat ->
          List.length p2 = 47%nat ->
          NoDup (Spec.repoKeys (p1 ++ p2)) ->
          GitHubApi.getRepositories (S (S fuel)) call
          = Some (GitHubApi.mkCollected
                    (Spec.toRepositories (p1 ++ p2)) [1%nat; 2%nat])
          /\ List.length (Spec.toRepositories (p1 ++ p2)) = 147%nat)
    /\ (forall fuel p1 x rest,
          call 1%nat = GitHubApi.Items p1 ->
          call 2%nat = GitHubApi.Items (x :: rest) ->
          List.length p1 = 100%nat ->
          NoDup (Spec.repoKeys p1) ->
          In (GitHubApi.raw_name x) (Spec.repoKeys p1) ->
          GitHubApi.getRepositories (S (S fuel)) call
          = Some (GitHubApi.mkCollected
                    (Spec.toRepositories p1) [1%nat; 2%nat])).
Proof.
  intros call.
  split.
  { intros fuel r H. apply getRepositoriesFrom_fetched in H. exact H. }
  split.
  { intros fuel page seen repos pages result Hc Hl Hf.
    apply getRepositoriesFrom_short; auto. lia. }
  split.
  { intros. now apply getRepositoriesFrom_full. }
  split.
  { intros. now apply getRepositoriesFrom_repeat with (post := post) (x := x). }
  split.
  - intros fuel p1 p2 H1 H2 L1 L2 Hnd.
    unfold Spec.repoKeys in Hnd. rewrite map_app in Hnd.
    fold (Spec.repoKeys p1) in Hnd. fold (Spec.repoKeys p2) in Hnd.
    split.
    + unfold GitHubApi.getRepositories.
      rewrite (getRepositoriesFrom_full call _ _ _ _ _ p1 H1 L1)
        by (apply freshKeys_nil; eapply NoDup_app_remove_r; exact Hnd).
      change (1 + 1)%nat with 2%nat. rewrite !app_nil_l.
      rewrite (getRepositoriesFrom_short call _ _ _ _ _ p2 H2).
      * unfold Spec.toRepositories. now rewrite map_app.
      * rewrite L2. discriminate.
      * split; [eapply NoDup_app_remove_l; exact Hnd|].
        apply NoDup_app_disjoint. exact Hnd.
    + unfold Spec.toRepositories. rewrite length_map, length_app, L1, L2.
      reflexivity.
  - intros fuel p1 x rest H1 H2 L1 Hnd Hx.
    unfold GitHubApi.getRepositories.
    rewrite (getRepositoriesFrom_full call _ _ _ _ _ p1 H1 L1)
      by (now apply freshKeys_nil).
    change (1 + 1)%nat with 2%nat. rewrite !app_nil_l.
    rewrite (getRepositoriesFrom_repeat call fuel 2 _ _ _ [] rest x H2).
    + simpl. now rewrite app_nil_r.
    + split; [constructor|]. intros k [].
    + simpl. now rewrite app_nil_r.
Qed.

(** The theorem on a listing of 147 repositories of distinct names, served
    as a page of 100 and a page of 47. *)
Lemma C3_getRepositories_state_machine_witness :
  let call := fun page : nat =>
                match page with
                | 1%nat => GitHubApi.Items (Spec.xPage 0 100)
                | 2%nat => GitHubApi.Items (Spec.xPage 100 47)
                | _ => GitHubApi.ErrorResult None
                end in
  GitHubApi.getRepositories 2 call
  = Some (GitHubApi.mkCollected
            (Spec.toRepositories (Spec.xPage 0 100 ++ Spec.xPage 100 47))
            [1%nat; 2%nat])
  /\ List.length (Spec.toRepositories (Spec.xPage 0 100 ++ Spec.xPage 100 47))
     = 147%nat.
Proof.
  intros call.
  destruct (C3_getRepositories_state_machine call) as (_ & _ & _ & _ & H & _).
  apply (H 0%nat (Spec.xPage 0 100) (Spec.xPage 100 47)).
  - reflexivity.
  - reflexivity.
  - reflexivity.
  - reflexivity.
  - apply nodupb_NoDup. vm_compute. reflexivity.
Defined.

(** C3 as stated fails on a short page that repeats a key: the page of
    two items named A is not consumed whole, the walk stops at the second
    item and keeps one repository. *)
Lemma C3_short_page_repeat_counterexample :
  let a := GitHubApi.mkRawRepository "A" false in
  let call := fun _ : nat => GitHubApi.Items [a; a] in
  (List.length [a; a] < 100)%nat
  /\ GitHubApi.getRepositories 1 call
     = Some (GitHubApi.mkCollected [GitHubApi.mkRepository "A" false] [1%nat])
  /\ Spec.toRepositories [a; a] <> [GitHubApi.mkRepository "A" false].
Proof.
  intros a call. split; [simpl; lia|]. split; [reflexivity|]. discriminate.
Qed.

(** ** Maps in insertion order *)

Section MapFacts.

Context {V : Type}.

Implicit Types (k : string) (m : JsMap.t V).

Lemma JsMap_get_set k k0 (v : V) m :
  JsMap.get k (JsMap.set k0 v m)
  = if String.eqb k k0 then Some v else JsMap.get k m.
Proof.
  induction m as [|[k' v'] m IH]; simpl.
  - reflexivity.
  - destruct (String.eqb_spec k0 k') as [<-|Hne]; simpl.
    + destruct (String.eqb k k0); reflexivity.
    + destruct (String.eqb_spec k k') as [->|Hne'].
      * destruct (String.eqb_spec k' k0); [congruence|reflexivity].
      * exact IH.
Qed.

Lemma JsMap_get_adjust (f : V -> V) k k0 m :
  JsMap.get k (JsMap.adjust f k0 m)
  = if String.eqb k k0 then option_map f (JsMap.get k m) else JsMap.get k m.
Proof.
  induction m as [|[k' v'] m IH]; simpl.
  - now destruct (String.eqb k k0).
  - destruct (String.eqb_spec k0 k') as [<-|Hne]; simpl.
    + destruct (String.eqb k k0); reflexivity.
    + destruct (String.eqb_spec k k') as [->|Hne'].
      * destruct (String.eqb_spec k' k0); [congruence|reflexivity].
      * exact IH.
Qed.

Lemma JsMap_set_absent k (v : V) m :
  JsMap.has k m = false -> JsMap.set k v m = m ++ [(k, v)].
Proof.
  unfold JsMap.has. induction m as [|[k' v'] m IH]; simpl; [reflexivity|].
  destruct (String.eqb k k'); [discriminate|].
  intros H. now rewrite (IH H).
Qed.

(** An adjustment that changes nothing at the key leaves the map as it
    is. *)
Lemma JsMap_adjust_same (f : V -> V) k m :
  (forall v, JsMap.get k m = Some v -> f v = v) -> JsMap.adjust f k m = m.
Proof.
  induction m as [|[k' v'] m IH]; simpl; [reflexivity|].
  destruct (String.eqb k k'); intros H.
  - now rewrite (H v' eq_refl).
  - now rewrite (IH H).
Qed.

Lemma JsMap_get_filterKeys (p : string -> bool) k m :
  JsMap.get k (JsMap.filterKeys p m)
  = if p k then JsMap.get k m else None.
Proof.
  induction m as [|[k' v'] m IH]; simpl.
  - now destruct (p k).
  - destruct (p k') eqn:Hk'; simpl.
    + destruct (String.eqb_spec k k') as [->|Hne]; [now rewrite Hk'|exact IH].
    + destruct (String.eqb_spec k k') as [->|Hne]; [now rewrite IH, Hk'|exact IH].
Qed.

Lemma JsMap_filterKeys_adjust (p : string -> bool) (f : V -> V) k m :
  JsMap.filterKeys p (JsMap.adjust f k m)
  = if p k then JsMap.adjust f k (JsMap.filterKeys p m)
    else JsMap.filterKeys p m.
Proof.
  induction m as [|[k' v'] m IH]; simpl.
  - now destruct (p k).
  - destruct (String.eqb_spec k k') as [<-|Hne]; simpl.
    + destruct (p k) eqn:Hk; simpl; [now rewrite String.eqb_refl|reflexivity].
    + destruct (p k') eqn:Hk'; simpl.
      * destruct (p k) eqn:Hk; simpl in *; rewrite IH; [|reflexivity].
        destruct (String.eqb_spec k k'); [contradiction|reflexivity].
      * exact IH.
Qed.

End MapFacts.

(** ** Maps from emails to sets *)

Section EmailMapFacts.

Implicit Types (e k x : string) (m : EmailMap) (s : JsSet.t).

Lemma JsSet_addAll_In x (xs : list string) s :
  In x (JsSet.addAll xs s) <-> In x s \/ In x xs.
Proof.
  unfold JsSet.addAll. revert s.
  induction xs as [|y xs IH]; intros s; simpl; [tauto|].
  rewrite IH. unfold JsSet.add.
  destruct (JsSet.has y s) eqn:E.
  - apply JsSet_has_In in E. split; [tauto|].
    intros [H|[<-|H]]; tauto.
  - rewrite in_app_iff. simpl. tauto.
Qed.

Lemma get_ensureKey k e m :
  JsMap.get k (ensureKey e m)
  = match JsMap.get k m with
    | Some s => Some s
    | None => if String.eqb k e then Some JsSet.empty else None
    end.
Proof.
  unfold ensureKey, JsMap.has.
  destruct (JsMap.get e m) as [s|] eqn:E.
  - destruct (JsMap.get k m) eqn:K; [reflexivity|].
    destruct (String.eqb_spec k e); [congruence|reflexivity].
  - rewrite JsMap_get_set.
    destruct (String.eqb_spec k e) as [->|Hne]; [now rewrite E|].
    now destruct (JsMap.get k m).
Qed.

Lemma get_addAt k e x m :
  JsMap.get k (addAt e x m)
  = if String.eqb k e then option_map (JsSet.add x) (JsMap.get k m)
    else JsMap.get k m.
Proof. apply JsMap_get_adjust. Qed.

Lemma get_addAllAt k e (xs : list string) :
  forall m,
    JsMap.get k (addAllAt e xs m)
    = if String.eqb k e then option_map (JsSet.addAll xs) (JsMap.get k m)
      else JsMap.get k m.
Proof.
  unfold addAllAt, JsSet.addAll.
  induction xs as [|x xs IH]; intros m; simpl.
  - destruct (String.eqb k e); [|reflexivity]. now destruct (JsMap.get k m).
  - rewrite IH, get_addAt.
    destruct (String.eqb k e); [|reflexivity]. now destruct (JsMap.get k m).
Qed.

(** What holds an observation absorbs it. *)
Lemma ensureKey_held e (xs : list string) m :
  Spec.holds e xs m -> ensureKey e m = m.
Proof.
  intros (s & E & _). unfold ensureKey, JsMap.has. now rewrite E.
Qed.

Lemma addAt_held e x m :
  Spec.holds e [x] m -> addAt e x m = m.
Proof.
  intros (s & E & I). apply JsMap_adjust_same.
  intros v Hv. rewrite E in Hv. injection Hv as <-.
  apply JsSet_add_old, I. now left.
Qed.

Lemma addAllAt_held e (xs : list string) m :
  Spec.holds e xs m -> addAllAt e xs m = m.
Proof.
  unfold addAllAt. induction xs as [|x xs IH]; simpl; [reflexivity|].
  intros (s & E & I). rewrite addAt_held.
  - apply IH. exists s. split; [exact E|]. intros y Hy. apply I. now right.
  - exists s. split; [exact E|]. intros y [<-|[]]. apply I. now left.
Qed.

(** After the merge of an observation the map holds it. *)
Lemma holds_after_addAllAt e (xs : list string) m :
  Spec.holds e xs (addAllAt e xs (ensureKey e m)).
Proof.
  unfold Spec.holds. rewrite get_addAllAt, String.eqb_refl, get_ensureKey.
  rewrite String.eqb_refl.
  destruct (JsMap.get e m) as [s|]; simpl; eexists; (split; [reflexivity|]);
    intros y Hy; apply JsSet_addAll_In; now right.
Qed.

Lemma holds_after_addAt e x m :
  Spec.holds e [x] (addAt e x (ensureKey e m)).
Proof. apply (holds_after_addAllAt e [x] m). Qed.

(** What a map holds it still holds after any merge. *)
Lemma holds_mono e (xs : list string) e' (xs' : list string) m :
  Spec.holds e xs m -> Spec.holds e xs (addAllAt e' xs' (ensureKey e' m)).
Proof.
  intros (s & E & I). unfold Spec.holds.
  rewrite get_addAllAt, get_ensureKey, E.
  destruct (String.eqb e e'); simpl; eexists; (split; [reflexivity|]).
  - intros y Hy. apply JsSet_addAll_In. left. now apply I.
  - exact I.
Qed.

End EmailMapFacts.

(** ** Merging observations *)

Section Merge.

Import GitHubUser.

(** The merge of one set of strings under an email, as the loops of
    runGithubRecon and mergeEmailMaps do it, is absorbed by a map that
    holds it already. *)
Lemma merge_absorbed (e : string) (xs : list string) (m : EmailMap) :
  Spec.holds e xs m -> addAllAt e xs (ensureKey e m) = m.
Proof.
  intros H. rewrite (ensureKey_held e xs m H). now apply addAllAt_held.
Qed.

Lemma merge_twice (e : string) (xs : list string) (m : EmailMap) :
  addAllAt e xs (ensureKey e (addAllAt e xs (ensureKey e m)))
  = addAllAt e xs (ensureKey e m).
Proof. apply merge_absorbed, holds_after_addAllAt. Qed.

Lemma mergeOne_twice (e x : string) (m : EmailMap) :
  addAt e x (ensureKey e (addAt e x (ensureKey e m)))
  = addAt e x (ensureKey e m).
Proof. apply (merge_twice e [x] m). Qed.

Lemma get_merge (k e : string) (xs : list string) (m : EmailMap) :
  JsMap.get k (addAllAt e xs (ensureKey e m))
  = if String.eqb k e then Some (JsSet.addAll xs (getOrEmpty e m))
    else JsMap.get k m.
Proof.
  rewrite get_addAllAt, get_ensureKey. unfold getOrEmpty.
  destruct (String.eqb_spec k e) as [->|Hne].
  - now destruct (JsMap.get e m).
  - now destruct (JsMap.get k m).
Qed.

Lemma foldCommitEmail_skip (f : bool) (repo : string) (a : Aggregate)
    (n : nat) (e : string) (ns : JsSet.t) :
  f && SmartScanner.isNoreply (SmartScanner.classifyEmail e) = true ->
  foldCommitEmail f repo (a, n) (e, ns) = (a, n).
Proof. unfold foldCommitEmail. now intros ->. Qed.

Lemma foldCommitEmail_keep (f : bool) (repo : string) (a : Aggregate)
    (n : nat) (e : string) (ns : JsSet.t) :
  f && SmartScanner.isNoreply (SmartScanner.classifyEmail e) = false ->
  foldCommitEmail f repo (a, n) (e, ns)
  = (mkAggregate
       (addAllAt e ns (ensureKey e (emailsToName a)))
       (addAt e repo (ensureKey e (emailsToRepo a)))
       (addAt e "commit" (ensureKey e (emailSources a))),
     if negb (JsMap.has e (emailsToName a)) then S n else n).
Proof. unfold foldCommitEmail. now intros ->. Qed.

Lemma foldCommitEmail_twice (f : bool) (repo : string)
    (st : Aggregate * nat) (entry : string * JsSet.t) :
  fst (foldCommitEmail f repo (foldCommitEmail f repo st entry) entry)
  = fst (foldCommitEmail f repo st entry).
Proof.
  destruct st as [a n], entry as [e ns].
  destruct (f && SmartScanner.isNoreply (SmartScanner.classifyEmail e)) eqn:E.
  - now rewrite !(foldCommitEmail_skip _ _ _ _ _ _ E).
  - rewrite (foldCommitEmail_keep _ _ a _ _ _ E).
    rewrite (foldCommitEmail_keep _ _ _ _ _ _ E).
    cbn [fst emailsToName emailsToRepo emailSources].
    now rewrite merge_twice, !mergeOne_twice.
Qed.

Lemma mergeEmailMaps_mono (source : EmailMap) :
  forall (target : EmailMap) (e : string) (xs : list string),
    Spec.holds e xs target -> Spec.holds e xs (mergeEmailMaps target source).
Proof.
  unfold mergeEmailMaps.
  induction source as [|[e' xs'] source IH]; intros target e xs H; simpl;
    [exact H|].
  apply IH. now apply holds_mono.
Qed.

Lemma mergeEmailMaps_holds (source : EmailMap) :
  forall (target : EmailMap) (e : string) (xs : list string),
    In (e, xs) source -> Spec.holds e xs (mergeEmailMaps target source).
Proof.
  induction source as [|[e' xs'] source IH]; intros target e xs Hin;
    [contradiction|].
  destruct Hin as [[= -> ->]|Hin].
  - apply (mergeEmailMaps_mono source). apply holds_after_addAllAt.
  - apply (IH _ _ _ Hin).
Qed.

Lemma mergeEmailMaps_absorbed (source : EmailMap) :
  forall target : EmailMap,
    (forall e xs, In (e, xs) source -> Spec.holds e xs target) ->
    mergeEmailMaps target source = target.
Proof.
  unfold mergeEmailMaps.
  induction source as [|[e xs] source IH]; intros target H; simpl;
    [reflexivity|].
  rewrite merge_absorbed by (apply H; now left).
  apply IH. intros e' xs' Hin. apply H. now right.
Qed.

End Merge.

(** C9. Merging an observation is idempotent. For every state of the
    three maps, folding the same (email, names, repository) observation of
    a commit scan twice leaves the maps as folding it once does, and so
    does merging the same source map twice with mergeEmailMaps. A fold
    that is not skipped leaves under the email the union of what was there
    (nothing on first sight) with the names, with the repository and with
    the source tag commit, and leaves every other email as it was. *)
Theorem C9_merge_idempotent :
  (forall (f : bool) (repo : string) (st : GitHubUser.Aggregate * nat)
          (entry : string * JsSet.t),
      fst (GitHubUser.foldCommitEmail f repo
             (GitHubUser.foldCommitEmail f repo st entry) entry)
      = fst (GitHubUser.foldCommitEmail f repo st entry))
  /\ (forall target source : EmailMap,
        GitHubUser.mergeEmailMaps (GitHubUser.mergeEmailMaps target source) source
        = GitHubUser.mergeEmailMaps target source)
  /\ (forall (f : bool) (repo : string) (a : GitHubUser.Aggregate) (n : nat)
             (e : string) (ns : JsSet.t),
        f && SmartScanner.isNoreply (SmartScanner.classifyEmail e) = false ->
        let a' := fst (GitHubUser.foldCommitEmail f repo (a, n) (e, ns)) in
        JsMap.get e (GitHubUser.emailsToName a')
        = Some (JsSet.addAll ns
                  (GitHubUser.getOrEmpty e (GitHubUser.emailsToName a)))
        /\ JsMap.get e (GitHubUser.emailsToRepo a')
           = Some (JsSet.add repo
                     (GitHubUser.getOrEmpty e (GitHubUser.emailsToRepo a)))
        /\ JsMap.get e (GitHubUser.emailSources a')
           = Some (JsSet.add "commit"
                     (GitHubUser.getOrEmpty e (GitHubUser.emailSources a)))
        /\ (forall k, k <> e ->
              JsMap.get k (GitHubUser.emailsToName a')
              = JsMap.get k (GitHubUser.emailsToName a)
              /\ JsMap.get k (GitHubUser.emailsToRepo a')
                 = JsMap.get k (GitHubUser.emailsToRepo a)
              /\ JsMap.get k (GitHubUser.emailSources a')
                 = JsMap.get k (GitHubUser.emailSources a)))
  /\ (forall (x : string) (xs : list string) (s : JsSet.t),
        In x (JsSet.addAll xs s) <-> In x s \/ In x xs).
Proof.
  split; [exact foldCommitEmail_twice|].
  split.
  { intros target source. apply mergeEmailMaps_absorbed.
    intros e xs Hin. now apply mergeEmailMaps_holds. }
  split; [|exact JsSet_addAll_In].
  intros f repo a n e ns Hskip a'. subst a'.
  rewrite (foldCommitEmail_keep _ _ _ _ _ _ Hskip).
  cbn [fst GitHubUser.emailsToName GitHubUser.emailsToRepo
       GitHubUser.emailSources].
  rewrite get_merge, String.eqb_refl.
  pose proof (get_merge e e [repo] (GitHubUser.emailsToRepo a)) as Hr.
  pose proof (get_merge e e ["commit"] (GitHubUser.emailSources a)) as Hs.
  rewrite String.eqb_refl in Hr, Hs.
  repeat split; try assumption.
  all: apply String.eqb_neq in H.
  - now rewrite get_merge, H.
  - pose proof (get_merge k e [repo] (GitHubUser.emailsToRepo a)) as Hk.
    now rewrite H in Hk.
  - pose proof (get_merge k e ["commit"] (GitHubUser.emailSources a)) as Hk.
    now rewrite H in Hk.
Qed.

(** ** Exclusion of noreply addresses *)

Section Exclusion.

Import GitHubUser.

Lemma filterKeys_ensureKey (p : string -> bool) (e : string) (m : EmailMap) :
  JsMap.filterKeys p (ensureKey e m)
  = if p e then ensureKey e (JsMap.filterKeys p m) else JsMap.filterKeys p m.
Proof.
  unfold ensureKey, JsMap.has. rewrite JsMap_get_filterKeys.
  destruct (JsMap.get e m) as [s|] eqn:E.
  - now destruct (p e).
  - assert (JsMap.has e m = false) as Hm by (unfold JsMap.has; now rewrite E).
    rewrite (JsMap_set_absent _ _ _ Hm).
    unfold JsMap.filterKeys at 1. rewrite filter_app. simpl.
    destruct (p e) eqn:Hp.
    + rewrite JsMap_set_absent; [reflexivity|].
      unfold JsMap.has. now rewrite JsMap_get_filterKeys, Hp, E.
    + apply app_nil_r.
Qed.

Lemma filterKeys_addAllAt (p : string -> bool) (e : string) (xs : list string) :
  forall m : EmailMap,
    JsMap.filterKeys p (addAllAt e xs m)
    = if p e then addAllAt e xs (JsMap.filterKeys p m)
      else JsMap.filterKeys p m.
Proof.
  unfold addAllAt. induction xs as [|x xs IH]; intros m; simpl.
  - now destruct (p e).
  - rewrite IH. unfold addAt at 2 3. rewrite JsMap_filterKeys_adjust.
    now destruct (p e).
Qed.

Lemma filterKeys_merge (p : string -> bool) (e : string) (xs : list string)
    (m : EmailMap) :
  JsMap.filterKeys p (addAllAt e xs (ensureKey e m))
  = if p e then addAllAt e xs (ensureKey e (JsMap.filterKeys p m))
    else JsMap.filterKeys p m.
Proof.
  rewrite filterKeys_addAllAt, filterKeys_ensureKey. now destruct (p e).
Qed.

Lemma filterKeys_mergeOne (p : string -> bool) (e x : string) (m : EmailMap) :
  JsMap.filterKeys p (addAt e x (ensureKey e m))
  = if p e then addAt e x (ensureKey e (JsMap.filterKeys p m))
    else JsMap.filterKeys p m.
Proof. apply (filterKeys_merge p e [x] m). Qed.

Lemma stepMaps_counter (f : bool) (repo : string) (a : Aggregate) (n : nat)
    (entry : string * JsSet.t) :
  fst (foldCommitEmail f repo (a, n) entry) = Spec.stepMaps f repo a entry.
Proof.
  destruct entry as [e ns]. unfold Spec.stepMaps.
  destruct (f && SmartScanner.isNoreply (SmartScanner.classifyEmail e)) eqn:E.
  - now rewrite !(foldCommitEmail_skip _ _ _ _ _ _ E).
  - now rewrite !(foldCommitEmail_keep _ _ _ _ _ _ E).
Qed.

Lemma fold_foldCommitEmail (f : bool) (repo : string) (l : EmailMap) :
  forall (a : Aggregate) (n : nat),
    fst (fold_left (foldCommitEmail f repo) l (a, n))
    = fold_left (Spec.stepMaps f repo) l a.
Proof.
  induction l as [|entry l IH]; intros a n; [reflexivity|].
  cbn [fold_left].
  rewrite (surjective_pairing (foldCommitEmail f repo (a, n) entry)).
  now rewrite IH, stepMaps_counter.
Qed.

(** The projection leaves the maps alone: a turn of the repository loop
    changes them by the fold only. *)
Lemma scanRepository_aggregate (f : bool) (st : ScanState)
    (found : string * EmailMap) :
  aggregate (scanRepository f st found)
  = fold_left (Spec.stepMaps f (fst found)) (snd found) (aggregate st).
Proof.
  destruct found as [repo l]. unfold scanRepository. cbn [fst snd].
  rewrite <- (fold_foldCommitEmail f repo l (aggregate st) 0).
  destruct (fold_left _ l _) as [a n]. now destruct (0 <? n)%nat.
Qed.

Lemma scanRepositories_aggregate (f : bool) (found : list (string * EmailMap)) :
  aggregate (scanRepositories f found) = Spec.buildMaps f found.
Proof.
  unfold scanRepositories, Spec.buildMaps. simpl.
  change emptyAggregate with (aggregate initialState).
  generalize initialState.
  induction found as [|x found IH]; intros st; simpl; [reflexivity|].
  rewrite IH. now rewrite scanRepository_aggregate.
Qed.

(** The fold with exclusion is the fold without it, restricted to the
    addresses that are not noreply. *)
Lemma restrict_stepMaps (repo : string) (a : Aggregate)
    (entry : string * JsSet.t) :
  Spec.restrict Spec.notNoreply (Spec.stepMaps false repo a entry)
  = Spec.stepMaps true repo (Spec.restrict Spec.notNoreply a) entry.
Proof.
  destruct entry as [e ns]. unfold Spec.stepMaps.
  rewrite (foldCommitEmail_keep false _ _ _ _ _ eq_refl).
  destruct (SmartScanner.isNoreply (SmartScanner.classifyEmail e)) eqn:E.
  - rewrite (foldCommitEmail_skip true _ _ _ _ _ E).
    unfold Spec.restrict. cbn [fst emailsToName emailsToRepo emailSources].
    rewrite filterKeys_merge, !filterKeys_mergeOne.
    unfold Spec.notNoreply. now rewrite E.
  - rewrite (foldCommitEmail_keep true _ _ _ _ _ E).
    unfold Spec.restrict. cbn [fst emailsToName emailsToRepo emailSources].
    rewrite filterKeys_merge, !filterKeys_mergeOne.
    unfold Spec.notNoreply. now rewrite E.
Qed.

Lemma restrict_buildMaps (found : list (string * EmailMap)) :
  Spec.restrict Spec.notNoreply (Spec.buildMaps false found)
  = Spec.buildMaps true found.
Proof.
  unfold Spec.buildMaps.
  change emptyAggregate
    with (Spec.restrict Spec.notNoreply emptyAggregate) at 2.
  generalize emptyAggregate.
  induction found as [|[repo l] found IH]; intros a; simpl; [reflexivity|].
  rewrite IH. f_equal. clear IH. revert a.
  induction l as [|entry l IHl]; intros a; simpl; [reflexivity|].
  now rewrite IHl, restrict_stepMaps.
Qed.

End Exclusion.

Section Report.

Import GitHubUser.

Lemma filter_filterKeys {V} (p : string -> bool) (q : string * V -> bool)
    (m : JsMap.t V) :
  (forall kv, q kv = p (fst kv)) ->
  filter q (JsMap.filterKeys p m) = filter q m.
Proof.
  intros Hq. unfold JsMap.filterKeys.
  induction m as [|kv m IH]; simpl; [reflexivity|].
  destruct (p (fst kv)) eqn:Hp; simpl; rewrite Hq, Hp; [now rewrite IH|exact IH].
Qed.

Lemma getOrEmpty_filterKeys (p : string -> bool) (e : string) (m : EmailMap) :
  p e = true -> getOrEmpty e (JsMap.filterKeys p m) = getOrEmpty e m.
Proof.
  intros Hp. unfold getOrEmpty. now rewrite JsMap_get_filterKeys, Hp.
Qed.

(** The report depends on the maps and on the flag, not on the report it
    replaces. *)
Lemma updateResultEmails_fresh (r r' : Result) (a : Aggregate) (f : bool) :
  updateResultEmails r a f = updateResultEmails r' a f.
Proof. reflexivity. Qed.

(** The report with exclusion is the same from the maps and from the maps
    restricted to the addresses that are not noreply. *)
Lemma updateResultEmails_restrict (r : Result) (a : Aggregate) :
  updateResultEmails r (Spec.restrict Spec.notNoreply a) true
  = updateResultEmails r a true.
Proof.
  unfold updateResultEmails.
  cbn [Spec.restrict emailsToName emailsToRepo emailSources].
  rewrite filter_filterKeys by reflexivity. f_equal.
  apply map_ext_in. intros [e ns] Hin.
  apply filter_In in Hin. destruct Hin as [_ Hp]. cbn [fst andb] in Hp.
  now rewrite !(getOrEmpty_filterKeys Spec.notNoreply e _ Hp).
Qed.

End Report.

(** C2, as the code has it. The exclusion of noreply addresses is applied
    twice: by the fold of the repository loop, which skips them when
    skipNoreply or smart is set, so that they never enter the three maps,
    and by the projection into the report. The projection itself leaves the
    maps alone: after the scan they are the maps built from the
    observations by the fold. The maps built with exclusion are the maps
    built without it restricted to the addresses that are not noreply, and
    the report of the scan with exclusion is the projection with exclusion
    of the maps built without it. *)
Theorem C2_exclusion_in_fold_and_projection :
  forall found : list (string * EmailMap),
    (forall f : bool,
        GitHubUser.aggregate (GitHubUser.scanRepositories f found)
        = Spec.buildMaps f found)
    /\ Spec.buildMaps true found
       = Spec.restrict Spec.notNoreply (Spec.buildMaps false found)
    /\ GitHubUser.result (GitHubUser.scanRepositories true found)
       = GitHubUser.updateResultEmails GitHubUser.emptyResult
           (Spec.buildMaps false found) true
    /\ (forall e : string,
          In e (GitHubUser.leaked_emails
                  (GitHubUser.result (GitHubUser.scanRepositories true found))) ->
          Spec.notNoreply e = true).
Proof.
  intros found.
  split; [intros f; apply scanRepositories_aggregate|].
  split; [symmetry; apply restrict_buildMaps|].
  split.
  - unfold GitHubUser.scanRepositories at 1. cbn [GitHubUser.result].
    pose proof (scanRepositories_aggregate true found) as H.
    unfold GitHubUser.scanRepositories in H. cbn [GitHubUser.aggregate] in H.
    rewrite H, <- restrict_buildMaps, updateResultEmails_restrict.
    reflexivity.
  - intros e. unfold GitHubUser.scanRepositories. cbn [GitHubUser.result].
    unfold GitHubUser.updateResultEmails. cbn [GitHubUser.leaked_emails].
    rewrite in_map_iff. intros ([e' ns] & <- & Hin).
    apply filter_In in Hin. exact (proj2 Hin).
Qed.

(** The theorem on a scan that meets the GitHub noreply address and a work
    address. *)
Lemma C2_exclusion_in_fold_and_projection_witness :
  let found := [("tool", [("noreply@github.com", ["GitHub"]);
                          ("dev@acme-corp.io", ["Dev"])])] in
  Spec.notNoreply "dev@acme-corp.io" = true.
Proof.
  intros found.
  destruct (C2_exclusion_in_fold_and_projection found) as (_ & _ & _ & H).
  apply H. vm_compute. left. reflexivity.
Defined.

(** C2 as stated fails on a scan that meets a noreply address: with the
    exclusion on, the address is withheld from the maps, which are empty
    and differ from the maps built with no exclusion. *)
Lemma C2_maps_withhold_noreply_counterexample :
  let found := [("tool", [("noreply@github.com", ["GitHub"])])] in
  GitHubUser.aggregate (GitHubUser.scanRepositories true found)
  = GitHubUser.emptyAggregate
  /\ GitHubUser.aggregate (GitHubUser.scanRepositories false found)
     = GitHubUser.mkAggregate
         [("noreply@github.com", ["GitHub"])]
         [("noreply@github.com", ["tool"])]
         [("noreply@github.com", ["commit"])]
  /\ GitHubUser.aggregate (GitHubUser.scanRepositories true found)
     <> GitHubUser.aggregate (GitHubUser.scanRepositories false found).
Proof.
  intros found. split; [reflexivity|]. split; [reflexivity|].
  vm_compute. discriminate.
Qed.

(** ** The commit collector *)

Section CommitCollector.

Import GitHubApi.

Variable username : string.

Lemma walkCommits_fresh (c : Commit) (rest : list Commit)
    (seen : JsSet.t) (emails : EmailMap) :
  ~ In (sha c) seen ->
  walkCommits username (c :: rest) seen emails
  = walkCommits username rest (seen ++ [sha c])
      (harvestCommit username c emails).
Proof.
  intros H. simpl.
  now rewrite (proj2 (JsSet_has_false _ _) H), (JsSet_add_new _ _ H).
Qed.

Lemma walkCommits_seen (c : Commit) (rest : list Commit)
    (seen : JsSet.t) (emails : EmailMap) :
  In (sha c) seen ->
  walkCommits username (c :: rest) seen emails = mkCommitWalk seen emails false.
Proof. intros H. simpl. apply JsSet_has_In in H. now rewrite H. Qed.

(** A key that was seen stops the walk wherever it comes back. *)
Lemma walkCommits_later_repeat (mid post : list Commit) (c' : Commit) :
  forall (seen : JsSet.t) (emails : EmailMap),
    In (sha c') seen ->
    continueCommits (walkCommits username (mid ++ c' :: post) seen emails)
    = false.
Proof.
  induction mid as [|c mid IH]; intros seen emails H.
  - simpl app. now rewrite walkCommits_seen.
  - simpl. destruct (JsSet.has (sha c) seen) eqn:E; [reflexivity|].
    apply IH. apply JsSet_has_false in E. rewrite (JsSet_add_new _ _ E).
    apply in_or_app. now left.
Qed.

Lemma harvestCommit_other (c : Commit) (emails : EmailMap) :
  Spec.attributedTo username c = false ->
  harvestCommit username c emails = emails.
Proof.
  unfold Spec.attributedTo, harvestCommit.
  destruct (author_login c); [|reflexivity]. now intros ->.
Qed.

Lemma harvestCommit_own (c : Commit) (emails : EmailMap) :
  Spec.attributedTo username c = true ->
  harvestCommit username c emails
  = recordIdentity (git_committer c) (recordIdentity (git_author c) emails).
Proof.
  unfold Spec.attributedTo, harvestCommit.
  destruct (author_login c); [|discriminate]. now intros ->.
Qed.

Lemma recorded_nil (e n : string) : ~ Spec.recorded e n JsMap.empty.
Proof. intros (s & H & _). discriminate. Qed.

(** What recordIdentity adds is the pair of the identity. *)
Lemma recordIdentity_recorded (i : GitIdentity) (m : EmailMap) (e n : string) :
  Spec.recorded e n (recordIdentity i m) ->
  Spec.recorded e n m \/ (git_email i = Some e /\ git_name i = n).
Proof.
  unfold recordIdentity.
  destruct (git_email i) as [e0|]; [|now left].
  destruct (JsString.truthy e0); [|now left].
  intros (s & Hget & Hin).
  change (addAt e0 (git_name i) (ensureKey e0 m))
    with (addAllAt e0 [git_name i] (ensureKey e0 m)) in Hget.
  rewrite get_merge in Hget.
  destruct (String.eqb_spec e e0) as [->|Hne].
  - injection Hget as <-.
    assert (In n (JsSet.addAll [git_name i] (GitHubUser.getOrEmpty e0 m))) as H
      by (apply Hin; now left).
    apply JsSet_addAll_In in H. destruct H as [H|[<-|[]]]; [|now right].
    left. unfold GitHubUser.getOrEmpty in H.
    destruct (JsMap.get e0 m) as [s0|] eqn:E; [|contradiction].
    exists s0. split; [exact E|]. now intros y [<-|[]].
  - left. exists s. now split.
Qed.

Lemma recordIdentity_mono (i : GitIdentity) (m : EmailMap) (e n : string) :
  Spec.recorded e n m -> Spec.recorded e n (recordIdentity i m).
Proof.
  intros H. unfold recordIdentity.
  destruct (git_email i) as [e0|]; [|exact H].
  destruct (JsString.truthy e0); [|exact H].
  apply (holds_mono e [n] e0 [git_name i] m H).
Qed.

Lemma recordIdentity_records (i : GitIdentity) (m : EmailMap) (e : string) :
  git_email i = Some e -> e <> "" ->
  Spec.recorded e (git_name i) (recordIdentity i m).
Proof.
  intros He Hne. unfold recordIdentity. rewrite He.
  apply String.eqb_neq in Hne. unfold JsString.truthy. rewrite Hne. simpl.
  apply holds_after_addAt.
Qed.

Lemma harvestCommit_recorded (c : Commit) (m : EmailMap) (e n : string) :
  Spec.recorded e n (harvestCommit username c m) ->
  Spec.recorded e n m
  \/ (Spec.attributedTo username c = true /\ Spec.identityOf c e n).
Proof.
  destruct (Spec.attributedTo username c) eqn:A.
  - rewrite (harvestCommit_own c m A). intros H.
    apply recordIdentity_recorded in H. destruct H as [H|H].
    + apply recordIdentity_recorded in H. destruct H as [H|H]; [now left|].
      right. split; [reflexivity|]. now left.
    + right. split; [reflexivity|]. now right.
  - rewrite (harvestCommit_other c m A). now left.
Qed.

Lemma walkCommits_recorded (result : list Commit) (e n : string) :
  forall (seen : JsSet.t) (m : EmailMap),
    Spec.recorded e n (emailsToName (walkCommits username result seen m)) ->
    Spec.recorded e n m
    \/ exists c, In c result /\ Spec.attributedTo username c = true
                 /\ Spec.identityOf c e n.
Proof.
  induction result as [|c result IH]; intros seen m; simpl; [now left|].
  destruct (JsSet.has (sha c) seen); [now left|].
  intros H. apply IH in H. destruct H as [H|(c' & Hin & Hc')].
  - apply harvestCommit_recorded in H. destruct H as [H|H]; [now left|].
    right. exists c. split; [now left|exact H].
  - right. exists c'. split; [now right|exact Hc'].
Qed.

Lemma getEmailsFrom_recorded (call : nat -> ApiResult Commit) (e n : string)
    (fuel : nat) :
  forall page seen m pages r,
    getEmailsFrom fuel username call page seen m pages = Some r ->
    Spec.recorded e n (collected r) ->
    Spec.recorded e n m
    \/ exists p result c,
         call p = Items result /\ In c result
         /\ Spec.attributedTo username c = true /\ Spec.identityOf c e n.
Proof.
  induction fuel as [|fuel IH]; intros page seen m pages r; simpl;
    [discriminate|].
  destruct (call page) as [result|msg] eqn:Hc.
  - assert (Spec.recorded e n
              (emailsToName (walkCommits username result seen m)) ->
            Spec.recorded e n m
            \/ exists p result c,
                 call p = Items result /\ In c result
                 /\ Spec.attributedTo username c = true
                 /\ Spec.identityOf c e n) as Hpage.
    { intros H. apply walkCommits_recorded in H.
      destruct H as [H|(c & Hin & Hc')]; [now left|].
      right. exists page, result, c. now split. }
    destruct (_ && _).
    + intros Hr He. destruct (IH _ _ _ _ _ Hr He) as [H|H]; [|now right].
      now apply Hpage.
    + intros [= <-] He. now apply Hpage.
  - intros [= <-] He. now left.
Qed.

End CommitCollector.

(** C4, as the code has it. In getEmails a commit without an author
    account is skipped after the key extraction and the duplicate check,
    not before: when its sha was not seen, the sha joins the set of seen
    keys and the commit adds no email; when its sha was seen, the commit
    itself stops the walk as a duplicate. A later commit of the same sha
    on the page therefore stops the walk, and no further page is
    requested. *)
Theorem C4_authorless_commit_key_is_recorded :
  forall (username : string) (c : GitHubApi.Commit)
         (seen : JsSet.t) (emails : EmailMap),
    GitHubApi.author_login c = None ->
    (forall rest,
        ~ In (GitHubApi.sha c) seen ->
        GitHubApi.walkCommits username (c :: rest) seen emails
        = GitHubApi.walkCommits username rest (seen ++ [GitHubApi.sha c]) emails)
    /\ (forall rest,
          In (GitHubApi.sha c) seen ->
          GitHubApi.walkCommits username (c :: rest) seen emails
          = GitHubApi.mkCommitWalk seen emails false)
    /\ (forall mid c' post,
          GitHubApi.sha c' = GitHubApi.sha c ->
          GitHubApi.continueCommits
            (GitHubApi.walkCommits username (c :: mid ++ c' :: post) seen emails)
          = false)
    /\ (forall fuel call page pages mid c' post,
          GitHubApi.sha c' = GitHubApi.sha c ->
          call page = GitHubApi.Items (c :: mid ++ c' :: post) ->
          exists m,
            GitHubApi.getEmailsFrom (S fuel) username call page seen emails pages
            = Some (GitHubApi.mkCollected m (pages ++ [page]))).
Proof.
  intros username c seen emails Hauthor.
  assert (GitHubApi.harvestCommit username c emails = emails) as Hh.
  { unfold GitHubApi.harvestCommit. now rewrite Hauthor. }
  assert (forall mid c' post,
             GitHubApi.sha c' = GitHubApi.sha c ->
             GitHubApi.continueCommits
               (GitHubApi.walkCommits username (c :: mid ++ c' :: post)
                  seen emails) = false) as Hstop.
  { intros mid c' post Hsha.
    destruct (JsSet.has (GitHubApi.sha c) seen) eqn:E.
    - apply JsSet_has_In in E. now rewrite walkCommits_seen.
    - apply JsSet_has_false in E. rewrite (walkCommits_fresh _ _ _ _ _ E).
      apply walkCommits_later_repeat. rewrite Hsha.
      apply in_or_app. right. now left. }
  split.
  { intros rest H. now rewrite (walkCommits_fresh _ _ _ _ _ H), Hh. }
  split.
  { intros rest H. now apply walkCommits_seen. }
  split; [exact Hstop|].
  intros fuel call page pages mid c' post Hsha Hcall.
  cbn [GitHubApi.getEmailsFrom]. rewrite Hcall.
  rewrite (Hstop mid c' post Hsha). cbn [andb].
  eexists. reflexivity.
Qed.

(** The theorem on a page where a commit without author account is
    followed by a commit of the same sha. *)
Lemma C4_authorless_commit_key_is_recorded_witness :
  let id := GitHubApi.mkGitIdentity "Alice" (Some "alice@acme-corp.io") in
  let c0 := GitHubApi.mkCommit "abc" None id id in
  let c1 := GitHubApi.mkCommit "abc" (Some "alice") id id in
  GitHubApi.continueCommits
    (GitHubApi.walkCommits "alice" (c0 :: [] ++ c1 :: []) JsSet.empty JsMap.empty)
  = false.
Proof.
  intros id c0 c1.
  destruct (C4_authorless_commit_key_is_recorded "alice" c0 JsSet.empty
              JsMap.empty eq_refl) as (_ & _ & H & _).
  apply (H [] c1 []). reflexivity.
Defined.

(** C4 as stated fails: the commit without author account leaves its sha
    in the set of seen keys, and the commit of the same sha that follows
    it is taken for a duplicate, so that the walk stops and the email of
    the second commit is lost, whereas alone it is collected. *)
Lemma C4_authorless_commit_counterexample :
  let id := GitHubApi.mkGitIdentity "Alice" (Some "alice@acme-corp.io") in
  let c0 := GitHubApi.mkCommit "abc" None id id in
  let c1 := GitHubApi.mkCommit "abc" (Some "alice") id id in
  GitHubApi.seenCommits
    (GitHubApi.walkCommits "alice" [c0] JsSet.empty JsMap.empty) = ["abc"]
  /\ GitHubApi.walkCommits "alice" [c0; c1] JsSet.empty JsMap.empty
     = GitHubApi.mkCommitWalk ["abc"] [] false
  /\ GitHubApi.getEmails 1 "alice" (fun _ => GitHubApi.Items [c0; c1])
     = Some (GitHubApi.mkCollected [] [1%nat])
  /\ GitHubApi.getEmails 1 "alice" (fun _ => GitHubApi.Items [c1])
     = Some (GitHubApi.mkCollected [("alice@acme-corp.io", ["Alice"])] [1%nat]).
Proof. intros id c0 c1. repeat split. Qed.

(** C10. getEmails harvests only the commits attributed to the scanned
    account. A commit whose top-level author login is not the username up
    to case, or that has no author account, leaves the map as it is. A
    commit whose login is the username up to case has its git author and
    then its git committer recorded, each under its email when the email
    is not empty. Every (email, name) pair of the collected map is the git
    author or git committer of a commit of a requested page that is
    attributed to the scanned account. *)
Theorem C10_only_commits_of_scanned_account :
  forall username : string,
    (forall c emails,
        Spec.attributedTo username c = false ->
        GitHubApi.harvestCommit username c emails = emails)
    /\ (forall c emails,
          Spec.attributedTo username c = true ->
          GitHubApi.harvestCommit username c emails
          = GitHubApi.recordIdentity (GitHubApi.git_committer c)
              (GitHubApi.recordIdentity (GitHubApi.git_author c) emails)
          /\ (forall e, GitHubApi.git_email (GitHubApi.git_author c) = Some e ->
                e <> "" ->
                Spec.recorded e (GitHubApi.git_name (GitHubApi.git_author c))
                  (GitHubApi.harvestCommit username c emails))
          /\ (forall e, GitHubApi.git_email (GitHubApi.git_committer c) = Some e ->
                e <> "" ->
                Spec.recorded e (GitHubApi.git_name (GitHubApi.git_committer c))
                  (GitHubApi.harvestCommit username c emails)))
    /\ (forall fuel call r e n,
          GitHubApi.getEmails fuel username call = Some r ->
          Spec.recorded e n (GitHubApi.collected r) ->
          exists page result c,
            call page = GitHubApi.Items result /\ In c result
            /\ Spec.attributedTo username c = true
            /\ Spec.identityOf c e n).
Proof.
  intros username.
  split; [intros c emails; apply harvestCommit_other|].
  split.
  - intros c emails A. rewrite (harvestCommit_own username c emails A).
    split; [reflexivity|]. split.
    + intros e He Hne. apply recordIdentity_mono.
      now apply recordIdentity_records.
    + intros e He Hne. now apply recordIdentity_records.
  - intros fuel call r e n Hr He.
    destruct (getEmailsFrom_recorded username call e n fuel _ _ _ _ _ Hr He)
      as [H|H]; [|exact H].
    now apply recorded_nil in H.
Qed.

(** The theorem on a page with a commit of the scanned account and a
    commit of another account. *)
Lemma C10_only_commits_of_scanned_account_witness :
  let alice := GitHubApi.mkGitIdentity "Alice" (Some "alice@acme-corp.io") in
  let bob := GitHubApi.mkGitIdentity "Bob" (Some "bob@gmail.com") in
  let c1 := GitHubApi.mkCommit "a1" (Some "Alice") alice alice in
  let c2 := GitHubApi.mkCommit "b2" (Some "bob") bob bob in
  GitHubApi.harvestCommit "alice" c2 JsMap.empty = JsMap.empty
  /\ Spec.recorded "alice@acme-corp.io" "Alice"
       (GitHubApi.harvestCommit "alice" c1 JsMap.empty).
Proof.
  intros alice bob c1 c2.
  destruct (C10_only_commits_of_scanned_account "alice") as (H1 & H2 & _).
  split.
  - apply (H1 c2 JsMap.empty). reflexivity.
  - apply (H2 c1 JsMap.empty eq_refl). + reflexivity. + discriminate.
Defined.

(** The theorem on the first sight of a work address. *)
Lemma C9_merge_idempotent_witness :
  let a' := fst (GitHubUser.foldCommitEmail true "tool"
                   (GitHubUser.emptyAggregate, 0%nat)
                   ("dev@acme-corp.io", ["Dev"])) in
  JsMap.get "dev@acme-corp.io" (GitHubUser.emailsToName a') = Some ["Dev"].
Proof.
  destruct C9_merge_idempotent as (_ & _ & H & _).
  exact (proj1 (H true "tool" GitHubUser.emptyAggregate 0%nat
                  "dev@acme-corp.io" ["Dev"] eq_refl)).
Defined.

(** ** Malformed addresses *)

Section Malformed.

Import SmartScanner.

Lemma JsMap_keys_set {V} (k k0 : string) (v : V) (m : JsMap.t V) :
  In k (JsMap.keys (JsMap.set k0 v m)) -> k = k0 \/ In k (JsMap.keys m).
Proof.
  unfold JsMap.keys. induction m as [|[k' v'] m IH]; simpl.
  - intros [<-|[]]. now left.
  - destruct (String.eqb_spec k0 k') as [<-|Hne]; simpl.
    + intros [<-|H]; [now left|right; now right].
    + intros [<-|H]; [right; now left|].
      destruct (IH H) as [->|H']; [now left|right; now right].
Qed.

(** deduplicateEmails keeps valid addresses only, and none that is
    noreply. *)
Lemma deduplicateEmails_valid (emailsMap : EmailMap) (e : string) :
  In e (JsMap.keys (deduplicateEmails emailsMap)) ->
  isValid (classifyEmail e) = true /\ isNoreply (classifyEmail e) = false.
Proof.
  unfold deduplicateEmails.
  assert (forall acc : JsMap.t Enriched,
             (forall k, In k (JsMap.keys acc) ->
                        isValid (classifyEmail k) = true
                        /\ isNoreply (classifyEmail k) = false) ->
             In e (JsMap.keys
                     (fold_left
                        (fun enriched entry =>
                           let '(e, names) := entry in
                           let c := classifyEmail e in
                           if negb (isValid c) || isNoreply c then enriched
                           else JsMap.set e
                                  (mkEnriched e names (classification c)
                                     (domain c) (isDisposable c))
                                  enriched)
                        emailsMap acc)) ->
             isValid (classifyEmail e) = true
             /\ isNoreply (classifyEmail e) = false) as H.
  { induction emailsMap as [|[e0 ns] emailsMap IH]; intros acc Hacc; simpl.
    - apply Hacc.
    - apply IH. intros k.
      destruct (isValid (classifyEmail e0)) eqn:Hv;
        destruct (isNoreply (classifyEmail e0)) eqn:Hn; simpl;
        try apply Hacc.
      intros Hk. apply JsMap_keys_set in Hk.
      destruct Hk as [->|Hk]; [now split|now apply Hacc]. }
  apply H. intros k [].
Qed.

End Malformed.

(** C1, on the code. The address root has no at-sign and classifyEmail
    finds it invalid, yet the repository loop enters it in the three maps
    and updateResultEmails reports it among the leaked emails, classified
    personal with no domain: neither tests isValid. deduplicateEmails, the
    other projection of a map of emails, leaves the address out. *)
Theorem C1_malformed_address_is_reported :
  let found := [("tool", [("root", ["Root"])])] in
  JsString.count "@" "root" = 0%nat
  /\ SmartScanner.isValid (SmartScanner.classifyEmail "root") = false
  /\ GitHubUser.aggregate (GitHubUser.scanRepositories true found)
     = GitHubUser.mkAggregate [("root", ["Root"])] [("root", ["tool"])]
         [("root", ["commit"])]
  /\ GitHubUser.result (GitHubUser.scanRepositories true found)
     = GitHubUser.mkResult ["root"]
         [GitHubUser.mkEmailDetail "root" ["Root"] SmartScanner.personal None
            false ["commit"] ["tool"]]
  /\ SmartScanner.deduplicateEmails [("root", ["Root"])] = JsMap.empty.
Proof. intros found. repeat split. Qed.


(** * Further properties of the code *)

(** ** Batches of requests *)

Section Batches.

Import GitHubApi.

Context {U R : Type}.
Variable call : U -> R.
Variable urls : list U.

Lemma slice_window (i c : nat) :
  slice i (i + c) urls = firstn c (skipn i urls).
Proof. unfold slice. now replace (i + c - i)%nat with c by lia. Qed.

Lemma skipn_window (i c : nat) :
  skipn i urls = firstn c (skipn i urls) ++ skipn (i + c) urls.
Proof.
  rewrite (Nat.add_comm i c), <- skipn_skipn. symmetry. apply firstn_skipn.
Qed.

(** The run from index [i] on, for a window of at least one request. *)
Lemma parallelRequestsFrom_run (c : nat) :
  (1 <= c)%nat ->
  forall fuel i results completed progress,
    completed = Nat.min i (List.length urls) ->
    (List.length urls - i < fuel)%nat ->
    exists reports,
      parallelRequestsFrom fuel call urls c true i results completed progress
      = Some (results ++ map call (skipn i urls), progress ++ reports)
      /\ Forall (Spec.progressOk (List.length urls)) reports
      /\ ((i < List.length urls)%nat ->
          exists front,
            reports = front ++ [(List.length urls, List.length urls)])
      /\ List.length reports = ((List.length urls - i + c - 1) / c)%nat.
Proof.
  intros Hc. set (n := List.length urls).
  induction fuel as [|fuel IH]; intros i results completed progress Hcompl Hfuel;
    [lia|].
  cbn [parallelRequestsFrom]. fold n.
  destruct (Nat.ltb_spec i n) as [Hlt|Hge].
  - rewrite slice_window.
    assert (List.length (firstn c (skipn i urls)) = Nat.min c (n - i)) as Hlen
      by (rewrite length_firstn, length_skipn; reflexivity).
    rewrite Hlen.
    destruct (IH (i + c)%nat (results ++ map call (firstn c (skipn i urls)))
                (completed + Nat.min c (n - i))%nat
                (progress ++ [((completed + Nat.min c (n - i))%nat, n)]))
      as (reports & Hrun & Hok & Hlast & Hcount); [lia|lia|].
    exists (((completed + Nat.min c (n - i))%nat, n) :: reports).
    split; [|split; [|split]].
    + rewrite Hrun. f_equal. f_equal.
      * rewrite <- app_assoc, <- map_app. now rewrite <- skipn_window.
      * now rewrite <- app_assoc.
    + constructor; [|exact Hok]. split; [reflexivity|]. simpl. lia.
    + intros _. destruct (Nat.ltb_spec (i + c) n) as [Hmore|Hdone].
      * destruct (Hlast Hmore) as [front ->].
        now exists (((completed + Nat.min c (n - i))%nat, n) :: front).
      * exists []. simpl.
        assert (reports = []) as -> by
          (apply length_zero_iff_nil; rewrite Hcount;
           replace (n - (i + c))%nat with 0%nat by lia;
           apply Nat.div_small; lia).
        do 2 f_equal. lia.
    + cbn [List.length]. rewrite Hcount.
      replace (n - i + c - 1)%nat with ((n - i - 1) + 1 * c)%nat by lia.
      rewrite Nat.div_add by lia.
      destruct (Nat.leb_spec (i + c) n) as [Hmore|Hdone].
      * replace (n - (i + c) + c - 1)%nat with (n - i - 1)%nat by lia. lia.
      * replace (n - (i + c) + c - 1)%nat with (c - 1)%nat by lia.
        rewrite (Nat.div_small (c - 1) c) by lia.
        rewrite (Nat.div_small (n - i - 1) c) by lia. lia.
  - exists []. rewrite skipn_all2 by (fold n; lia). simpl.
    rewrite !app_nil_r. split; [reflexivity|]. split; [constructor|].
    split; [lia|].
    replace (n - i)%nat with 0%nat by lia. simpl.
    symmetry. apply Nat.div_small. lia.
Qed.

(** Without callback the run is the same and reports nothing. *)
Lemma parallelRequestsFrom_silent (c : nat) :
  (1 <= c)%nat ->
  forall fuel i results completed progress,
    (List.length urls - i < fuel)%nat ->
    parallelRequestsFrom fuel call urls c false i results completed progress
    = Some (results ++ map call (skipn i urls), progress).
Proof.
  intros Hc.
  induction fuel as [|fuel IH]; intros i results completed progress Hfuel;
    [lia|].
  cbn [parallelRequestsFrom].
  destruct (Nat.ltb_spec i (List.length urls)) as [Hlt|Hge].
  - rewrite IH by lia. f_equal. f_equal.
    rewrite slice_window, <- app_assoc, <- map_app.
    now rewrite <- skipn_window.
  - rewrite skipn_all2 by lia. simpl. now rewrite app_nil_r.
Qed.

(** With a window of no request the index does not move. *)
Lemma parallelRequestsFrom_stuck (onProgress : bool) :
  forall fuel i results completed progress,
    (i < List.length urls)%nat ->
    parallelRequestsFrom fuel call urls 0 onProgress i results completed progress
    = None.
Proof.
  induction fuel as [|fuel IH]; intros i results completed progress Hlt;
    [reflexivity|].
  cbn [parallelRequestsFrom].
  apply Nat.ltb_lt in Hlt. rewrite Hlt. apply Nat.ltb_lt in Hlt.
  rewrite Nat.add_0_r. now apply IH.
Qed.

End Batches.

(** X1. For a window of at least one request, parallelRequests returns the
    results of the requests in the order of the URLs, whatever the size of
    the window. With a progress callback it reports once per window, the
    number of windows being the ceiling of the number of URLs over the
    size of the window; every report carries the number of URLs as total
    and a completed count that does not exceed it, and the last report
    says that all are completed. Without callback nothing is reported. *)
Theorem X1_parallelRequests_order_and_progress :
  forall (U R : Type) (call : U -> R) (urls : list U) (concurrency fuel : nat),
    (1 <= concurrency)%nat ->
    (List.length urls < fuel)%nat ->
    (exists reports,
        GitHubApi.parallelRequests fuel call urls concurrency true
        = Some (map call urls, reports)
        /\ Forall (Spec.progressOk (List.length urls)) reports
        /\ (urls <> [] ->
            exists front,
              reports = front ++ [(List.length urls, List.length urls)])
        /\ List.length reports
           = ((List.length urls + concurrency - 1) / concurrency)%nat)
    /\ GitHubApi.parallelRequests fuel call urls concurrency false
       = Some (map call urls, []).
Proof.
  intros U R call urls c fuel Hc Hfuel. split.
  - destruct (parallelRequestsFrom_run call urls c Hc fuel 0 [] 0 [])
      as (reports & Hrun & Hok & Hlast & Hcount); [reflexivity|lia|].
    exists reports. rewrite Nat.sub_0_r in Hcount.
    split; [exact Hrun|]. split; [exact Hok|]. split; [|exact Hcount].
    intros Hne. apply Hlast. destruct urls; [contradiction|simpl; lia].
  - apply (parallelRequestsFrom_silent call urls c Hc fuel 0 [] 0 []). lia.
Qed.

(** The theorem on seven URLs in windows of three. *)
Lemma X1_parallelRequests_order_and_progress_witness :
  GitHubApi.parallelRequests 8 (fun u : nat => (u * 2)%nat)
    [1; 2; 3; 4; 5; 6; 7]%nat 3 false
  = Some ([2; 4; 6; 8; 10; 12; 14]%nat, []).
Proof.
  apply (X1_parallelRequests_order_and_progress nat nat
           (fun u : nat => (u * 2)%nat) [1; 2; 3; 4; 5; 6; 7]%nat 3 8).
  - lia.
  - simpl. lia.
Defined.

(** X2. With a window of no request (concurrency 0) and at least one URL,
    the loop of parallelRequests never advances: it returns for no amount
    of fuel. *)
Theorem X2_parallelRequests_zero_window_never_returns :
  forall (U R : Type) (call : U -> R) (urls : list U) (onProgress : bool)
         (fuel : nat),
    urls <> [] ->
    GitHubApi.parallelRequests fuel call urls 0 onProgress = None.
Proof.
  intros U R call urls onProgress fuel Hne.
  apply parallelRequestsFrom_stuck. destruct urls; [contradiction|simpl; lia].
Qed.

(** The theorem on one URL. *)
Lemma X2_parallelRequests_zero_window_never_returns_witness :
  GitHubApi.parallelRequests 1000 (fun u : nat => u) [7%nat] 0 true = None.
Proof.
  apply (X2_parallelRequests_zero_window_never_returns nat nat
           (fun u : nat => u) [7%nat] true 1000).
  discriminate.
Defined.

(** ** Listings walked page by page *)

Section Listings.

Import GitHubApi.

Context {A B : Type}.
Variable transform : A -> B.
Variable call : nat -> ApiResult A.

Lemma seq_snoc_front (page k : nat) (pages : list nat) :
  (pages ++ [page]) ++ seq (page + 1) k = pages ++ seq page (S k).
Proof. rewrite <- app_assoc, Nat.add_1_r. reflexivity. Qed.

(** A walk that returns has requested some full pages and then one page
    that is not full, and has collected the items of these pages. *)
Lemma pagesUntilShort_shape (fuel : nat) :
  forall page acc pages r,
    pagesUntilShort fuel transform call page acc pages = Some r ->
    exists k,
      fetched r = pages ++ seq page (S k)
      /\ collected r
         = acc ++ flat_map (fun p => map transform (Spec.itemsOf (call p)))
                    (seq page (S k))
      /\ (forall p, (page <= p < page + k)%nat -> Spec.isFull (call p) = true)
      /\ Spec.isFull (call (page + k)) = false.
Proof.
  induction fuel as [|fuel IH]; intros page acc pages r; [discriminate|].
  cbn [pagesUntilShort].
  assert (forall items,
             Spec.itemsOf (call page) = items ->
             Spec.isFull (call page) = false ->
             exists k,
               pages ++ [page] = pages ++ seq page (S k)
               /\ acc ++ map transform items
                  = acc ++ flat_map
                             (fun p => map transform (Spec.itemsOf (call p)))
                             (seq page (S k))
               /\ (forall p, (page <= p < page + k)%nat ->
                             Spec.isFull (call p) = true)
               /\ Spec.isFull (call (page + k)) = false) as Hstop.
  { intros items Hi Hs. exists 0%nat. cbn [seq flat_map].
    rewrite Nat.add_0_r, Hi, app_nil_r.
    split; [reflexivity|]. split; [reflexivity|]. split; [|exact Hs].
    intros p Hp. lia. }
  destruct (call page) as [result|msg] eqn:Hc.
  - destruct (Nat.eqb_spec (List.length result) 0) as [Hz|Hnz].
    + intros [= <-]. cbn [fetched collected].
      apply length_zero_iff_nil in Hz. subst result.
      destruct (Hstop [] eq_refl eq_refl) as (k & H1 & H2 & H3).
      exists k. cbn [map] in H2. rewrite app_nil_r in H2. now split.
    + destruct (Nat.ltb_spec (List.length result) 100) as [Hs|Hf].
      * intros [= <-]. cbn [fetched collected].
        apply (Hstop result eq_refl). cbn [Spec.isFull].
        apply Nat.leb_gt. exact Hs.
      * intros H. apply IH in H. destruct H as (k & Hf' & Hcol & Hfull & Hlast).
        exists (S k). rewrite seq_snoc_front in Hf'.
        split; [exact Hf'|]. split; [|split].
        -- rewrite Hcol, <- app_assoc. f_equal.
           change (seq page (S (S k))) with (page :: seq (S page) (S k)).
           cbn [flat_map]. rewrite Hc. cbn [Spec.itemsOf].
           now rewrite Nat.add_1_r.
        -- intros p Hp. destruct (Nat.eq_dec p page) as [->|Hne].
           ++ rewrite Hc. cbn [Spec.isFull]. now apply Nat.leb_le.
           ++ apply Hfull. lia.
        -- replace (page + S k)%nat with (page + 1 + k)%nat by lia. exact Hlast.
  - intros [= <-]. cbn [fetched collected].
    destruct (Hstop [] eq_refl eq_refl) as (k & H1 & H2 & H3).
    exists k. cbn [map] in H2. rewrite app_nil_r in H2. now split.
Qed.

(** The walk returns as soon as the fuel reaches a page that is not full. *)
Lemma pagesUntilShort_returns (fuel : nat) :
  forall page acc pages,
    (exists q, (page <= q < page + fuel)%nat /\ Spec.isFull (call q) = false) ->
    exists r, pagesUntilShort fuel transform call page acc pages = Some r.
Proof.
  induction fuel as [|fuel IH]; intros page acc pages (q & Hq & Hshort); [lia|].
  cbn [pagesUntilShort].
  destruct (call page) as [result|msg] eqn:Hc; [|eauto].
  destruct (List.length result =? 0)%nat; [eauto|].
  destruct (Nat.ltb_spec (List.length result) 100) as [Hs|Hf]; [eauto|].
  apply IH. exists q. split; [|exact Hshort].
  assert (q <> page); [|lia].
  intros ->. rewrite Hc in Hshort. cbn [Spec.isFull] in Hshort.
  apply Nat.leb_gt in Hshort. lia.
Qed.

End Listings.

Section BoundedListings.

Import GitHubApi.

Context {A : Type}.
Variable call : nat -> ApiResult A.

(** The walk with a page limit requests consecutive pages, no more than
    the limit, and collects their items. *)
Lemma pagesUpTo_shape (remaining : nat) :
  forall page acc pages,
    exists k,
      (k <= remaining)%nat
      /\ fetched (pagesUpTo remaining call page acc pages)
         = pages ++ seq page k
      /\ collected (pagesUpTo remaining call page acc pages)
         = acc ++ flat_map (fun p => Spec.itemsOf (call p)) (seq page k).
Proof.
  induction remaining as [|remaining IH]; intros page acc pages.
  - exists 0%nat. simpl. now rewrite !app_nil_r.
  - cbn [pagesUpTo].
    assert (exists k, (k <= S remaining)%nat
                      /\ pages ++ [page] = pages ++ seq page k
                      /\ acc ++ Spec.itemsOf (call page)
                         = acc ++ flat_map (fun p => Spec.itemsOf (call p))
                                    (seq page k)) as Hone.
    { exists 1%nat. simpl. rewrite app_nil_r. repeat split. lia. }
    destruct (call page) as [result|msg] eqn:Hc.
    + destruct (Nat.eqb_spec (List.length result) 0) as [Hz|Hnz].
      * apply length_zero_iff_nil in Hz. subst result.
        destruct Hone as (k & Hk & Hf & Hcol). exists k.
        cbn [fetched collected].
        simpl in Hcol. rewrite app_nil_r in Hcol. now repeat split.
      * destruct (List.length result <? 100)%nat.
        -- destruct Hone as (k & Hk & Hf & Hcol). exists k. now repeat split.
        -- destruct (IH (page + 1)%nat (acc ++ result) (pages ++ [page]))
             as (k & Hk & Hf & Hcol).
           exists (S k). split; [lia|]. rewrite Hf, Hcol. split.
           ++ apply seq_snoc_front.
           ++ rewrite <- app_assoc. f_equal.
              change (seq page (S k)) with (page :: seq (S page) k).
              cbn [flat_map]. rewrite Hc. cbn [Spec.itemsOf].
              now rewrite Nat.add_1_r.
    + destruct Hone as (k & Hk & Hf & Hcol). exists k.
      cbn [fetched collected]. simpl in Hcol. rewrite app_nil_r in Hcol.
      now repeat split.
Qed.

(** Within the page limit the two walks agree. *)
Lemma pagesUpTo_agrees (fuel : nat) :
  forall remaining page acc pages r,
    pagesUntilShort fuel (fun a => a) call page acc pages = Some r ->
    (List.length (fetched r) <= List.length pages + remaining)%nat ->
    pagesUpTo remaining call page acc pages = r.
Proof.
  induction fuel as [|fuel IH]; intros remaining page acc pages r H Hlen;
    [discriminate|].
  pose proof (pagesUntilShort_shape _ call _ _ _ _ _ H) as (k & Hf & _).
  rewrite Hf, length_app, length_seq in Hlen.
  destruct remaining as [|remaining]; [lia|].
  cbn [pagesUntilShort] in H. cbn [pagesUpTo].
  destruct (call page) as [result|msg]; [|now injection H].
  destruct (List.length result =? 0)%nat; [now injection H|].
  rewrite map_id in H.
  destruct (List.length result <? 100)%nat; [now injection H|].
  apply (IH _ _ _ _ _ H).
  pose proof (pagesUntilShort_shape _ call _ _ _ _ _ H) as (k' & Hf' & _).
  rewrite Hf in Hf'. rewrite Hf, length_app, length_seq.
  rewrite length_app. simpl. 
  assert (List.length (pages ++ seq page (S k))
          = List.length ((pages ++ [page]) ++ seq (page + 1) (S k'))) as E
    by now rewrite Hf'.
  rewrite !length_app, !length_seq in E. simpl in E. lia.
Qed.

End BoundedListings.

(** X3. getUserGists, and with it getRepoContributors and
    getRepositoriesDetailed, which run the same loop, requests the pages 1,
    2, ... in order and stops at the first page that is not an array of at
    least 100 items: a walk that returns has requested some full pages and
    one last page that is not full, and returns the items of all of them
    in order, repeated items included. It returns as soon as the fuel
    reaches such a page. *)
Theorem X3_getUserGists_walk :
  forall (G : Type) (call : nat -> GitHubApi.ApiResult G),
    (forall fuel r,
        GitHubApi.getUserGists fuel call = Some r ->
        exists k,
          GitHubApi.fetched r = seq 1 (S k)
          /\ GitHubApi.collected r
             = flat_map (fun p => Spec.itemsOf (call p)) (seq 1 (S k))
          /\ (forall p, (1 <= p <= k)%nat -> Spec.isFull (call p) = true)
          /\ Spec.isFull (call (S k)) = false)
    /\ (forall q fuel,
          (1 <= q <= fuel)%nat -> Spec.isFull (call q) = false ->
          exists r, GitHubApi.getUserGists fuel call = Some r).
Proof.
  intros G call. split.
  - intros fuel r H. apply pagesUntilShort_shape in H.
    destruct H as (k & Hf & Hcol & Hfull & Hlast). exists k.
    split; [exact Hf|]. split; [|split].
    + rewrite Hcol. simpl. f_equal; [apply map_id|].
      apply flat_map_ext. intros p. apply map_id.
    + intros p Hp. apply Hfull. lia.
    + exact Hlast.
  - intros q fuel Hq Hshort. apply pagesUntilShort_returns.
    exists q. split; [lia|exact Hshort].
Qed.

(** The theorem on a listing whose first page is empty. *)
Lemma X3_getUserGists_walk_witness :
  exists r,
    GitHubApi.getUserGists 1 (fun _ : nat => GitHubApi.Items (@nil nat)) = Some r.
Proof.
  destruct (X3_getUserGists_walk nat (fun _ : nat => GitHubApi.Items (@nil nat)))
    as [_ H].
  apply (H 1%nat 1%nat).
  - lia.
  - reflexivity.
Defined.

(** X4. getUserEvents, and getUserStarred, which runs the same loop,
    requests the pages 1, 2, ... in order and never more than maxPages of
    them, and returns the items of the requested pages in order. When the
    walk without page limit ends within maxPages pages, the walk with the
    limit returns the same. *)
Theorem X4_getUserEvents_page_limit :
  forall (E : Type) (call : nat -> GitHubApi.ApiResult E) (maxPages : nat),
    (exists k,
        (k <= maxPages)%nat
        /\ GitHubApi.fetched (GitHubApi.getUserEvents maxPages call) = seq 1 k
        /\ GitHubApi.collected (GitHubApi.getUserEvents maxPages call)
           = flat_map (fun p => Spec.itemsOf (call p)) (seq 1 k))
    /\ (forall fuel r,
          GitHubApi.getUserGists fuel call = Some r ->
          (List.length (GitHubApi.fetched r) <= maxPages)%nat ->
          GitHubApi.getUserEvents maxPages call = r).
Proof.
  intros E call maxPages. split.
  - destruct (pagesUpTo_shape call maxPages 1 [] []) as (k & Hk & Hf & Hc).
    exists k. now repeat split.
  - intros fuel r H Hlen. now apply (pagesUpTo_agrees call fuel).
Qed.

(** The theorem on a listing of one short page, with a limit of three
    pages. *)
Lemma X4_getUserEvents_page_limit_witness :
  GitHubApi.getUserEvents 3 (fun _ : nat => GitHubApi.Items [5%nat])
  = GitHubApi.mkCollected [5%nat] [1%nat].
Proof.
  destruct (X4_getUserEvents_page_limit nat
              (fun _ : nat => GitHubApi.Items [5%nat]) 3) as [_ H].
  apply (H 1%nat (GitHubApi.mkCollected [5%nat] [1%nat])).
  - reflexivity.
  - simpl. lia.
Defined.

(** ** What the collectors with duplicate check return *)

Section CollectorInvariants.

Import GitHubApi.

(** The names seen are the names of the repositories collected, and no
    name is there twice. *)
Lemma walkRepositories_names (result : list RawRepository) :
  forall (seen : JsSet.t) (repos : list Repository),
    seen = map repo_name repos -> NoDup seen ->
    repositoriesSeen (walkRepositories result seen repos)
    = map repo_name (repositories (walkRepositories result seen repos))
    /\ NoDup (repositoriesSeen (walkRepositories result seen repos))
    /\ (forall x, In x (repositories (walkRepositories result seen repos)) ->
          In x repos
          \/ exists raw, In raw result
                         /\ x = mkRepository (raw_name raw) (raw_fork raw)).
Proof.
  induction result as [|raw result IH]; intros seen repos Hseen Hnd.
  - simpl. repeat split; auto.
  - cbn [walkRepositories].
    destruct (JsSet.has (raw_name raw) seen) eqn:E.
    + simpl. repeat split; auto.
    + apply JsSet_has_false in E. rewrite (JsSet_add_new _ _ E).
      destruct (IH (seen ++ [raw_name raw])
                  (repos ++ [mkRepository (raw_name raw) (raw_fork raw)]))
        as (H1 & H2 & H3).
      * rewrite map_app, Hseen. reflexivity.
      * apply NoDup_app; [exact Hnd|repeat constructor; intros []|].
        intros a Ha [<-|[]]. contradiction.
      * split; [exact H1|]. split; [exact H2|].
        intros x Hx. destruct (H3 x Hx) as [Hin|(raw' & Hin & ->)].
        -- apply in_app_or in Hin. destruct Hin as [Hin|[<-|[]]]; [now left|].
           right. exists raw. split; [now left|reflexivity].
        -- right. exists raw'. split; [now right|reflexivity].
Qed.

Lemma getRepositoriesFrom_names (call : nat -> ApiResult RawRepository)
    (fuel : nat) :
  forall page seen repos pages r,
    seen = map repo_name repos -> NoDup seen ->
    getRepositoriesFrom fuel call page seen repos pages = Some r ->
    NoDup (map repo_name (collected r))
    /\ (forall x, In x (collected r) ->
          In x repos
          \/ exists p result raw,
               call p = Items result /\ In raw result
               /\ x = mkRepository (raw_name raw) (raw_fork raw)).
Proof.
  induction fuel as [|fuel IH]; intros page seen repos pages r Hseen Hnd;
    [discriminate|].
  cbn [getRepositoriesFrom].
  destruct (call page) as [result|msg] eqn:Hc.
  - destruct (walkRepositories_names result seen repos Hseen Hnd)
      as (H1 & H2 & H3).
    assert (forall x,
               In x (repositories (walkRepositories result seen repos)) ->
               In x repos
               \/ exists p result raw,
                    call p = Items result /\ In raw result
                    /\ x = mkRepository (raw_name raw) (raw_fork raw)) as H3'.
    { intros x Hx. destruct (H3 x Hx) as [Hin|(raw & Hin & ->)]; [now left|].
      right. exists page, result, raw. now repeat split. }
    destruct (_ && _).
    + intros H. destruct (IH _ _ _ _ _ H1 H2 H) as [Hn Hfrom].
      split; [exact Hn|]. intros x Hx.
      destruct (Hfrom x Hx) as [Hin|Hin]; [now apply H3'|now right].
    + intros [= <-]. cbn [collected]. split; [|exact H3'].
      rewrite <- H1. exact H2.
  - intros [= <-]. cbn [collected]. split; [|now left].
    rewrite <- Hseen. exact Hnd.
Qed.

(** The walk of getRepositories requests consecutive pages, and every
    page before the last is an array of exactly 100 items. *)
Lemma getRepositoriesFrom_pages (call : nat -> ApiResult RawRepository)
    (fuel : nat) :
  forall page seen repos pages r,
    getRepositoriesFrom fuel call page seen repos pages = Some r ->
    exists k,
      fetched r = pages ++ seq page (S k)
      /\ forall p, (page <= p < page + k)%nat ->
           exists result, call p = Items result
                          /\ List.length result = 100%nat.
Proof.
  induction fuel as [|fuel IH]; intros page seen repos pages r; [discriminate|].
  cbn [getRepositoriesFrom].
  assert (exists k,
             pages ++ [page] = pages ++ seq page (S k)
             /\ forall p, (page <= p < page + k)%nat ->
                  exists result, call p = Items result
                                 /\ List.length result = 100%nat) as Hstop.
  { exists 0%nat. split; [reflexivity|]. intros p Hp. lia. }
  destruct (call page) as [result|msg] eqn:Hc; [|now intros [= <-]].
  destruct (continueLoop _); cbn [andb]; [|now intros [= <-]].
  destruct (Nat.eqb_spec (List.length result) 100) as [Hl|Hl];
    [|now intros [= <-]].
  intros H. apply IH in H. destruct H as (k & Hf & Hfull).
  exists (S k). rewrite seq_snoc_front in Hf. split; [exact Hf|].
  intros p Hp. destruct (Nat.eq_dec p page) as [->|Hne].
  - exists result. now split.
  - apply Hfull. lia.
Qed.

Lemma getEmailsFrom_pages (username : string) (call : nat -> ApiResult Commit)
    (fuel : nat) :
  forall page seen emails pages r,
    getEmailsFrom fuel username call page seen emails pages = Some r ->
    exists k,
      fetched r = pages ++ seq page (S k)
      /\ forall p, (page <= p < page + k)%nat ->
           exists result, call p = Items result
                          /\ List.length result = 100%nat.
Proof.
  induction fuel as [|fuel IH]; intros page seen emails pages r;
    [discriminate|].
  cbn [getEmailsFrom].
  assert (exists k,
             pages ++ [page] = pages ++ seq page (S k)
             /\ forall p, (page <= p < page + k)%nat ->
                  exists result, call p = Items result
                                 /\ List.length result = 100%nat) as Hstop.
  { exists 0%nat. split; [reflexivity|]. intros p Hp. lia. }
  destruct (call page) as [result|msg] eqn:Hc; [|now intros [= <-]].
  destruct (continueCommits _); cbn [andb]; [|now intros [= <-]].
  destruct (Nat.eqb_spec (List.length result) 100) as [Hl|Hl];
    [|now intros [= <-]].
  intros H. apply IH in H. destruct H as (k & Hf & Hfull).
  exists (S k). rewrite seq_snoc_front in Hf. split; [exact Hf|].
  intros p Hp. destruct (Nat.eq_dec p page) as [->|Hne].
  - exists result. now split.
  - apply Hfull. lia.
Qed.

(** What the walk of getRepositories returns: the repositories collected
    by walking the requested pages in order, the last one included. *)
Lemma getRepositoriesFrom_collected (call : nat -> ApiResult RawRepository)
    (fuel : nat) :
  forall page seen repos pages r,
    getRepositoriesFrom fuel call page seen repos pages = Some r ->
    exists k,
      fetched r = pages ++ seq page (S k)
      /\ (forall p, (page <= p < page + k)%nat ->
            exists result, call p = Items result
                           /\ List.length result = 100%nat)
      /\ collected r
         = repositories
             (Spec.walkRepositoryPages call (seq page (S k)) seen repos).
Proof.
  induction fuel as [|fuel IH]; intros page seen repos pages r; [discriminate|].
  cbn [getRepositoriesFrom].
  destruct (call page) as [result|msg] eqn:Hc.
  - assert (Spec.walkRepositoryPages call [page] seen repos
            = walkRepositories result seen repos) as Hone.
    { unfold Spec.walkRepositoryPages, Spec.repositoryPage.
      cbn [fold_left repositoriesSeen repositories]. now rewrite Hc. }
    destruct (continueLoop (walkRepositories result seen repos)) eqn:Hw;
      cbn [andb].
    + destruct (Nat.eqb_spec (List.length result) 100) as [Hl|Hl].
      * intros H. apply IH in H. destruct H as (k & Hf & Hfull & Hcol).
        exists (S k). rewrite seq_snoc_front in Hf.
        split; [exact Hf|]. split.
        { intros p Hp. destruct (Nat.eq_dec p page) as [->|Hne].
          - exists result. now split.
          - apply Hfull. lia. }
        rewrite Hcol. rewrite Nat.add_1_r.
        change (seq page (S (S k))) with (page :: seq (S page) (S k)).
        unfold Spec.walkRepositoryPages. cbn [fold_left].
        f_equal. f_equal. unfold Spec.repositoryPage.
        cbn [repositoriesSeen repositories]. rewrite Hc. cbn [Spec.itemsOf].
        destruct (walkRepositories result seen repos) as [s0 r0 c0].
        cbn in Hw. cbn. now rewrite Hw.
      * intros [= <-]. exists 0%nat. cbn [fetched collected seq].
        split; [reflexivity|]. split; [intros p Hp; lia|].
        now rewrite Hone.
    + intros [= <-]. exists 0%nat. cbn [fetched collected seq].
      split; [reflexivity|]. split; [intros p Hp; lia|].
      now rewrite Hone.
  - intros [= <-]. exists 0%nat. cbn [fetched collected seq].
    split; [reflexivity|]. split; [intros p Hp; lia|].
    unfold Spec.walkRepositoryPages, Spec.repositoryPage.
    cbn [fold_left repositoriesSeen repositories]. now rewrite Hc.
Qed.

Lemma getEmailsFrom_collected (username : string)
    (call : nat -> ApiResult Commit) (fuel : nat) :
  forall page seen emails pages r,
    getEmailsFrom fuel username call page seen emails pages = Some r ->
    exists k,
      fetched r = pages ++ seq page (S k)
      /\ (forall p, (page <= p < page + k)%nat ->
            exists result, call p = Items result
                           /\ List.length result = 100%nat)
      /\ collected r
         = emailsToName
             (Spec.walkCommitPages username call (seq page (S k)) seen emails).
Proof.
  induction fuel as [|fuel IH]; intros page seen emails pages r;
    [discriminate|].
  cbn [getEmailsFrom].
  destruct (call page) as [result|msg] eqn:Hc.
  - assert (Spec.walkCommitPages username call [page] seen emails
            = walkCommits username result seen emails) as Hone.
    { unfold Spec.walkCommitPages, Spec.commitPage.
      cbn [fold_left seenCommits emailsToName]. now rewrite Hc. }
    destruct (continueCommits (walkCommits username result seen emails))
      eqn:Hw; cbn [andb].
    + destruct (Nat.eqb_spec (List.length result) 100) as [Hl|Hl].
      * intros H. apply IH in H. destruct H as (k & Hf & Hfull & Hcol).
        exists (S k). rewrite seq_snoc_front in Hf.
        split; [exact Hf|]. split.
        { intros p Hp. destruct (Nat.eq_dec p page) as [->|Hne].
          - exists result. now split.
          - apply Hfull. lia. }
        rewrite Hcol. rewrite Nat.add_1_r.
        change (seq page (S (S k))) with (page :: seq (S page) (S k)).
        unfold Spec.walkCommitPages. cbn [fold_left].
        f_equal. f_equal. unfold Spec.commitPage.
        cbn [seenCommits emailsToName]. rewrite Hc. cbn [Spec.itemsOf].
        destruct (walkCommits username result seen emails) as [s0 m0 c0].
        cbn in Hw. cbn. now rewrite Hw.
      * intros [= <-]. exists 0%nat. cbn [fetched collected seq].
        split; [reflexivity|]. split; [intros p Hp; lia|].
        now rewrite Hone.
    + intros [= <-]. exists 0%nat. cbn [fetched collected seq].
      split; [reflexivity|]. split; [intros p Hp; lia|].
      now rewrite Hone.
  - intros [= <-]. exists 0%nat. cbn [fetched collected seq].
    split; [reflexivity|]. split; [intros p Hp; lia|].
    unfold Spec.walkCommitPages, Spec.commitPage.
    cbn [fold_left seenCommits emailsToName]. now rewrite Hc.
Qed.

(** A last page that is an error result adds nothing to what the pages
    before it gave. *)
Lemma walkRepositoryPages_error (call : nat -> ApiResult RawRepository)
    (k : nat) (msg : option string) (seen : JsSet.t)
    (repos : list Repository) :
  call (S k) = ErrorResult msg ->
  repositories (Spec.walkRepositoryPages call (seq 1 (S k)) seen repos)
  = repositories (Spec.walkRepositoryPages call (seq 1 k) seen repos).
Proof.
  intros Hc. rewrite seq_S. unfold Spec.walkRepositoryPages.
  rewrite fold_left_app. cbn [fold_left Nat.add].
  unfold Spec.repositoryPage at 1. rewrite Hc. reflexivity.
Qed.

Lemma walkCommitPages_error (username : string)
    (call : nat -> ApiResult Commit)
    (k : nat) (msg : option string) (seen : JsSet.t) (emails : EmailMap) :
  call (S k) = ErrorResult msg ->
  emailsToName (Spec.walkCommitPages username call (seq 1 (S k)) seen emails)
  = emailsToName (Spec.walkCommitPages username call (seq 1 k) seen emails).
Proof.
  intros Hc. rewrite seq_S. unfold Spec.walkCommitPages.
  rewrite fold_left_app. cbn [fold_left Nat.add].
  unfold Spec.commitPage at 1. rewrite Hc. reflexivity.
Qed.

(** The walks return once a page that is not an array of exactly 100 items
    is within the fuel. *)
Lemma getRepositoriesFrom_returns (call : nat -> ApiResult RawRepository)
    (k : nat) :
  forall fuel page seen repos pages,
    Spec.endsWalk (call (page + k)%nat) = true ->
    (k < fuel)%nat ->
    exists r,
      getRepositoriesFrom fuel call page seen repos pages = Some r
      /\ (List.length (fetched r) <= List.length pages + S k)%nat.
Proof.
  induction k as [|k IH]; intros fuel page seen repos pages Hend Hfuel;
    (destruct fuel as [|fuel]; [lia|]); cbn [getRepositoriesFrom].
  - rewrite Nat.add_0_r in Hend.
    destruct (call page) as [result|msg].
    + cbn [Spec.endsWalk] in Hend. apply negb_true_iff in Hend.
      rewrite Hend, andb_false_r. eexists. split; [reflexivity|].
      cbn [fetched]. rewrite length_app. cbn [List.length]. lia.
    + eexists. split; [reflexivity|].
      cbn [fetched]. rewrite length_app. cbn [List.length]. lia.
  - destruct (call page) as [result|msg].
    + destruct (_ && _).
      * replace (page + S k)%nat with (page + 1 + k)%nat in Hend by lia.
        destruct (IH fuel (page + 1)%nat
                    (repositoriesSeen (walkRepositories result seen repos))
                    (repositories (walkRepositories result seen repos))
                    (pages ++ [page]) Hend ltac:(lia)) as (r & Hr & Hlen).
        exists r. split; [exact Hr|].
        rewrite length_app in Hlen. cbn [List.length] in Hlen. lia.
      * eexists. split; [reflexivity|].
        cbn [fetched]. rewrite length_app. cbn [List.length]. lia.
    + eexists. split; [reflexivity|].
      cbn [fetched]. rewrite length_app. cbn [List.length]. lia.
Qed.

Lemma getEmailsFrom_returns (username : string)
    (call : nat -> ApiResult Commit) (k : nat) :
  forall fuel page seen emails pages,
    Spec.endsWalk (call (page + k)%nat) = true ->
    (k < fuel)%nat ->
    exists r,
      getEmailsFrom fuel username call page seen emails pages = Some r
      /\ (List.length (fetched r) <= List.length pages + S k)%nat.
Proof.
  induction k as [|k IH]; intros fuel page seen emails pages Hend Hfuel;
    (destruct fuel as [|fuel]; [lia|]); cbn [getEmailsFrom].
  - rewrite Nat.add_0_r in Hend.
    destruct (call page) as [result|msg].
    + cbn [Spec.endsWalk] in Hend. apply negb_true_iff in Hend.
      rewrite Hend, andb_false_r. eexists. split; [reflexivity|].
      cbn [fetched]. rewrite length_app. cbn [List.length]. lia.
    + eexists. split; [reflexivity|].
      cbn [fetched]. rewrite length_app. cbn [List.length]. lia.
  - destruct (call page) as [result|msg].
    + destruct (_ && _).
      * replace (page + S k)%nat with (page + 1 + k)%nat in Hend by lia.
        destruct (IH fuel (page + 1)%nat
                    (seenCommits (walkCommits username result seen emails))
                    (emailsToName (walkCommits username result seen emails))
                    (pages ++ [page]) Hend ltac:(lia)) as (r & Hr & Hlen).
        exists r. split; [exact Hr|].
        rewrite length_app in Hlen. cbn [List.length] in Hlen. lia.
      * eexists. split; [reflexivity|].
        cbn [fetched]. rewrite length_app. cbn [List.length]. lia.
    + eexists. split; [reflexivity|].
      cbn [fetched]. rewrite length_app. cbn [List.length]. lia.
Qed.

End CollectorInvariants.

(** X5. The list that getRepositories returns never holds a repository
    name twice, whatever the pages hold, and each of its elements is made
    of the name and the fork flag of an item of a page of the listing. *)
Theorem X5_getRepositories_distinct_names :
  forall (call : nat -> GitHubApi.ApiResult GitHubApi.RawRepository)
         (fuel : nat) (r : GitHubApi.Collected (list GitHubApi.Repository)),
    GitHubApi.getRepositories fuel call = Some r ->
    NoDup (map GitHubApi.repo_name (GitHubApi.collected r))
    /\ (forall x, In x (GitHubApi.collected r) ->
          exists page result raw,
            call page = GitHubApi.Items result /\ In raw result
            /\ x = GitHubApi.mkRepository (GitHubApi.raw_name raw)
                     (GitHubApi.raw_fork raw)).
Proof.
  intros call fuel r H.
  destruct (getRepositoriesFrom_names call fuel 1 [] [] [] r eq_refl
              (NoDup_nil _) H) as [Hn Hfrom].
  split; [exact Hn|]. intros x Hx.
  destruct (Hfrom x Hx) as [[]|Hin]. exact Hin.
Qed.

(** The theorem on a listing that serves the same two repositories on
    every page. *)
Lemma X5_getRepositories_distinct_names_witness :
  NoDup (map GitHubApi.repo_name
           [GitHubApi.mkRepository "a" false; GitHubApi.mkRepository "b" true]).
Proof.
  apply (X5_getRepositories_distinct_names
           (fun _ => GitHubApi.Items
                       [GitHubApi.mkRawRepository "a" false;
                        GitHubApi.mkRawRepository "b" true;
                        GitHubApi.mkRawRepository "a" true])
           1 (GitHubApi.mkCollected
                [GitHubApi.mkRepository "a" false;
                 GitHubApi.mkRepository "b" true] [1%nat])).
  reflexivity.
Defined.

(** X6. getRepositories and getEmails request the pages 1, 2, ... in
    order, and go past a page only when it is an array of exactly 100
    items: an error result, or a page of any other length, is the last
    page requested. What they return is what the walk of the requested
    pages collected, in order and from nothing; when the last page is an
    error result, that is what the pages before it gave. And they do
    return: when page k+1 is not an array of exactly 100 items, a run with
    more than k iterations ends after at most k+1 requests. *)
Theorem X6_collectors_stop_at_first_odd_page :
  (forall (call : nat -> GitHubApi.ApiResult GitHubApi.RawRepository)
          (fuel : nat) (r : GitHubApi.Collected (list GitHubApi.Repository)),
      GitHubApi.getRepositories fuel call = Some r ->
      exists k,
        GitHubApi.fetched r = seq 1 (S k)
        /\ (forall p, (1 <= p <= k)%nat ->
              exists result, call p = GitHubApi.Items result
                             /\ List.length result = 100%nat)
        /\ GitHubApi.collected r
           = GitHubApi.repositories
               (Spec.walkRepositoryPages call (seq 1 (S k)) JsSet.empty [])
        /\ (forall msg, call (S k) = GitHubApi.ErrorResult msg ->
              GitHubApi.collected r
              = GitHubApi.repositories
                  (Spec.walkRepositoryPages call (seq 1 k) JsSet.empty [])))
  /\ (forall (username : string)
             (call : nat -> GitHubApi.ApiResult GitHubApi.Commit)
             (fuel : nat) (r : GitHubApi.Collected EmailMap),
        GitHubApi.getEmails fuel username call = Some r ->
        exists k,
          GitHubApi.fetched r = seq 1 (S k)
          /\ (forall p, (1 <= p <= k)%nat ->
                exists result, call p = GitHubApi.Items result
                               /\ List.length result = 100%nat)
          /\ GitHubApi.collected r
             = GitHubApi.emailsToName
                 (Spec.walkCommitPages username call (seq 1 (S k))
                    JsSet.empty JsMap.empty)
          /\ (forall msg, call (S k) = GitHubApi.ErrorResult msg ->
                GitHubApi.collected r
                = GitHubApi.emailsToName
                    (Spec.walkCommitPages username call (seq 1 k)
                       JsSet.empty JsMap.empty)))
  /\ (forall (call : nat -> GitHubApi.ApiResult GitHubApi.RawRepository)
             (k fuel : nat),
        Spec.endsWalk (call (S k)) = true -> (k < fuel)%nat ->
        exists r, GitHubApi.getRepositories fuel call = Some r
                  /\ (List.length (GitHubApi.fetched r) <= S k)%nat)
  /\ (forall (username : string)
             (call : nat -> GitHubApi.ApiResult GitHubApi.Commit)
             (k fuel : nat),
        Spec.endsWalk (call (S k)) = true -> (k < fuel)%nat ->
        exists r, GitHubApi.getEmails fuel username call = Some r
                  /\ (List.length (GitHubApi.fetched r) <= S k)%nat).
Proof.
  split; [|split; [|split]].
  - intros call fuel r H. apply getRepositoriesFrom_collected in H.
    destruct H as (k & Hf & Hfull & Hcol). exists k.
    split; [exact Hf|]. split; [intros p Hp; apply Hfull; lia|].
    split; [exact Hcol|].
    intros msg Hmsg. rewrite Hcol.
    now apply (walkRepositoryPages_error call k msg).
  - intros username call fuel r H. apply getEmailsFrom_collected in H.
    destruct H as (k & Hf & Hfull & Hcol). exists k.
    split; [exact Hf|]. split; [intros p Hp; apply Hfull; lia|].
    split; [exact Hcol|].
    intros msg Hmsg. rewrite Hcol.
    now apply (walkCommitPages_error username call k msg).
  - intros call k fuel Hend Hfuel.
    apply (getRepositoriesFrom_returns call k fuel 1%nat JsSet.empty [] []);
      assumption.
  - intros username call k fuel Hend Hfuel.
    apply (getEmailsFrom_returns username call k fuel 1%nat JsSet.empty
             JsMap.empty []); assumption.
Qed.

(** The theorem on a listing whose first page holds 100 repositories and
    whose second request is answered by an error object: both pages are
    requested, and the 100 repositories of the first are returned. *)
Lemma X6_collectors_stop_at_first_odd_page_witness :
  let call := fun p : nat =>
    if (p =? 1)%nat then GitHubApi.Items (Spec.xPage 0 100)
    else GitHubApi.ErrorResult (Some "Not Found") in
  let r := GitHubApi.mkCollected (Spec.toRepositories (Spec.xPage 0 100))
             [1%nat; 2%nat] in
  GitHubApi.getRepositories 5 call = Some r
  /\ GitHubApi.collected r
     = GitHubApi.repositories
         (Spec.walkRepositoryPages call (seq 1 1) JsSet.empty []).
Proof.
  intros call r.
  assert (GitHubApi.getRepositories 5 call = Some r) as Hrun
    by (vm_compute; reflexivity).
  split; [exact Hrun|].
  destruct X6_collectors_stop_at_first_odd_page as [H _].
  destruct (H call 5%nat r Hrun) as (k & Hk & _ & _ & Herr).
  destruct k as [|[|k]]; [discriminate Hk| |discriminate Hk].
  apply (Herr (Some "Not Found")). reflexivity.
Defined.

(** ** What a map of emails records *)

Section Recording.

(** After the merge of names under an email the map records what it
    recorded before and these names under this email, nothing else. *)
Lemma recorded_merge (e n e0 : string) (xs : list string) (m : EmailMap) :
  Spec.recorded e n (addAllAt e0 xs (ensureKey e0 m))
  <-> Spec.recorded e n m \/ (e = e0 /\ In n xs).
Proof.
  split.
  - intros (s & Hget & Hin). rewrite get_merge in Hget.
    destruct (String.eqb_spec e e0) as [->|Hne].
    + injection Hget as <-.
      assert (In n (JsSet.addAll xs (GitHubUser.getOrEmpty e0 m))) as H
        by (apply Hin; now left).
      apply JsSet_addAll_In in H. destruct H as [H|H]; [|now right].
      left. unfold GitHubUser.getOrEmpty in H.
      destruct (JsMap.get e0 m) as [s0|] eqn:E; [|contradiction].
      exists s0. split; [exact E|]. now intros y [<-|[]].
    + left. exists s. now split.
  - intros [H|[-> H]].
    + now apply holds_mono.
    + destruct (holds_after_addAllAt e0 xs m) as (s & Hget & Hin).
      exists s. split; [exact Hget|]. intros y [<-|[]]. now apply Hin.
Qed.

Lemma recorded_mergeOne (e n e0 x : string) (m : EmailMap) :
  Spec.recorded e n (addAt e0 x (ensureKey e0 m))
  <-> Spec.recorded e n m \/ (e = e0 /\ n = x).
Proof.
  change (addAt e0 x (ensureKey e0 m)) with (addAllAt e0 [x] (ensureKey e0 m)).
  rewrite recorded_merge. simpl. intuition congruence.
Qed.

(** The same for a loop whose turns each merge what they observe. *)
Lemma recorded_fold {X} (step : EmailMap -> X -> EmailMap)
    (obs : X -> string -> string -> Prop) :
  (forall m x e n,
      Spec.recorded e n (step m x) <-> Spec.recorded e n m \/ obs x e n) ->
  forall (l : list X) (m : EmailMap) (e n : string),
    Spec.recorded e n (fold_left step l m)
    <-> Spec.recorded e n m \/ exists x, In x l /\ obs x e n.
Proof.
  intros Hstep. induction l as [|x l IH]; intros m e n; simpl.
  - split; [now left|]. intros [H|(x & [] & _)]. exact H.
  - rewrite IH, Hstep. split.
    + intros [[H|H]|(y & Hy & H)]; [now left| |].
      * right. exists x. split; [now left|exact H].
      * right. exists y. split; [now right|exact H].
    + intros [H|(y & [<-|Hy] & H)].
      * left. now left.
      * left. now right.
      * right. now exists y.
Qed.

Lemma truthy_iff (s : string) : JsString.truthy s = true <-> s <> "".
Proof.
  unfold JsString.truthy. rewrite negb_true_iff. apply String.eqb_neq.
Qed.

(** The merge of a name under a non-empty email keeps the keys non-empty
    and their sets of names inhabited. *)
Lemma wellKeyed_mergeOne (e0 x : string) (m : EmailMap) :
  e0 <> "" -> Spec.wellKeyed m ->
  Spec.wellKeyed (addAt e0 x (ensureKey e0 m)).
Proof.
  intros He0 Hm e ns.
  change (addAt e0 x (ensureKey e0 m)) with (addAllAt e0 [x] (ensureKey e0 m)).
  rewrite get_merge.
  destruct (String.eqb_spec e e0) as [->|Hne]; [|apply Hm].
  intros [= <-]. split; [exact He0|].
  assert (In x (JsSet.addAll [x] (GitHubUser.getOrEmpty e0 m))) as H
    by (apply JsSet_addAll_In; right; now left).
  intros Hnil. unfold JsSet.addAll in H, Hnil. cbn [fold_left] in H, Hnil.
  rewrite Hnil in H. exact H.
Qed.

End Recording.

Section CollectedEmails.

Import GitHubApi.

Variable username : string.

Lemma wellKeyed_recordIdentity (i : GitIdentity) (m : EmailMap) :
  Spec.wellKeyed m -> Spec.wellKeyed (recordIdentity i m).
Proof.
  intros Hm. unfold recordIdentity.
  destruct (git_email i) as [e|]; [|exact Hm].
  destruct (JsString.truthy e) eqn:Ht; [|exact Hm].
  apply wellKeyed_mergeOne; [|exact Hm]. now apply truthy_iff.
Qed.

Lemma wellKeyed_harvestCommit (c : Commit) (m : EmailMap) :
  Spec.wellKeyed m -> Spec.wellKeyed (harvestCommit username c m).
Proof.
  intros Hm. unfold harvestCommit.
  destruct (author_login c); [|exact Hm].
  destruct (String.eqb _ _); [|exact Hm].
  now apply wellKeyed_recordIdentity, wellKeyed_recordIdentity.
Qed.

Lemma wellKeyed_walkCommits (result : list Commit) :
  forall (seen : JsSet.t) (m : EmailMap),
    Spec.wellKeyed m ->
    Spec.wellKeyed (emailsToName (walkCommits username result seen m)).
Proof.
  induction result as [|c result IH]; intros seen m Hm; simpl; [exact Hm|].
  destruct (JsSet.has (sha c) seen); [exact Hm|].
  now apply IH, wellKeyed_harvestCommit.
Qed.

Lemma wellKeyed_getEmailsFrom (call : nat -> ApiResult Commit) (fuel : nat) :
  forall page seen m pages r,
    Spec.wellKeyed m ->
    getEmailsFrom fuel username call page seen m pages = Some r ->
    Spec.wellKeyed (collected r).
Proof.
  induction fuel as [|fuel IH]; intros page seen m pages r Hm; [discriminate|].
  cbn [getEmailsFrom].
  destruct (call page) as [result|msg]; [|now intros [= <-]].
  pose proof (wellKeyed_walkCommits result seen m Hm) as Hw.
  destruct (_ && _); [|now intros [= <-]].
  intros H. exact (IH _ _ _ _ _ Hw H).
Qed.

(** What a contributor and an event commit add to the map. *)
Lemma contributor_step (m : EmailMap) (c : Contributor) (e n : string) :
  Spec.recorded e n
    (match c_email c with
     | Some e0 =>
         if String.eqb (c_type c) "Anonymous" && JsString.truthy e0
         then addAt e0 (orElse (c_name c) "Anonymous") (ensureKey e0 m)
         else m
     | None => m
     end)
  <-> Spec.recorded e n m \/ Spec.anonymousObservation c e n.
Proof.
  unfold Spec.anonymousObservation.
  destruct (c_email c) as [e0|].
  - destruct (String.eqb_spec (c_type c) "Anonymous") as [Ht|Ht]; cbn [andb].
    + destruct (JsString.truthy e0) eqn:Hy.
      * rewrite recorded_mergeOne. apply truthy_iff in Hy.
        split; (intros [H|H]; [now left|right]).
        -- destruct H as [-> ->]. now repeat split.
        -- destruct H as (_ & [= ->] & _ & ->). now split.
      * split; [now left|]. intros [H|(_ & [= ->] & Hne & _)]; [exact H|].
        apply truthy_iff in Hne. congruence.
    + split; [now left|]. intros [H|(Ht' & _)]; [exact H|contradiction].
  - split; [now left|]. intros [H|(_ & Hn & _)]; [exact H|discriminate].
Qed.

Lemma recordEventCommit_step (m : EmailMap) (c : EventCommit) (e n : string) :
  Spec.recorded e n (recordEventCommit m c)
  <-> Spec.recorded e n m
      \/ exists a, ec_author c = Some a /\ ea_email a = Some e /\ e <> ""
                   /\ n = orElse (ea_name a) "Unknown".
Proof.
  unfold recordEventCommit.
  destruct (ec_author c) as [a|].
  - destruct (ea_email a) as [e0|] eqn:He.
    + destruct (JsString.truthy e0) eqn:Hy.
      * rewrite recorded_mergeOne. apply truthy_iff in Hy.
        split; (intros [H|H]; [now left|right]).
        -- destruct H as [-> ->]. exists a. now repeat split.
        -- destruct H as (a' & [= <-] & He' & _ & ->).
           rewrite He in He'. injection He' as ->. now split.
      * split; [now left|].
        intros [H|(a' & [= <-] & He' & Hne & _)]; [exact H|].
        rewrite He in He'. injection He' as ->.
        apply truthy_iff in Hne. congruence.
    + split; [now left|].
      intros [H|(a' & [= <-] & He' & _)]; [exact H|congruence].
  - split; [now left|]. intros [H|(a' & Ha & _)]; [exact H|discriminate].
Qed.

Lemma recordEvent_step (m : EmailMap) (ev : Event) (e n : string) :
  Spec.recorded e n (recordEvent m ev)
  <-> Spec.recorded e n m \/ Spec.pushObservation ev e n.
Proof.
  unfold recordEvent, Spec.pushObservation.
  destruct (String.eqb_spec (ev_type ev) "PushEvent") as [Ht|Ht].
  - destruct (ev_payload ev) as [payload|].
    + destruct (ep_commits payload) as [commits|] eqn:Hcs.
      * rewrite (recorded_fold recordEventCommit _ recordEventCommit_step).
        split; (intros [H|H]; [now left|right]).
        -- destruct H as (c & Hc & a & Ha & He & Hne & Hn).
           split; [exact Ht|]. exists payload, commits, c, a. now repeat split.
        -- destruct H as (_ & p' & cs' & c & a & [= <-] & Hcs' & Hc & Ha & H).
           rewrite Hcs in Hcs'. injection Hcs' as <-.
           exists c. split; [exact Hc|]. now exists a.
      * split; [now left|].
        intros [H|(_ & p' & cs' & c & a & [= <-] & Hcs' & _)]; [exact H|].
        congruence.
    + split; [now left|].
      intros [H|(_ & p' & cs' & c & a & Hp & _)]; [exact H|discriminate].
  - split; [now left|]. intros [H|(Ht' & _)]; [exact H|contradiction].
Qed.

End CollectedEmails.

(** X7. Every key of the map that getEmails returns is a non-empty string
    and has at least one name: a commit whose git email is null or empty
    adds no key. *)
Theorem X7_getEmails_keys_are_nonempty :
  forall (username : string) (call : nat -> GitHubApi.ApiResult GitHubApi.Commit)
         (fuel : nat) (r : GitHubApi.Collected EmailMap)
         (e : string) (ns : JsSet.t),
    GitHubApi.getEmails fuel username call = Some r ->
    JsMap.get e (GitHubApi.collected r) = Some ns ->
    e <> "" /\ ns <> [].
Proof.
  intros username call fuel r e ns H.
  apply (wellKeyed_getEmailsFrom username call fuel 1 [] [] [] r); [|exact H].
  intros e' ns' Hget. discriminate.
Qed.

(** The theorem on a commit whose author email is empty and whose
    committer email is not. *)
Lemma X7_getEmails_keys_are_nonempty_witness :
  "alice@acme-corp.io" <> "" /\ ["Alice"] <> [].
Proof.
  pose (c := GitHubApi.mkCommit "a1" (Some "alice")
               (GitHubApi.mkGitIdentity "Alice" (Some ""))
               (GitHubApi.mkGitIdentity "Alice" (Some "alice@acme-corp.io"))).
  apply (X7_getEmails_keys_are_nonempty "alice"
           (fun _ => GitHubApi.Items [c]) 1
           (GitHubApi.mkCollected [("alice@acme-corp.io", ["Alice"])] [1%nat])
           "alice@acme-corp.io" ["Alice"]).
  - reflexivity.
  - reflexivity.
Defined.

(** X8. The map of getContributorEmails records a name under an email
    exactly when a contributor of type Anonymous carries this email, not
    empty, and the name is its name, or Anonymous when it has none;
    contributors with an account add nothing. *)
Theorem X8_contributorEmails_anonymous_only :
  forall (contributors : list GitHubApi.Contributor) (e n : string),
    Spec.recorded e n (GitHubApi.contributorEmails contributors)
    <-> exists c, In c contributors /\ Spec.anonymousObservation c e n.
Proof.
  intros contributors e n. unfold GitHubApi.contributorEmails.
  rewrite (recorded_fold _ Spec.anonymousObservation contributor_step).
  split; [|now right]. intros [H|H]; [|exact H].
  now apply recorded_nil in H.
Qed.

(** X9. The map of extractEmailsFromEvents records a name under an email
    exactly when a commit in the payload of a push event has an author
    with this email, not empty, and the name is the name of this author,
    or Unknown when it has none; events of other types add nothing. *)
Theorem X9_extractEmailsFromEvents_push_only :
  forall (events : list GitHubApi.Event) (e n : string),
    Spec.recorded e n (GitHubApi.extractEmailsFromEvents events)
    <-> exists ev, In ev events /\ Spec.pushObservation ev e n.
Proof.
  intros events e n. unfold GitHubApi.extractEmailsFromEvents.
  rewrite (recorded_fold _ Spec.pushObservation recordEvent_step).
  split; [|now right]. intros [H|H]; [|exact H].
  now apply recorded_nil in H.
Qed.

(** X10. mergeEmailMaps returns the union of the two maps: the result
    records a name under an email exactly when the target recorded it or
    an entry of the source holds it. *)
Theorem X10_mergeEmailMaps_union :
  forall (target source : EmailMap) (e n : string),
    Spec.recorded e n (GitHubUser.mergeEmailMaps target source)
    <-> Spec.recorded e n target
        \/ exists entry, In entry source /\ e = fst entry /\ In n (snd entry).
Proof.
  intros target source e n. unfold GitHubUser.mergeEmailMaps.
  apply (recorded_fold
           (fun target entry =>
              let '(email, names) := entry in
              addAllAt email names (ensureKey email target))
           (fun entry e n => e = fst entry /\ In n (snd entry))).
  intros m [e0 xs] e' n'. apply recorded_merge.
Qed.

(** ** Order and range of the priorities *)

Section Priorities.

Import SmartScanner.

Variable log10 : Z -> Q.
Variable now : Z.

(** Insertion does not change the order among the repositories of one
    priority. *)
Lemma insertDesc_stable (q : Q) (x : ScoredRepo) (l : list ScoredRepo) :
  filter (Spec.hasPriority q) (insertDesc x l)
  = filter (Spec.hasPriority q) (x :: l).
Proof.
  induction l as [|y l IH]; [reflexivity|].
  cbn [insertDesc].
  destruct (Qle_bool (priority y) (priority x)) eqn:E; [reflexivity|].
  cbn [filter] in *. rewrite IH.
  destruct (Spec.hasPriority q x) eqn:Hx; [|reflexivity].
  destruct (Spec.hasPriority q y) eqn:Hy; [|reflexivity].
  exfalso. unfold Spec.hasPriority in Hx, Hy.
  apply Qeq_bool_iff in Hx. apply Qeq_bool_iff in Hy.
  assert (Qle_bool (priority y) (priority x) = true) as C
    by (apply Qle_bool_iff; rewrite Hx, Hy; apply Qle_refl).
  congruence.
Qed.

Lemma sortDesc_stable (q : Q) (l : list ScoredRepo) :
  filter (Spec.hasPriority q) (sortDesc l) = filter (Spec.hasPriority q) l.
Proof.
  induction l as [|x l IH]; [reflexivity|].
  cbn [sortDesc fold_right]. rewrite insertDesc_stable.
  cbn [filter]. fold (sortDesc l). now rewrite IH.
Qed.

Lemma recencyScore_range (pushed : option Z) :
  0 <= recencyScore now pushed /\ recencyScore now pushed <= 30.
Proof.
  destruct pushed as [t|]; [|split; unfold Qle; simpl; lia].
  unfold recencyScore, priorityWeights.recentActivity.
  repeat match goal with |- context [if ?b then _ else _] => destruct b end;
    split; unfold Qle; simpl; lia.
Qed.

Lemma starTerm_range (n : Z) :
  Qmin (log10 n * 5) priorityWeights.starCount <= 10
  /\ (0 <= log10 n -> 0 <= Qmin (log10 n * 5) priorityWeights.starCount).
Proof.
  split.
  - apply Q.le_min_r.
  - intros H. apply Q.min_glb.
    + apply Qmult_le_0_compat; [exact H|]. unfold Qle. simpl. lia.
    + unfold priorityWeights.starCount, Qle. simpl. lia.
Qed.

End Priorities.

(** X11. sortReposByPriority keeps the repositories of equal priority in
    the order in which they were given: for every priority, the scored
    repositories of this priority come in the output as they come in the
    input. *)
Theorem X11_sortReposByPriority_stable :
  forall (log10 : Z -> Q) (now : Z) (repos : list SmartScanner.Repo) (q : Q),
    filter (Spec.hasPriority q) (SmartScanner.sortReposByPriority log10 now repos)
    = filter (Spec.hasPriority q)
        (map (fun r => SmartScanner.mkScored r
                         (SmartScanner.calculateRepoPriority log10 now r))
             repos).
Proof. intros log10 now repos q. apply sortDesc_stable. Qed.

(** X12. The priority of a repository is at most 85, the sum of the
    weights that calculateRepoPriority adds, whatever its star count: the
    star term is capped at 10. It is not negative when Math.log10 is not
    negative from 1 on. *)
Theorem X12_calculateRepoPriority_range :
  forall (log10 : Z -> Q) (now : Z) (r : SmartScanner.Repo),
    SmartScanner.calculateRepoPriority log10 now r <= 85
    /\ (Spec.log10NonNegative log10 ->
        0 <= SmartScanner.calculateRepoPriority log10 now r).
Proof.
  intros log10 now r.
  pose proof (recencyScore_range now (SmartScanner.pushed_at r)) as [R0 R30].
  pose proof (starTerm_range log10 (SmartScanner.stargazers_count r + 1))
    as [S10 S0].
  unfold SmartScanner.calculateRepoPriority,
    SmartScanner.priorityWeights.hasDescription,
    SmartScanner.priorityWeights.notFork,
    SmartScanner.priorityWeights.notArchived,
    SmartScanner.priorityWeights.hasIssues.
  split.
  - destruct (JsString.truthyOpt _), (negb (SmartScanner.fork r)),
      (0 <? SmartScanner.stargazers_count r)%Z,
      (negb (SmartScanner.archived r)), (SmartScanner.has_issues r); lra.
  - intros Hlog.
    destruct (Z.ltb_spec 0 (SmartScanner.stargazers_count r)) as [Hs|Hs].
    + assert (0 <= log10 (SmartScanner.stargazers_count r + 1)%Z) as Hl
        by (apply Hlog; lia).
      specialize (S0 Hl).
      destruct (JsString.truthyOpt _), (negb (SmartScanner.fork r)),
        (negb (SmartScanner.archived r)), (SmartScanner.has_issues r); lra.
    + destruct (JsString.truthyOpt _), (negb (SmartScanner.fork r)),
        (negb (SmartScanner.archived r)), (SmartScanner.has_issues r); lra.
Qed.

(** The theorem with a logarithm that is 17 everywhere, on a repository of
    a million stars. *)
Lemma X12_calculateRepoPriority_range_witness :
  0 <= SmartScanner.calculateRepoPriority (fun _ => 17) 0%Z
         (SmartScanner.mkRepo "tool" false false (Some 0%Z) 1000000
            (Some "a tool") true).
Proof.
  apply (X12_calculateRepoPriority_range (fun _ => 17) 0%Z).
  intros n Hn. unfold Qle. simpl. lia.
Defined.

(** ** Classification and letter case *)

Section LetterCase.

Import JsString SmartScanner.

Lemma toLowerChar_idem (c : ascii) : toLowerChar (toLowerChar c) = toLowerChar c.
Proof. destruct c as [[] [] [] [] [] [] [] []]; reflexivity. Qed.

Lemma toLowerChar_at (c : ascii) :
  Ascii.eqb (toLowerChar c) "@" = Ascii.eqb c "@".
Proof. destruct c as [[] [] [] [] [] [] [] []]; reflexivity. Qed.

Lemma toLowerChar_lineTerminator (c : ascii) :
  isLineTerminator (toLowerChar c) = isLineTerminator c.
Proof. destruct c as [[] [] [] [] [] [] [] []]; reflexivity. Qed.

Lemma toLowerCase_idem (s : string) : toLowerCase (toLowerCase s) = toLowerCase s.
Proof.
  induction s as [|c s IH]; simpl; [reflexivity|].
  now rewrite toLowerChar_idem, IH.
Qed.

Lemma toLowerCase_length (s : string) :
  String.length (toLowerCase s) = String.length s.
Proof. induction s as [|c s IH]; simpl; [reflexivity|now rewrite IH]. Qed.

Lemma toLowerCase_count (s : string) : count "@" (toLowerCase s) = count "@" s.
Proof.
  induction s as [|c s IH]; simpl; [reflexivity|].
  now rewrite toLowerChar_at, IH.
Qed.

Lemma toLowerCase_split (s : string) :
  split "@" (toLowerCase s) = map toLowerCase (split "@" s).
Proof.
  induction s as [|c s IH]; simpl; [reflexivity|].
  rewrite toLowerChar_at, IH.
  destruct (Ascii.eqb c "@"); [reflexivity|].
  now destruct (split "@" s).
Qed.

Lemma toLowerCase_substring (s : string) :
  forall n m, substring n m (toLowerCase s) = toLowerCase (substring n m s).
Proof.
  induction s as [|c s IH]; intros n m.
  - destruct n, m; reflexivity.
  - destruct n as [|n].
    + destruct m as [|m]; simpl; [reflexivity|]. now rewrite IH.
    + simpl. apply IH.
Qed.

Lemma toLowerCase_noLineTerminator (s : string) :
  noLineTerminator (toLowerCase s) = noLineTerminator s.
Proof.
  induction s as [|c s IH]; simpl; [reflexivity|].
  now rewrite toLowerChar_lineTerminator, IH.
Qed.

(** The patterns do not tell an address from its lower-case form. *)
Lemma test_toLowerCase (p : RegExp) (s : string) :
  test p (toLowerCase s) = test p s.
Proof.
  destruct p as [lit|lit]; unfold test.
  - now rewrite toLowerCase_idem.
  - rewrite toLowerCase_length, !toLowerCase_substring, toLowerCase_idem.
    now rewrite toLowerCase_noLineTerminator.
Qed.

Lemma noreply_toLowerCase (e : string) (ps : list RegExp) :
  existsb (fun p => test p (toLowerCase e)) ps
  = existsb (fun p => test p e) ps.
Proof.
  induction ps as [|p ps IH]; simpl; [reflexivity|].
  now rewrite test_toLowerCase, IH.
Qed.

(** All the fields of the classification but the address itself are
    those of the lower-case form of the address. *)
Lemma classifyEmail_toLowerCase (e : string) :
  isValid (classifyEmail (toLowerCase e)) = isValid (classifyEmail e)
  /\ isNoreply (classifyEmail (toLowerCase e)) = isNoreply (classifyEmail e)
  /\ isDisposable (classifyEmail (toLowerCase e))
     = isDisposable (classifyEmail e)
  /\ domain (classifyEmail (toLowerCase e)) = domain (classifyEmail e)
  /\ classification (classifyEmail (toLowerCase e))
     = classification (classifyEmail e).
Proof.
  unfold classifyEmail. rewrite toLowerCase_split, noreply_toLowerCase.
  destruct (split "@" e) as [|a [|d [|x r]]]; cbn [map];
    try (repeat split; reflexivity).
  rewrite toLowerCase_idem.
  destruct (existsb _ noreplyPatterns); [repeat split; reflexivity|].
  destruct (arrayIncludes disposableDomains _); [repeat split; reflexivity|].
  destruct (arrayIncludes commonPersonalDomains _); repeat split; reflexivity.
Qed.

(** The flags of a classification and its class go together. *)
Lemma classifyEmail_flags (e : string) :
  email (classifyEmail e) = e
  /\ (isNoreply (classifyEmail e) = true
      <-> classification (classifyEmail e) = noreply)
  /\ (isDisposable (classifyEmail e) = true
      <-> classification (classifyEmail e) = disposable)
  /\ (isValid (classifyEmail e) = false ->
      domain (classifyEmail e) = None
      /\ classification (classifyEmail e) = personal)
  /\ (isValid (classifyEmail e) = true ->
      exists d, domain (classifyEmail e) = Some d
                /\ toLowerCase d = d /\ count "@" d = 0%nat).
Proof.
  unfold classifyEmail.
  destruct (split "@" e) as [|a [|d [|x r]]] eqn:Hsplit;
    try solve [cbn; repeat split; intros; try discriminate; reflexivity].
  assert (count "@" d = 0%nat) as Hd.
  { pose proof (split_length "@" e) as L. rewrite Hsplit in L.
    injection L as L. symmetry in L.
    destruct (split_one_sep "@" e L) as (a' & d' & E & _ & _ & Hd').
    rewrite Hsplit in E. now injection E as _ ->. }
  assert (exists d0, Some (toLowerCase d) = Some d0
                     /\ toLowerCase d0 = d0 /\ count "@" d0 = 0%nat) as Hdom.
  { exists (toLowerCase d). split; [reflexivity|].
    split; [apply toLowerCase_idem|]. now rewrite toLowerCase_count. }
  destruct (existsb _ noreplyPatterns);
    [cbn; repeat split; intros; try discriminate; try reflexivity; exact Hdom|].
  destruct (arrayIncludes disposableDomains (toLowerCase d));
    [cbn; repeat split; intros; try discriminate; try reflexivity; exact Hdom|].
  destruct (arrayIncludes commonPersonalDomains (toLowerCase d));
    cbn; repeat split; intros; try discriminate; try reflexivity; exact Hdom.
Qed.

End LetterCase.

(** X13. In the result of classifyEmail the flags and the class go
    together: isNoreply is set exactly when the class is noreply and
    isDisposable exactly when it is disposable. An invalid address has no
    domain and keeps the class personal with which the result starts. The
    domain of a valid address is in lower case and has no at-sign. *)
Theorem X13_classifyEmail_flags_and_class :
  forall e : string,
    SmartScanner.email (SmartScanner.classifyEmail e) = e
    /\ (SmartScanner.isNoreply (SmartScanner.classifyEmail e) = true
        <-> SmartScanner.classification (SmartScanner.classifyEmail e)
            = SmartScanner.noreply)
    /\ (SmartScanner.isDisposable (SmartScanner.classifyEmail e) = true
        <-> SmartScanner.classification (SmartScanner.classifyEmail e)
            = SmartScanner.disposable)
    /\ (SmartScanner.isValid (SmartScanner.classifyEmail e) = false ->
        SmartScanner.domain (SmartScanner.classifyEmail e) = None
        /\ SmartScanner.classification (SmartScanner.classifyEmail e)
           = SmartScanner.personal)
    /\ (SmartScanner.isValid (SmartScanner.classifyEmail e) = true ->
        exists d, SmartScanner.domain (SmartScanner.classifyEmail e) = Some d
                  /\ JsString.toLowerCase d = d
                  /\ JsString.count "@" d = 0%nat).
Proof. exact classifyEmail_flags. Qed.

(** The theorem on an address with two at-signs and on a webmail address
    in capitals. *)
Lemma X13_classifyEmail_flags_and_class_witness :
  SmartScanner.classification (SmartScanner.classifyEmail "a@b@c.org")
  = SmartScanner.personal
  /\ exists d, SmartScanner.domain (SmartScanner.classifyEmail "USER@GMAIL.COM")
               = Some d /\ JsString.toLowerCase d = d.
Proof.
  split.
  - apply (X13_classifyEmail_flags_and_class "a@b@c.org"). reflexivity.
  - destruct (X13_classifyEmail_flags_and_class "USER@GMAIL.COM")
      as (_ & _ & _ & _ & H).
    destruct (H eq_refl) as (d & Hd & Hl & _). now exists d.
Defined.

(** X14. classifyEmail does not depend on the letter case of the address:
    two addresses with the same lower-case form get the same validity,
    flags, domain and class. *)
Theorem X14_classifyEmail_ignores_case :
  forall e e' : string,
    JsString.toLowerCase e = JsString.toLowerCase e' ->
    SmartScanner.isValid (SmartScanner.classifyEmail e)
    = SmartScanner.isValid (SmartScanner.classifyEmail e')
    /\ SmartScanner.isNoreply (SmartScanner.classifyEmail e)
       = SmartScanner.isNoreply (SmartScanner.classifyEmail e')
    /\ SmartScanner.isDisposable (SmartScanner.classifyEmail e)
       = SmartScanner.isDisposable (SmartScanner.classifyEmail e')
    /\ SmartScanner.domain (SmartScanner.classifyEmail e)
       = SmartScanner.domain (SmartScanner.classifyEmail e')
    /\ SmartScanner.classification (SmartScanner.classifyEmail e)
       = SmartScanner.classification (SmartScanner.classifyEmail e').
Proof.
  intros e e' H.
  destruct (classifyEmail_toLowerCase e) as (V & N & D & M & C).
  destruct (classifyEmail_toLowerCase e') as (V' & N' & D' & M' & C').
  rewrite <- V, <- N, <- D, <- M, <- C, <- V', <- N', <- D', <- M', <- C'.
  rewrite H. repeat split.
Qed.

(** The theorem on an address written in two cases. *)
Lemma X14_classifyEmail_ignores_case_witness :
  SmartScanner.classification (SmartScanner.classifyEmail "NoReply@GitHub.com")
  = SmartScanner.classification (SmartScanner.classifyEmail "noreply@github.com").
Proof.
  apply (X14_classifyEmail_ignores_case "NoReply@GitHub.com" "noreply@github.com").
  reflexivity.
Defined.

(** ** The enriched list and the cache *)

Section Enrichment.

Import SmartScanner.

Lemma JsMap_has_keys {V} (k : string) (m : JsMap.t V) :
  JsMap.has k m = false <-> ~ In k (JsMap.keys m).
Proof.
  unfold JsMap.has, JsMap.keys.
  induction m as [|[k' v] m IH]; simpl; [tauto|].
  destruct (String.eqb_spec k k') as [->|Hne].
  - split; [discriminate|]. intros H. exfalso. apply H. now left.
  - rewrite IH. split; [|tauto]. intros H [E|E]; [congruence|tauto].
Qed.

(** The loop of deduplicateEmails from an accumulator whose keys are not
    keys of the map. *)
Lemma deduplicateEmails_from (m : EmailMap) :
  forall acc : JsMap.t Enriched,
    NoDup (JsMap.keys acc ++ JsMap.keys m) ->
    fold_left
      (fun enriched entry =>
         let '(e, names) := entry in
         let c := classifyEmail e in
         if negb (isValid c) || isNoreply c then enriched
         else JsMap.set e
                (mkEnriched e names (classification c) (domain c)
                   (isDisposable c))
                enriched)
      m acc
    = acc ++ map Spec.enriched (filter Spec.keptByDeduplicate m).
Proof.
  induction m as [|[e names] m IH]; intros acc Hnd; cbn [fold_left].
  - simpl. now rewrite app_nil_r.
  - cbn [filter]. unfold Spec.keptByDeduplicate at 1. cbn [fst].
    cbn [JsMap.keys map fst] in Hnd. fold (JsMap.keys m) in Hnd.
    destruct (isValid (classifyEmail e)) eqn:Hv;
      destruct (isNoreply (classifyEmail e)) eqn:Hn; cbn [negb orb andb].
    2:{ rewrite JsMap_set_absent.
        - rewrite IH.
          + rewrite <- app_assoc. reflexivity.
          + unfold JsMap.keys in *. rewrite map_app, <- app_assoc. exact Hnd.
        - apply JsMap_has_keys. intros Hin.
          apply NoDup_remove_2 in Hnd. apply Hnd, in_or_app. now left. }
    all: apply IH; eapply NoDup_remove_1; exact Hnd.
Qed.

Lemma JsMap_get_delete {V} (k k' : string) (m : JsMap.t V) :
  JsMap.get k' (JsMap.delete k m)
  = if String.eqb k' k then None else JsMap.get k' m.
Proof.
  unfold JsMap.delete. induction m as [|[k0 v] m IH]; simpl.
  - now destruct (String.eqb k' k).
  - destruct (String.eqb_spec k k0) as [<-|Hne]; simpl.
    + rewrite IH. destruct (String.eqb_spec k' k); reflexivity.
    + destruct (String.eqb_spec k' k0) as [->|Hne'].
      * destruct (String.eqb_spec k0 k); [congruence|reflexivity].
      * exact IH.
Qed.

End Enrichment.

(** X15. On a map of emails, whose keys are distinct, deduplicateEmails
    returns, in the order of the map, one entry for each address that is
    valid and not noreply, with the names of the address, its class, its
    domain and its disposable flag; invalid and noreply addresses are left
    out, disposable ones are kept. *)
Theorem X15_deduplicateEmails_entries :
  forall emailsMap : EmailMap,
    NoDup (JsMap.keys emailsMap) ->
    SmartScanner.deduplicateEmails emailsMap
    = map Spec.enriched (filter Spec.keptByDeduplicate emailsMap).
Proof.
  intros emailsMap Hnd. unfold SmartScanner.deduplicateEmails.
  now rewrite deduplicateEmails_from.
Qed.

(** The theorem on a map with a work address, a noreply address, a
    malformed address and a disposable address. *)
Lemma X15_deduplicateEmails_entries_witness :
  JsMap.keys
    (SmartScanner.deduplicateEmails
       [("dev@acme-corp.io", ["Dev"]); ("noreply@github.com", ["GitHub"]);
        ("root", ["Root"]); ("x@mailinator.com", ["X"])])
  = ["dev@acme-corp.io"; "x@mailinator.com"].
Proof.
  rewrite (X15_deduplicateEmails_entries
             [("dev@acme-corp.io", ["Dev"]); ("noreply@github.com", ["GitHub"]);
              ("root", ["Root"]); ("x@mailinator.com", ["X"])]).
  - reflexivity.
  - apply nodupb_NoDup. reflexivity.
Defined.

(** X16. What setCache stores under a key, getCached returns for this key
    until the clock passes five minutes after the time of storage, and
    leaves the cache as it is. Past that time getCached returns null and
    removes the entry, so that the key stays absent at any later or
    earlier reading. Storing under one key does not change what is
    returned for another, and after clearCache every key is absent. *)
Theorem X16_cache_round_trip :
  forall (D : Type) (now now' : Z) (key : string) (d : D)
         (cache : SmartScanner.Cache D),
    ((now' <= now + 300000)%Z ->
     SmartScanner.getCached now' key (SmartScanner.setCache now key d cache)
     = (Some d, SmartScanner.setCache now key d cache))
    /\ ((now + 300000 < now')%Z ->
        fst (SmartScanner.getCached now' key
               (SmartScanner.setCache now key d cache)) = None
        /\ forall t,
             fst (SmartScanner.getCached t key
                    (snd (SmartScanner.getCached now' key
                            (SmartScanner.setCache now key d cache)))) = None)
    /\ (forall key', key' <> key ->
          fst (SmartScanner.getCached now' key'
                 (SmartScanner.setCache now key d cache))
          = fst (SmartScanner.getCached now' key' cache))
    /\ (forall t key',
          SmartScanner.getCached t key' (SmartScanner.clearCache cache)
          = (None, JsMap.empty)).
Proof.
  intros D now now' key d cache.
  unfold SmartScanner.getCached, SmartScanner.setCache.
  rewrite JsMap_get_set, String.eqb_refl. cbn [SmartScanner.expiry SmartScanner.data].
  change SmartScanner.cacheExpiry with 300000%Z.
  split; [|split; [|split]].
  - intros H. destruct (Z.ltb_spec (now + 300000) now'); [lia|reflexivity].
  - intros H. destruct (Z.ltb_spec (now + 300000) now'); [|lia].
    split; [reflexivity|]. intros t. cbn [snd].
    now rewrite JsMap_get_delete, String.eqb_refl.
  - intros key' Hne. rewrite JsMap_get_set.
    apply String.eqb_neq in Hne. rewrite Hne.
    destruct (JsMap.get key' cache) as [cached|]; [|reflexivity].
    now destruct (SmartScanner.expiry cached <? now')%Z.
  - reflexivity.
Qed.

(** The theorem on a response stored at time 1000 and read four minutes
    and six minutes later. *)
Lemma X16_cache_round_trip_witness :
  SmartScanner.getCached 241000 "users/alice" 
    (SmartScanner.setCache 1000 "users/alice" 7%nat JsMap.empty)
  = (Some 7%nat, SmartScanner.setCache 1000 "users/alice" 7%nat JsMap.empty)
  /\ fst (SmartScanner.getCached 361000 "users/alice"
            (SmartScanner.setCache 1000 "users/alice" 7%nat JsMap.empty))
     = None.
Proof.
  destruct (X16_cache_round_trip nat 1000 241000 "users/alice" 7%nat JsMap.empty)
    as (H1 & _).
  destruct (X16_cache_round_trip nat 1000 361000 "users/alice" 7%nat JsMap.empty)
    as (_ & H2 & _).
  split.
  - apply H1. lia.
  - apply H2. lia.
Defined.

(** ** The recommended number of repositories *)

Section SafeCount.

Import SmartScanner.

Lemma ceilDiv_1_100 : ceilDiv 1 100 = 1%Z.
Proof. reflexivity. Qed.

Lemma ceilDiv_nonneg (a : Z) : (0 <= a)%Z -> (0 <= ceilDiv a 100 <= a)%Z.
Proof.
  intros H. pose proof (ceilDiv_spec a 100) as S.
  unfold Spec.isCeilingOfQuotient in S. lia.
Qed.

Lemma ceilDiv_mono (a b : Z) : (a <= b)%Z -> (ceilDiv a 100 <= ceilDiv b 100)%Z.
Proof.
  intros H. pose proof (ceilDiv_spec a 100) as Sa.
  pose proof (ceilDiv_spec b 100) as Sb.
  unfold Spec.isCeilingOfQuotient in *. lia.
Qed.

Lemma callsPerRepo_range (o : EstimateOptions) :
  (0 <= avgCommitsPerRepo o)%Z ->
  exists fixed c,
    (0 <= fixed <= 4)%Z /\ (0 <= c)%Z
    /\ estimateApiCalls 1 o = (fixed + 1 + c)%Z
    /\ forall n, estimateApiCalls n o = (fixed + ceilDiv n 100 + n * c)%Z.
Proof.
  intros H.
  exists (Z.b2z (fetchProfile o) + Z.b2z (fetchOrgs o) + Z.b2z (fetchKeys o)
          + Z.b2z (fetchGists o))%Z, (ceilDiv (avgCommitsPerRepo o) 100).
  pose proof (ceilDiv_nonneg _ H) as Hc.
  split; [|split; [lia|split]].
  - destruct (fetchProfile o), (fetchOrgs o), (fetchKeys o), (fetchGists o);
      simpl; lia.
  - rewrite estimateApiCalls_sum, ceilDiv_1_100. lia.
  - intros n. apply estimateApiCalls_sum.
Qed.

End SafeCount.

(** X17. For a non-negative average of commits, the estimate grows with
    the number of repositories, and the number of repositories that
    generateScanStrategy recommends fits the quota: when at least 10
    calls remain it is not negative, and a scan of that many repositories
    is estimated to complete within the remaining calls. When fewer than
    10 calls remain the recommended number is negative. *)
Theorem X17_recommended_count_fits_quota :
  forall (repoCount remaining : Z) (o : SmartScanner.EstimateOptions)
         (safe : Z),
    (0 <= SmartScanner.avgCommitsPerRepo o)%Z ->
    In (SmartScanner.limit_repos (Some safe))
       (SmartScanner.recommendations
          (SmartScanner.generateScanStrategy repoCount remaining o)) ->
    ((10 <= remaining)%Z ->
     (0 <= safe)%Z
     /\ SmartScanner.canComplete
          (SmartScanner.generateScanStrategy safe remaining o) = true)
    /\ ((remaining < 10)%Z -> (safe < 0)%Z)
    /\ (forall n n' : Z,
          (0 <= n <= n')%Z ->
          (SmartScanner.estimateApiCalls n o
           <= SmartScanner.estimateApiCalls n' o)%Z).
Proof.
  intros repoCount remaining o safe Havg Hin.
  destruct (callsPerRepo_range o Havg) as (fixed & c & Hf & Hc & Hone & Hall).
  unfold SmartScanner.generateScanStrategy in Hin.
  cbn [SmartScanner.recommendations] in Hin.
  destruct (negb _) in Hin; [|contradiction].
  destruct (Z.eqb_spec (SmartScanner.estimateApiCalls 1 o) 0) as [E|E];
    [lia|].
  destruct Hin as [Hin|[Hin|[Hin|[]]]]; try discriminate.
  injection Hin as <-.
  pose proof (floorDiv_spec (remaining - 10)
                (SmartScanner.estimateApiCalls 1 o) E) as [Hfloor _].
  specialize (Hfloor ltac:(lia)).
  set (safe := SmartScanner.floorDiv (remaining - 10)
                 (SmartScanner.estimateApiCalls 1 o)) in *.
  clearbody safe. rewrite Hone in Hfloor, E.
  assert ((fixed + 1 + c) * safe = fixed * safe + safe + c * safe)%Z as Hmul
    by ring.
  assert ((fixed + 1 + c) * (safe + 1)
          = (fixed + 1 + c) * safe + (fixed + 1 + c))%Z as Hmul' by ring.
  split; [|split].
  - intros Hrem.
    assert (0 <= safe)%Z as Hs.
    { destruct (Z.lt_ge_cases safe 0) as [Hneg|Hpos]; [|exact Hpos].
      assert ((fixed + 1 + c) * (safe + 1) <= 0)%Z
        by (apply Z.mul_nonneg_nonpos; lia).
      lia. }
    split; [exact Hs|].
    unfold SmartScanner.generateScanStrategy. cbn [SmartScanner.canComplete].
    apply Z.leb_le. rewrite Hall.
    pose proof (ceilDiv_nonneg safe Hs).
    assert (0 <= fixed * safe)%Z by (apply Z.mul_nonneg_nonneg; lia).
    rewrite (Z.mul_comm safe c). lia.
  - intros Hrem.
    destruct (Z.lt_ge_cases safe 0) as [Hneg|Hpos]; [exact Hneg|].
    assert (0 <= (fixed + 1 + c) * safe)%Z
      by (apply Z.mul_nonneg_nonneg; lia).
    lia.
  - intros n n' Hn. rewrite !Hall.
    pose proof (ceilDiv_mono n n' ltac:(lia)).
    assert (n * c <= n' * c)%Z by (apply Z.mul_le_mono_nonneg_r; lia).
    lia.
Qed.

(** The theorem on 250 repositories with 100 calls remaining: the
    recommended 18 repositories are estimated at 22 calls. *)
Lemma X17_recommended_count_fits_quota_witness :
  SmartScanner.canComplete
    (SmartScanner.generateScanStrategy 18 100
       SmartScanner.defaultEstimateOptions) = true.
Proof.
  destruct (X17_recommended_count_fits_quota 250 100
              SmartScanner.defaultEstimateOptions 18) as (H & _).
  - simpl. lia.
  - left. reflexivity.
  - apply H. lia.
Defined.

(** ** The selection without smart mode *)

Section PlainSelection.

Import GitHubApi GitHubUser.

Lemma selectRepositories_front (saveFork : bool) (maxRepos : option Z)
    (repositories : list Repository) :
  exists n,
    selectRepositories saveFork maxRepos repositories
    = firstn n (filter (Spec.keptWithoutSmart saveFork) repositories).
Proof. unfold selectRepositories. apply slice0_firstn. Qed.

Lemma slice0_all {A} (k : Z) (l : list A) :
  (Z.of_nat (List.length l) <= k)%Z -> SmartScanner.slice0 k l = l.
Proof.
  intros H. unfold SmartScanner.slice0.
  destruct (Z.leb_spec 0 k); [|lia]. apply firstn_all2. lia.
Qed.

End PlainSelection.

(** X18. Without smart mode the repositories to scan are a front part of
    the listing, in its order, without its forks unless saveFork is set:
    at most maxRepos of them when maxRepos is a positive number, all of
    them when maxRepos is null or 0. *)
Theorem X18_selectRepositories_front :
  forall (saveFork : bool) (maxRepos : option Z)
         (repositories : list GitHubApi.Repository),
    (exists n,
        GitHubUser.selectRepositories saveFork maxRepos repositories
        = firstn n (filter (Spec.keptWithoutSmart saveFork) repositories))
    /\ (saveFork = false ->
        forall repo,
          In repo (GitHubUser.selectRepositories saveFork maxRepos repositories) ->
          GitHubApi.repo_fork repo = false)
    /\ (forall k, maxRepos = Some k -> (0 < k)%Z ->
          (Z.of_nat (List.length
                       (GitHubUser.selectRepositories saveFork maxRepos
                          repositories)) <= k)%Z)
    /\ (maxRepos = None \/ maxRepos = Some 0%Z ->
        GitHubUser.selectRepositories saveFork maxRepos repositories
        = filter (Spec.keptWithoutSmart saveFork) repositories).
Proof.
  intros saveFork maxRepos repositories.
  split; [apply selectRepositories_front|]. split; [|split].
  - intros -> repo Hin.
    destruct (selectRepositories_front false maxRepos repositories) as [n Hn].
    rewrite Hn in Hin. apply In_firstn, filter_In in Hin.
    destruct Hin as [_ Hk]. unfold Spec.keptWithoutSmart in Hk.
    rewrite orb_false_r in Hk. now apply negb_true_iff in Hk.
  - intros k -> Hk. unfold GitHubUser.selectRepositories.
    destruct (Z.eqb_spec k 0); [lia|]. unfold SmartScanner.slice0.
    destruct (Z.leb_spec 0 k); [|lia]. rewrite length_firstn. lia.
  - intros Hm. unfold GitHubUser.selectRepositories.
    apply slice0_all.
    pose proof (filter_length_le (Spec.keptWithoutSmart saveFork) repositories)
      as Hle.
    fold (Spec.keptWithoutSmart saveFork).
    destruct Hm as [->| ->]; cbn; lia.
Qed.

(** The theorem on a listing of a repository, a fork and a repository,
    with maxRepos 1. *)
Lemma X18_selectRepositories_front_witness :
  GitHubApi.repo_fork (GitHubApi.mkRepository "a" false) = false.
Proof.
  destruct (X18_selectRepositories_front false (Some 1%Z)
              [GitHubApi.mkRepository "a" false;
               GitHubApi.mkRepository "b" true;
               GitHubApi.mkRepository "c" false]) as (_ & H & _).
  apply (H eq_refl (GitHubApi.mkRepository "a" false)).
  left. reflexivity.
Defined.

(** ** The summary of events and the rows of the report *)

Section Summary.

Import GitHubApi GitHubUser.

Lemma summarizeEvents_from (events : list Event) (t : string) :
  forall acc : JsMap.t nat,
    JsMap.get t
      (fold_left
         (fun eventTypes e =>
            JsMap.set (ev_type e)
              (match JsMap.get (ev_type e) eventTypes with
               | Some n => n
               | None => 0%nat
               end + 1)%nat
              eventTypes)
         events acc)
    = match JsMap.get t acc with
      | Some n => Some (n + Spec.countType t events)%nat
      | None =>
          if (Spec.countType t events =? 0)%nat then None
          else Some (Spec.countType t events)
      end.
Proof.
  induction events as [|e events IH]; intros acc.
  - cbn. destruct (JsMap.get t acc); [f_equal; lia|reflexivity].
  - cbn [fold_left]. rewrite IH, JsMap_get_set.
    unfold Spec.countType. cbn [filter].
    rewrite (String.eqb_sym (ev_type e) t).
    destruct (String.eqb_spec t (ev_type e)) as [->|Hne]; cbn [List.length].
    + destruct (JsMap.get (ev_type e) acc); cbn [Nat.eqb]; f_equal; lia.
    + reflexivity.
Qed.

Lemma JsMap_In_get {V} (k : string) (v : V) (m : JsMap.t V) :
  In (k, v) m -> JsMap.has k m = true.
Proof.
  unfold JsMap.has. induction m as [|[k' v'] m IH]; simpl; [contradiction|].
  intros [[= -> ->]|H].
  - now rewrite String.eqb_refl.
  - destruct (String.eqb k k'); [reflexivity|now apply IH].
Qed.

Lemma has_merge (k e : string) (xs : list string) (m : EmailMap) :
  JsMap.has k (addAllAt e xs (ensureKey e m))
  = String.eqb k e || JsMap.has k m.
Proof.
  unfold JsMap.has. rewrite get_merge.
  destruct (String.eqb k e); [reflexivity|]. reflexivity.
Qed.

(** A turn of the repository loop keeps the three maps as a scan of
    commits leaves them. *)
Lemma commitScanned_step (repoNames : list string) (f : bool) (repo : string)
    (a : Aggregate) (entry : string * JsSet.t) :
  In repo repoNames ->
  Spec.commitScanned repoNames a ->
  Spec.commitScanned repoNames (Spec.stepMaps f repo a entry).
Proof.
  intros Hrepo (I1 & I2 & I3). destruct entry as [e ns]. unfold Spec.stepMaps.
  destruct (f && SmartScanner.isNoreply (SmartScanner.classifyEmail e)) eqn:E.
  - rewrite (foldCommitEmail_skip _ _ _ _ _ _ E). cbn [fst].
    exact (conj I1 (conj I2 I3)).
  - rewrite (foldCommitEmail_keep _ _ _ _ _ _ E).
    cbn [fst]. unfold Spec.commitScanned.
    cbn [emailsToName emailsToRepo emailSources].
    change (addAt e "commit" (ensureKey e (emailSources a)))
      with (addAllAt e ["commit"] (ensureKey e (emailSources a))).
    change (addAt e repo (ensureKey e (emailsToRepo a)))
      with (addAllAt e [repo] (ensureKey e (emailsToRepo a))).
    split; [|split].
    + intros k s. rewrite get_merge.
      destruct (String.eqb_spec k e) as [->|Hne]; [|apply I1].
      intros [= <-]. unfold getOrEmpty.
      destruct (JsMap.get e (emailSources a)) as [s0|] eqn:G; [|reflexivity].
      now rewrite (I1 e s0 G).
    + intros k rs. rewrite get_merge.
      destruct (String.eqb_spec k e) as [->|Hne]; [|apply I2].
      intros [= <-]. split.
      * assert (In repo (JsSet.addAll [repo] (getOrEmpty e (emailsToRepo a))))
          as H by (apply JsSet_addAll_In; right; now left).
        intros Hnil. unfold JsSet.addAll in H, Hnil.
        cbn [fold_left] in H, Hnil. now rewrite Hnil in H.
      * intros r Hr.
        apply (JsSet_addAll_In r [repo]) in Hr.
        destruct Hr as [Hr|[<-|[]]]; [|exact Hrepo].
        unfold getOrEmpty in Hr.
        destruct (JsMap.get e (emailsToRepo a)) as [rs0|] eqn:G;
          [|contradiction].
        now apply (I2 e rs0 G).
    + intros k ns'. rewrite get_merge, !has_merge.
      destruct (String.eqb_spec k e) as [->|Hne]; [now split|].
      apply I3.
Qed.

Lemma commitScanned_fold (repoNames : list string) (f : bool) (repo : string)
    (l : EmailMap) :
  In repo repoNames ->
  forall a, Spec.commitScanned repoNames a ->
            Spec.commitScanned repoNames (fold_left (Spec.stepMaps f repo) l a).
Proof.
  intros Hrepo. induction l as [|entry l IH]; intros a Ha; [exact Ha|].
  cbn [fold_left]. now apply IH, commitScanned_step.
Qed.

Lemma commitScanned_scan (names : list string) (f : bool)
    (found : list (string * EmailMap)) :
  incl (map fst found) names ->
  forall a,
    Spec.commitScanned names a ->
    Spec.commitScanned names
      (fold_left
         (fun a repoEmails => fold_left (Spec.stepMaps f (fst repoEmails))
                                (snd repoEmails) a)
         found a).
Proof.
  induction found as [|[repo l] found IH]; intros Hincl a Ha; [exact Ha|].
  cbn [fold_left fst snd]. apply IH.
  - intros r Hr. apply Hincl. now right.
  - apply commitScanned_fold; [|exact Ha]. apply Hincl. now left.
Qed.

Lemma commitScanned_buildMaps (f : bool) (found : list (string * EmailMap)) :
  Spec.commitScanned (map fst found) (Spec.buildMaps f found).
Proof.
  apply commitScanned_scan; [apply incl_refl|].
  repeat split; intros; discriminate.
Qed.

End Summary.

(** X19. The summary of events counts the events of each type: a type is
    a key of the summary exactly when an event has it, and its value is
    the number of events of this type. *)
Theorem X19_summarizeEvents_counts :
  forall (events : list GitHubApi.Event) (t : string),
    JsMap.get t (GitHubUser.summarizeEvents events)
    = if (Spec.countType t events =? 0)%nat then None
      else Some (Spec.countType t events).
Proof.
  intros events t. unfold GitHubUser.summarizeEvents.
  now rewrite summarizeEvents_from.
Qed.

(** X20. After a scan of the commits of repositories, with or without the
    noreply exclusion, every row of email_details has the single source
    commit and at least one repository, all its repositories are among
    those scanned, its class, domain and disposable flag are those of
    classifyEmail on its address, and the addresses of the rows are the
    list leaked_emails, in the same order. *)
Theorem X20_report_rows_of_commit_scan :
  forall (f : bool) (found : list (string * EmailMap)),
    map GitHubUser.email
      (GitHubUser.email_details
         (GitHubUser.result (GitHubUser.scanRepositories f found)))
    = GitHubUser.leaked_emails
        (GitHubUser.result (GitHubUser.scanRepositories f found))
    /\ forall d,
         In d (GitHubUser.email_details
                 (GitHubUser.result (GitHubUser.scanRepositories f found))) ->
         GitHubUser.sources d = ["commit"]
         /\ GitHubUser.repositories d <> []
         /\ incl (GitHubUser.repositories d) (map fst found)
         /\ GitHubUser.classification d
            = SmartScanner.classification
                (SmartScanner.classifyEmail (GitHubUser.email d))
         /\ GitHubUser.domain d
            = SmartScanner.domain
                (SmartScanner.classifyEmail (GitHubUser.email d))
         /\ GitHubUser.is_disposable d
            = SmartScanner.isDisposable
                (SmartScanner.classifyEmail (GitHubUser.email d)).
Proof.
  intros f found.
  pose proof (scanRepositories_aggregate f found) as Hagg.
  pose proof (commitScanned_buildMaps f found) as (I1 & I2 & I3).
  unfold GitHubUser.scanRepositories in *.
  cbn [GitHubUser.result GitHubUser.aggregate] in *.
  rewrite Hagg. unfold GitHubUser.updateResultEmails.
  cbn [GitHubUser.email_details GitHubUser.leaked_emails].
  split.
  - rewrite map_map. apply map_ext. now intros [e ns].
  - intros d Hd. apply in_map_iff in Hd.
    destruct Hd as ([e ns] & <- & Hin). apply filter_In in Hin.
    destruct Hin as [Hin _].
    cbn [GitHubUser.sources GitHubUser.repositories GitHubUser.email
         GitHubUser.classification GitHubUser.domain GitHubUser.is_disposable].
    pose proof (JsMap_In_get _ _ _ Hin) as Hhas. unfold JsMap.has in Hhas.
    destruct (JsMap.get e (GitHubUser.emailsToName (Spec.buildMaps f found)))
      as [ns'|] eqn:G; [|discriminate].
    destruct (I3 e ns' G) as [Hs Hr]. unfold JsMap.has in Hs, Hr.
    unfold GitHubUser.getOrEmpty.
    destruct (JsMap.get e (GitHubUser.emailSources (Spec.buildMaps f found)))
      as [s|] eqn:Gs; [|discriminate].
    destruct (JsMap.get e (GitHubUser.emailsToRepo (Spec.buildMaps f found)))
      as [rs|] eqn:Gr; [|discriminate].
    destruct (I2 e rs Gr) as [Hne Hincl].
    rewrite (I1 e s Gs). now repeat split.
Qed.

(** The theorem on a scan of two repositories that meet the same
    address. *)
Lemma X20_report_rows_of_commit_scan_witness :
  let found := [("tool", [("dev@acme-corp.io", ["Dev"])]);
                ("site", [("dev@acme-corp.io", ["Dev A."])])] in
  let d := GitHubUser.mkEmailDetail "dev@acme-corp.io" ["Dev"; "Dev A."]
             SmartScanner.work (Some "acme-corp.io") false
             ["commit"] ["tool"; "site"] in
  GitHubUser.sources d = ["commit"] /\ GitHubUser.repositories d <> [].
Proof.
  intros found d.
  destruct (X20_report_rows_of_commit_scan true found) as [_ H].
  destruct (H d) as (H1 & H2 & _).
  - left. reflexivity.
  - now split.
Defined.

(** The theorem on two anonymous contributors and one with an account. *)
Lemma X8_contributorEmails_anonymous_only_witness :
  Spec.recorded "old@acme-corp.io" "Anonymous"
    (GitHubApi.contributorEmails
       [GitHubApi.mkContributor "User" (Some "dev@acme-corp.io") (Some "Dev");
        GitHubApi.mkContributor "Anonymous" (Some "old@acme-corp.io") None]).
Proof.
  apply X8_contributorEmails_anonymous_only.
  exists (GitHubApi.mkContributor "Anonymous" (Some "old@acme-corp.io") None).
  split; [right; now left|]. repeat split. discriminate.
Defined.

(** The theorem on a push event with one commit whose author has no
    name. *)
Lemma X9_extractEmailsFromEvents_push_only_witness :
  Spec.recorded "dev@acme-corp.io" "Unknown"
    (GitHubApi.extractEmailsFromEvents
       [GitHubApi.mkEvent "WatchEvent" None;
        GitHubApi.mkEvent "PushEvent"
          (Some (GitHubApi.mkEventPayload
                   (Some [GitHubApi.mkEventCommit
                            (Some (GitHubApi.mkEventAuthor
                                     (Some "dev@acme-corp.io") None))])))]).
Proof.
  apply X9_extractEmailsFromEvents_push_only.
  eexists. split; [right; left; reflexivity|].
  split; [reflexivity|].
  do 4 eexists. split; [reflexivity|]. split; [reflexivity|].
  split; [left; reflexivity|]. split; [reflexivity|]. split; [reflexivity|].
  split; [discriminate|reflexivity].
Defined.

(** The theorem on the merge of a name into an empty map. *)
Lemma X10_mergeEmailMaps_union_witness :
  Spec.recorded "dev@acme-corp.io" "Dev"
    (GitHubUser.mergeEmailMaps JsMap.empty [("dev@acme-corp.io", ["Dev"])]).
Proof.
  apply X10_mergeEmailMaps_union. right.
  exists ("dev@acme-corp.io", ["Dev"]).
  split; [now left|]. split; [reflexivity|now left].
Defined.

(** ** A page of commits without repetition *)

Section FreshCommits.

Import GitHubApi.

Variable username : string.

Lemma walkCommits_fresh_page (page : list Commit) :
  forall (seen : JsSet.t) (emails : EmailMap),
    Spec.freshKeys seen (map sha page) ->
    walkCommits username page seen emails
    = mkCommitWalk (seen ++ map sha page)
        (fold_left (fun m c => harvestCommit username c m) page emails) true.
Proof.
  induction page as [|c page IH]; intros seen emails Hf.
  - simpl. now rewrite app_nil_r.
  - cbn [map] in Hf. apply freshKeys_cons in Hf. destruct Hf as [Hc Hf].
    rewrite (walkCommits_fresh username c page seen emails Hc).
    rewrite (IH _ _ Hf). cbn [map fold_left]. now rewrite <- app_assoc.
Qed.

Lemma recordIdentity_step (i : GitIdentity) (m : EmailMap) (e n : string) :
  Spec.recorded e n (recordIdentity i m)
  <-> Spec.recorded e n m
      \/ (git_email i = Some e /\ git_name i = n /\ e <> "").
Proof.
  unfold recordIdentity.
  destruct (git_email i) as [e0|].
  - destruct (JsString.truthy e0) eqn:Hy.
    + rewrite recorded_mergeOne. apply truthy_iff in Hy.
      split; (intros [H|H]; [now left|right]).
      * destruct H as [-> ->]. now repeat split.
      * destruct H as ([= ->] & <- & _). now split.
    + split; [now left|]. intros [H|([= ->] & _ & Hne)]; [exact H|].
      apply truthy_iff in Hne. congruence.
  - split; [now left|]. intros [H|(Hn & _)]; [exact H|discriminate].
Qed.

Lemma harvestCommit_step (m : EmailMap) (c : Commit) (e n : string) :
  Spec.recorded e n (harvestCommit username c m)
  <-> Spec.recorded e n m \/ Spec.harvested username c e n.
Proof.
  unfold Spec.harvested, Spec.identityOf.
  destruct (Spec.attributedTo username c) eqn:A.
  - rewrite (harvestCommit_own username c m A), !recordIdentity_step.
    intuition.
  - rewrite (harvestCommit_other username c m A).
    split; [now left|]. intros [H|(H & _)]; [exact H|discriminate].
Qed.

End FreshCommits.

(** X21. On a page of commits whose shas are distinct and were not seen
    before, getEmails walks the whole page, and the map records a name
    under an email exactly when it recorded it before or a commit of the
    page is attributed to the scanned account and has the pair as git
    author or git committer with an email that is not empty. *)
Theorem X21_walkCommits_fresh_page :
  forall (username : string) (page : list GitHubApi.Commit)
         (seen : JsSet.t) (emails : EmailMap),
    Spec.freshKeys seen (map GitHubApi.sha page) ->
    GitHubApi.continueCommits
      (GitHubApi.walkCommits username page seen emails) = true
    /\ GitHubApi.seenCommits
         (GitHubApi.walkCommits username page seen emails)
       = seen ++ map GitHubApi.sha page
    /\ forall e n,
         Spec.recorded e n
           (GitHubApi.emailsToName
              (GitHubApi.walkCommits username page seen emails))
         <-> Spec.recorded e n emails
             \/ exists c, In c page /\ Spec.harvested username c e n.
Proof.
  intros username page seen emails Hf.
  rewrite (walkCommits_fresh_page username page seen emails Hf).
  cbn [GitHubApi.continueCommits GitHubApi.seenCommits GitHubApi.emailsToName].
  split; [reflexivity|]. split; [reflexivity|].
  intros e n.
  apply (recorded_fold (fun m c => GitHubApi.harvestCommit username c m)
           (Spec.harvested username)).
  intros m c e' n'. apply harvestCommit_step.
Qed.

(** The theorem on a page of two commits of the scanned account. *)
Lemma X21_walkCommits_fresh_page_witness :
  let id := GitHubApi.mkGitIdentity "Alice" (Some "alice@acme-corp.io") in
  let page := [GitHubApi.mkCommit "a1" (Some "alice") id id;
               GitHubApi.mkCommit "b2" (Some "ALICE") id id] in
  GitHubApi.continueCommits
    (GitHubApi.walkCommits "alice" page JsSet.empty JsMap.empty) = true.
Proof.
  intros id page.
  apply (X21_walkCommits_fresh_page "alice" page JsSet.empty JsMap.empty).
  apply freshKeys_nil. apply nodupb_NoDup. reflexivity.
Defined.

(** ** The score and the other attributes *)

Section ScoreAttributes.

Import SmartScanner.

Variable log10 : Z -> Q.
Variable now : Z.

Lemma starTerm_monotone (n m : Z) :
  Spec.log10Monotone log10 -> (1 <= n <= m)%Z ->
  Qmin (log10 n * 5) priorityWeights.starCount
  <= Qmin (log10 m * 5) priorityWeights.starCount.
Proof.
  intros Hmono Hnm. apply Q.min_le_compat_r.
  apply Qmult_le_compat_r; [now apply Hmono|]. unfold Qle. simpl. lia.
Qed.

End ScoreAttributes.

(** X22. The priority does not decrease with the star count when
    Math.log10 does not decrease and is not negative from 1 on: of two
    repositories that differ only in their stars, the one with more stars
    scores at least as much. A repository that is not a fork scores
    strictly more than the same repository as a fork, and one that is not
    archived strictly more than the same repository archived. *)
Theorem X22_score_in_stars_and_flags :
  forall (log10 : Z -> Q) (now : Z) (r : SmartScanner.Repo),
    (Spec.log10Monotone log10 -> Spec.log10NonNegative log10 ->
     forall s s' : Z,
       (s <= s')%Z ->
       SmartScanner.calculateRepoPriority log10 now (Spec.withStars r s)
       <= SmartScanner.calculateRepoPriority log10 now (Spec.withStars r s'))
    /\ SmartScanner.calculateRepoPriority log10 now (Spec.withFork r true)
       < SmartScanner.calculateRepoPriority log10 now (Spec.withFork r false)
    /\ SmartScanner.calculateRepoPriority log10 now (Spec.withArchived r true)
       < SmartScanner.calculateRepoPriority log10 now
           (Spec.withArchived r false).
Proof.
  intros log10 now r. split; [|split].
  - intros Hmono Hpos s s' Hs.
    unfold SmartScanner.calculateRepoPriority, Spec.withStars.
    cbn [SmartScanner.pushed_at SmartScanner.description SmartScanner.fork
         SmartScanner.stargazers_count SmartScanner.archived
         SmartScanner.has_issues].
    pose proof (starTerm_range log10 (s' + 1)) as [_ P'].
    destruct (Z.ltb_spec 0 s) as [H0|H0];
      destruct (Z.ltb_spec 0 s') as [H0'|H0']; try lia.
    + pose proof (starTerm_monotone log10 (s + 1) (s' + 1) Hmono ltac:(lia)).
      destruct (JsString.truthyOpt _), (negb (SmartScanner.fork r)),
        (negb (SmartScanner.archived r)), (SmartScanner.has_issues r); lra.
    + specialize (P' (Hpos (s' + 1)%Z ltac:(lia))).
      destruct (JsString.truthyOpt _), (negb (SmartScanner.fork r)),
        (negb (SmartScanner.archived r)), (SmartScanner.has_issues r); lra.
    + destruct (JsString.truthyOpt _), (negb (SmartScanner.fork r)),
        (negb (SmartScanner.archived r)), (SmartScanner.has_issues r); lra.
  - unfold SmartScanner.calculateRepoPriority, Spec.withFork,
      SmartScanner.priorityWeights.notFork.
    cbn [SmartScanner.pushed_at SmartScanner.description SmartScanner.fork
         SmartScanner.stargazers_count SmartScanner.archived
         SmartScanner.has_issues negb].
    destruct (JsString.truthyOpt _), (0 <? SmartScanner.stargazers_count r)%Z,
      (negb (SmartScanner.archived r)), (SmartScanner.has_issues r); lra.
  - unfold SmartScanner.calculateRepoPriority, Spec.withArchived,
      SmartScanner.priorityWeights.notArchived.
    cbn [SmartScanner.pushed_at SmartScanner.description SmartScanner.fork
         SmartScanner.stargazers_count SmartScanner.archived
         SmartScanner.has_issues negb].
    destruct (JsString.truthyOpt _), (0 <? SmartScanner.stargazers_count r)%Z,
      (negb (SmartScanner.fork r)), (SmartScanner.has_issues r); lra.
Qed.

(** The theorem with a logarithm that is 1 everywhere, on 9 and 99
    stars, and on a repository and its fork. *)
Lemma X22_score_in_stars_and_flags_witness :
  let r := SmartScanner.mkRepo "tool" false false None 0 None false in
  SmartScanner.calculateRepoPriority (fun _ => 1) 0%Z (Spec.withStars r 9)
  <= SmartScanner.calculateRepoPriority (fun _ => 1) 0%Z (Spec.withStars r 99)
  /\ SmartScanner.calculateRepoPriority (fun _ => 1) 0%Z (Spec.withFork r true)
     < SmartScanner.calculateRepoPriority (fun _ => 1) 0%Z
         (Spec.withFork r false).
Proof.
  intros r.
  destruct (X22_score_in_stars_and_flags (fun _ => 1) 0%Z r) as (H & Hf & _).
  split; [|exact Hf].
  apply H.
  - intros n m Hnm. unfold Qle. simpl. lia.
  - intros n Hn. unfold Qle. simpl. lia.
  - lia.
Defined.

(** ** Sensitive words *)

Section SensitiveWords.

Import JsString SmartScanner.

Lemma toLowerCase_append (a b : string) :
  toLowerCase (a ++ b) = (toLowerCase a ++ toLowerCase b)%string.
Proof. induction a as [|c a IH]; simpl; [reflexivity|now rewrite IH]. Qed.

Lemma length_append (a b : string) :
  String.length (a ++ b) = (String.length a + String.length b)%nat.
Proof. induction a as [|c a IH]; simpl; [reflexivity|now rewrite IH]. Qed.

Lemma substring_0_all (s : string) (m : nat) :
  (String.length s <= m)%nat -> substring 0 m s = s.
Proof.
  revert m. induction s as [|c s IH]; intros m H.
  - now destruct m.
  - destruct m as [|m]; simpl in *; [lia|]. rewrite IH; [reflexivity|lia].
Qed.

(** What is left of a string after [n] characters. *)
Lemma substring_rest (s : string) :
  forall n m m',
    (String.length s - n <= m)%nat -> (String.length s - n <= m')%nat ->
    substring n m s = substring n m' s.
Proof.
  induction s as [|c s IH]; intros n m m' H H'.
  - destruct n, m, m'; reflexivity.
  - destruct n as [|n].
    + rewrite !substring_0_all; [reflexivity|simpl in *; lia|simpl in *; lia].
    + simpl. apply IH; simpl in *; lia.
Qed.

Lemma substring_0_prefix (s : string) (n : nat) :
  String.prefix (substring 0 n s) s = true.
Proof.
  revert n. induction s as [|c s IH]; intros n.
  - now destruct n.
  - destruct n as [|n]; simpl; [reflexivity|].
    destruct (Ascii.ascii_dec c c); [apply IH|contradiction].
Qed.

Lemma substring_0_sum (s : string) :
  forall a b,
    substring 0 (a + b) s
    = (substring 0 a s ++ substring 0 b (substring a (String.length s) s))%string.
Proof.
  induction s as [|c s IH]; intros a b.
  - destruct a, b; reflexivity.
  - destruct a as [|a].
    + cbn [Nat.add]. rewrite (substring_0_all (String c s) (String.length (String c s)))
        by lia.
      destruct b; reflexivity.
    + cbn [Nat.add substring String.length]. cbn [append].
      rewrite IH.
      now rewrite (substring_rest s a (S (String.length s)) (String.length s))
        by lia.
Qed.

(** A word that starts a string, up to letter case. *)
Lemma startsWith_i_iff (lit s : string) :
  startsWith_i lit s = true
  <-> toLowerCase (substring 0 (String.length lit) s) = toLowerCase lit.
Proof.
  unfold startsWith_i.
  rewrite prefix_correct, toLowerCase_length, toLowerCase_substring.
  reflexivity.
Qed.

Lemma prefix_append (x y t : string) :
  String.prefix (x ++ y) t
  = String.prefix x t
    && String.prefix y (substring (String.length x) (String.length t) t).
Proof.
  revert t. induction x as [|a x IH]; intros t.
  - cbn [append String.length String.prefix andb].
    rewrite substring_0_all by lia. now destruct t.
  - destruct t as [|b t]; [reflexivity|].
    cbn [append String.prefix String.length substring].
    destruct (Ascii.ascii_dec a b); [|reflexivity].
    rewrite IH.
    now rewrite (substring_rest t (String.length x) (S (String.length t))
                   (String.length t)) by lia.
Qed.

Lemma startsWith_i_append (a b s : string) :
  startsWith_i (a ++ b) s
  = startsWith_i a s
    && startsWith_i b (substring (String.length a) (String.length s) s).
Proof.
  unfold startsWith_i.
  rewrite toLowerCase_append, prefix_append, !toLowerCase_length.
  now rewrite toLowerCase_substring.
Qed.

Lemma toLowerChar_joiner (c : ascii) :
  (if Ascii.ascii_dec "_" (toLowerChar c) then true else false)
  = Ascii.eqb c "_"
  /\ (if Ascii.ascii_dec "-" (toLowerChar c) then true else false)
     = Ascii.eqb c "-".
Proof.
  destruct c as [[] [] [] [] [] [] [] []];
    split; match goal with
           | |- (if ?d then _ else _) = _ =>
               destruct d as [E|E]; try reflexivity; try discriminate E;
               exfalso; apply E; reflexivity
           end.
Qed.

(** A joiner followed by a word. *)
Lemma startsWith_i_joiner (r rest : string) :
  startsWith_i (String "_" r) rest || startsWith_i (String "-" r) rest
  = match rest with
    | String c rest' => isJoiner c && startsWith_i r rest'
    | EmptyString => false
    end.
Proof.
  unfold startsWith_i, isJoiner. destruct rest as [|c rest]; [reflexivity|].
  cbn [toLowerCase String.prefix].
  change (toLowerChar "_") with "_"%char.
  change (toLowerChar "-") with "-"%char.
  destruct (toLowerChar_joiner c) as [H1 H2].
  destruct (Ascii.ascii_dec "_" (toLowerChar c));
    destruct (Ascii.ascii_dec "-" (toLowerChar c));
    rewrite <- H1, <- H2; cbn [orb andb]; try reflexivity.
  - now rewrite orb_diag.
  - now rewrite orb_false_r.
Qed.

(** A pattern matches at the start of a string when one of its words
    starts the string, and then the match has the length of such a
    word. *)
Lemma matchAtStart_spec (p : SensitivePattern) (s : string) :
  match matchAtStart p s with
  | Some n =>
      exists word, In word (Spec.keywordForms p)
                   /\ n = String.length word
                   /\ startsWith_i word s = true
  | None =>
      forall word, In word (Spec.keywordForms p) -> startsWith_i word s = false
  end.
Proof.
  destruct p as [lit|l r]; cbn [matchAtStart Spec.keywordForms].
  - destruct (startsWith_i lit s) eqn:E.
    + exists lit. split; [now left|]. now split.
    + intros word [<-|[]]. exact E.
  - pose proof (startsWith_i_joiner r
                  (substring (String.length l) (String.length s) s)) as J.
    pose proof (startsWith_i_append l (String "_" r) s) as A1.
    pose proof (startsWith_i_append l (String "-" r) s) as A2.
    pose proof (startsWith_i_append l r s) as A3.
    destruct (startsWith_i l s) eqn:E; cbn [andb] in A1, A2, A3.
    + set (rest := substring (String.length l) (String.length s) s) in *.
      destruct (match rest with
                | String c rest' => isJoiner c && startsWith_i r rest'
                | EmptyString => false
                end) eqn:W.
      * apply orb_true_iff in J. destruct J as [J|J].
        -- exists (l ++ String "_" r)%string. split; [now left|].
           split; [|now rewrite A1].
           rewrite length_append. simpl. lia.
        -- exists (l ++ String "-" r)%string. split; [right; now left|].
           split; [|now rewrite A2].
           rewrite length_append. simpl. lia.
      * apply orb_false_iff in J. destruct J as [J1 J2].
        destruct (startsWith_i r rest) eqn:R.
        -- exists (l ++ r)%string. split; [right; right; now left|].
           split; [|now rewrite A3].
           now rewrite length_append.
        -- intros word [<-|[<-|[<-|[]]]]; congruence.
    + intros word [<-|[<-|[<-|[]]]]; assumption.
Qed.

Lemma includes_unfold (x s : string) :
  includes x s
  = String.prefix x s
    || match s with
       | EmptyString => false
       | String _ s' => includes x s'
       end.
Proof. destruct s; reflexivity. Qed.

Lemma existsb_orb {A} (f g : A -> bool) (l : list A) :
  existsb (fun x => f x || g x) l = existsb f l || existsb g l.
Proof.
  induction l as [|x l IH]; simpl; [reflexivity|]. rewrite IH.
  destruct (f x), (g x), (existsb f l), (existsb g l); reflexivity.
Qed.

(** The pattern matches a message exactly when the message mentions one
    of its words. *)
Lemma firstMatch_mentions (p : SensitivePattern) (s : string) :
  match firstMatch p s with
  | Some _ => true
  | None => false
  end = Spec.mentions s p.
Proof.
  unfold Spec.mentions. induction s as [|c s IH]; cbn [firstMatch].
  - pose proof (matchAtStart_spec p "") as M.
    destruct (matchAtStart p "") as [n|].
    + destruct M as (word & Hin & _ & Hs). symmetry. apply existsb_exists.
      exists word. split; [exact Hin|]. rewrite includes_unfold.
      unfold startsWith_i in Hs. now rewrite Hs.
    + symmetry. apply not_true_iff_false. intros H.
      apply existsb_exists in H. destruct H as (word & Hin & Hi).
      specialize (M word Hin). unfold startsWith_i in M.
      rewrite includes_unfold, M in Hi. discriminate.
  - pose proof (matchAtStart_spec p (String c s)) as M.
    assert (existsb
              (fun word => includes (toLowerCase word)
                             (toLowerCase (String c s)))
              (Spec.keywordForms p)
            = existsb (fun word => startsWith_i word (String c s))
                (Spec.keywordForms p)
              || existsb (fun word => includes (toLowerCase word)
                                        (toLowerCase s))
                   (Spec.keywordForms p)) as E.
    { rewrite <- existsb_orb. reflexivity. }
    rewrite E, <- IH.
    destruct (matchAtStart p (String c s)) as [n|].
    + destruct M as (word & Hin & _ & Hs). symmetry. apply orb_true_iff. left.
      apply existsb_exists. now exists word.
    + replace (existsb (fun word => startsWith_i word (String c s))
                 (Spec.keywordForms p)) with false; [reflexivity|].
      symmetry. apply not_true_iff_false. intros H.
      apply existsb_exists in H. destruct H as (word & Hin & Hs).
      rewrite (M word Hin) in Hs. discriminate.
Qed.

End SensitiveWords.

Section Findings.

Import JsString SmartScanner.

Lemma includes_substring_0 (s : string) (n : nat) :
  includes (substring 0 n s) s = true.
Proof. now rewrite includes_unfold, substring_0_prefix. Qed.

(** The match that is reported is a part of the message and is one of the
    words of the pattern, up to letter case. *)
Lemma firstMatch_sound (p : SensitivePattern) (s : string) :
  forall m,
    firstMatch p s = Some m ->
    exists word, In word (Spec.keywordForms p)
                 /\ toLowerCase m = toLowerCase word
                 /\ includes m s = true.
Proof.
  induction s as [|c s IH]; intros m; cbn [firstMatch].
  - pose proof (matchAtStart_spec p "") as M.
    destruct (matchAtStart p "") as [n|]; [|discriminate].
    intros [= <-]. destruct M as (word & Hin & -> & Hs).
    exists word. split; [exact Hin|].
    split; [exact (proj1 (startsWith_i_iff word "") Hs)|].
    exact (includes_substring_0 "" (String.length word)).
  - pose proof (matchAtStart_spec p (String c s)) as M.
    destruct (matchAtStart p (String c s)) as [n|].
    + intros [= <-]. destruct M as (word & Hin & -> & Hs).
      exists word. split; [exact Hin|].
      split; [exact (proj1 (startsWith_i_iff word (String c s)) Hs)|].
      exact (includes_substring_0 (String c s) (String.length word)).
    + intros H. destruct (IH m H) as (word & Hin & Hl & Hi).
      exists word. split; [exact Hin|]. split; [exact Hl|].
      rewrite includes_unfold, Hi. apply orb_true_r.
Qed.

Lemma findings_patterns (message : string) (ps : list SensitivePattern) :
  map finding_pattern
    (flat_map
       (fun pattern =>
          match firstMatch pattern message with
          | Some m => [mkFinding (patternToString pattern) m]
          | None => []
          end)
       ps)
  = map patternToString (filter (Spec.mentions message) ps).
Proof.
  induction ps as [|p ps IH]; [reflexivity|].
  cbn [flat_map filter]. rewrite map_app, IH, <- (firstMatch_mentions p message).
  now destruct (firstMatch p message).
Qed.

End Findings.

(** X23. analyzeCommitMessage reports, in the order of the list of
    patterns, one finding for each pattern one of whose words the message
    contains in any letter case, the words of a pattern with an optional
    joiner being its two halves written together, with an underscore or
    with a hyphen. The match of a finding is a part of the message and
    is one of the words of its pattern up to letter case. *)
Theorem X23_analyzeCommitMessage_findings :
  forall message : string,
    map SmartScanner.finding_pattern (SmartScanner.analyzeCommitMessage message)
    = map SmartScanner.patternToString
        (filter (Spec.mentions message) SmartScanner.sensitivePatterns)
    /\ forall d,
         In d (SmartScanner.analyzeCommitMessage message) ->
         exists p word,
           In p SmartScanner.sensitivePatterns
           /\ SmartScanner.finding_pattern d = SmartScanner.patternToString p
           /\ In word (Spec.keywordForms p)
           /\ JsString.toLowerCase (SmartScanner.finding_match d)
              = JsString.toLowerCase word
           /\ JsString.includes (SmartScanner.finding_match d) message = true.
Proof.
  intros message. split; [apply findings_patterns|].
  intros d Hd. unfold SmartScanner.analyzeCommitMessage in Hd.
  apply in_flat_map in Hd. destruct Hd as (p & Hp & Hd).
  destruct (SmartScanner.firstMatch p message) as [m|] eqn:E; [|contradiction].
  destruct Hd as [<-|[]].
  destruct (firstMatch_sound p message m E) as (word & Hin & Hl & Hi).
  exists p, word. now repeat split.
Qed.

(** The theorem on a message that names an API key and a password. *)
Lemma X23_analyzeCommitMessage_findings_witness :
  exists p word,
    In p SmartScanner.sensitivePatterns
    /\ In word (Spec.keywordForms p)
    /\ JsString.toLowerCase "API_KEY" = JsString.toLowerCase word.
Proof.
  destruct (X23_analyzeCommitMessage_findings "rotate API_KEY and Password")
    as [_ H].
  destruct (H (SmartScanner.mkFinding "/api[_-]?key/i" "API_KEY"))
    as (p & word & Hp & _ & Hw & Hl & _).
  - left. reflexivity.
  - now exists p, word.
Defined.

Section GistEmails.

Import GitHubApi.

Lemma recordGistCommit_step (m : EmailMap) (c : GistCommit) (e n : string) :
  Spec.recorded e n (recordGistCommit m c)
  <-> Spec.recorded e n m \/ Spec.gistObservation c e n.
Proof.
  unfold recordGistCommit, Spec.gistObservation.
  destruct (gc_user c) as [user|].
  - destruct (gc_change_status c).
    + destruct (gu_email user) as [e0|] eqn:He.
      * destruct (JsString.truthy e0) eqn:Hy.
        -- rewrite recorded_mergeOne. apply truthy_iff in Hy.
           split; (intros [H|H]; [now left|right]).
           ++ destruct H as [-> ->]. exists user. now repeat split.
           ++ destruct H as (u & [= <-] & _ & He' & _ & ->).
              rewrite He in He'. injection He' as ->. now split.
        -- split; [now left|].
           intros [H|(u & [= <-] & _ & He' & Hne & _)]; [exact H|].
           rewrite He in He'. injection He' as ->.
           apply truthy_iff in Hne. congruence.
      * split; [now left|].
        intros [H|(u & [= <-] & _ & He' & _)]; [exact H|congruence].
    + split; [now left|]. intros [H|(u & _ & Hs & _)]; [exact H|discriminate].
  - split; [now left|]. intros [H|(u & Hu & _)]; [exact H|discriminate].
Qed.

End GistEmails.

(** X24. The map of getGistEmails records a name under an email exactly
    when a commit of the gist has a user and a change status, the user
    carries this email, not empty, and the name is the login of the user,
    or its name when it has no login, or Unknown when it has neither. A
    result that is not an array gives the empty map. *)
Theorem X24_getGistEmails_users :
  forall (result : GitHubApi.ApiResult GitHubApi.GistCommit) (e n : string),
    Spec.recorded e n (GitHubApi.getGistEmails result)
    <-> exists c, In c (Spec.itemsOf result) /\ Spec.gistObservation c e n.
Proof.
  intros result e n. destruct result as [commits|msg];
    cbn [GitHubApi.getGistEmails Spec.itemsOf].
  - rewrite (recorded_fold _ Spec.gistObservation recordGistCommit_step).
    split; [|now right]. intros [H|H]; [|exact H].
    now apply recorded_nil in H.
  - split.
    + intros H. now apply recorded_nil in H.
    + intros (c & [] & _).
Qed.

(** The theorem on a gist commit whose user has a name and no login. *)
Lemma X24_getGistEmails_users_witness :
  Spec.recorded "dev@acme-corp.io" "Dev"
    (GitHubApi.getGistEmails
       (GitHubApi.Items
          [GitHubApi.mkGistCommit
             (Some (GitHubApi.mkGistUser (Some "dev@acme-corp.io") None
                      (Some "Dev")))
             true])).
Proof.
  apply X24_getGistEmails_users.
  eexists. split; [left; reflexivity|].
  eexists. split; [reflexivity|]. split; [reflexivity|].
  split; [reflexivity|]. split; [discriminate|reflexivity].
Defined.

(** X25. What filterRepos returns by the value of maxRepos, the sorted
    survivors being the result of the filter and of the sort: all of them
    when maxRepos is null or 0, the first maxRepos of them when maxRepos
    is positive, and all but the last -maxRepos of them when maxRepos is
    negative. *)
Theorem X25_filterRepos_by_maxRepos :
  forall (log10 : Z -> Q) (now : Z) (repos : list SmartScanner.Repo)
         (o : SmartScanner.FilterOptions),
    let sorted :=
      SmartScanner.sortReposByPriority log10 now
        (filter (SmartScanner.keepRepo now o) repos) in
    (SmartScanner.maxRepos o = None \/ SmartScanner.maxRepos o = Some 0%Z ->
     SmartScanner.filterRepos log10 now repos o = sorted)
    /\ (forall k, SmartScanner.maxRepos o = Some k -> (0 < k)%Z ->
          SmartScanner.filterRepos log10 now repos o
          = firstn (Z.to_nat k) sorted)
    /\ (forall k, SmartScanner.maxRepos o = Some k -> (k < 0)%Z ->
          SmartScanner.filterRepos log10 now repos o
          = firstn (List.length sorted - Z.to_nat (- k)) sorted).
Proof.
  intros log10 now repos o sorted. unfold SmartScanner.filterRepos.
  fold sorted. split; [|split].
  - intros [-> | ->]; reflexivity.
  - intros k -> Hk. cbn [SmartScanner.truthyNum].
    destruct (Z.eqb_spec k 0); [lia|]. cbn [negb andb].
    destruct (Z.ltb_spec k (Z.of_nat (List.length sorted))).
    + unfold SmartScanner.slice0. destruct (Z.leb_spec 0 k); [reflexivity|lia].
    + symmetry. apply firstn_all2. lia.
  - intros k -> Hk. cbn [SmartScanner.truthyNum].
    destruct (Z.eqb_spec k 0); [lia|]. cbn [negb andb].
    destruct (Z.ltb_spec k (Z.of_nat (List.length sorted))); [|lia].
    unfold SmartScanner.slice0. destruct (Z.leb_spec 0 k); [lia|].
    f_equal. lia.
Qed.

(** The theorem on three repositories with maxRepos -1: the last of the
    sorted survivors is dropped. *)
Lemma X25_filterRepos_by_maxRepos_witness :
  let a := SmartScanner.mkRepo "a" false false None 0 None false in
  let b := SmartScanner.mkRepo "b" false false None 0 (Some "tool") true in
  let c := SmartScanner.mkRepo "c" false false None 0 (Some "site") false in
  let o := SmartScanner.mkFilterOptions false false 0 None (Some (-1)%Z) in
  List.length (SmartScanner.filterRepos (fun _ => 0%Q) 0%Z [a; b; c] o) = 2%nat.
Proof.
  intros a b c o.
  destruct (X25_filterRepos_by_maxRepos (fun _ => 0%Q) 0%Z [a; b; c] o)
    as (_ & _ & H).
  rewrite (H (-1)%Z); [reflexivity|reflexivity|lia].
Defined.
